(** * Letterboxd Wrapped: the CSV ingestion and analytics pipeline

    A shallow embedding of [src/lib/analytics.ts], of [parseCSVLine] and
    the parsers of [src/components/FileUpload.tsx], of [assignGenreColors]
    from [src/components/GenreDonutChart.tsx] and of the synchronous parts
    of the page component ([handleFileSelect] up to its first [await], the
    request [fetchTMDBData] builds, the favourite-day slide of
    [buildSlides]), followed by the properties the specification states
    about them and by further properties of the code.

    - JavaScript numbers are IEEE 754 binary64 values; they are modelled by
      Rocq's primitive [float], which is the same format with a single NaN,
      so the arithmetic of the code is evaluated as the engine evaluates it.
    - Integer counters that the code only increments and compares (array
      lengths, per-year and per-month counts) are modelled by [nat]: they
      stay below 2^32, where doubles are exact.
    - A JavaScript string is modelled by the bytes of its UTF-8 encoding.
      The characters the code looks at (quote, comma, line feed, digits,
      ASCII letters) are single bytes that occur in no longer character;
      the white space [parseFloat] and [parseInt] skip is recognised by its
      encoding ([trimStart]); and the [length] of a string, which counts
      UTF-16 code units, is computed from the bytes ([String_length]).
    - What the code takes from its platform and its dependencies is a
      parameter: [Date] parsing and the local-time getters, and Papa Parse.
      [parseFloat], [parseInt], [Math.round], [Math.min], the order of
      [Object.entries] and the stable [Array.prototype.sort] are modelled
      after ECMAScript. *)

From Stdlib Require Import ZArith QArith Qround String Ascii DecimalString List Bool Lia
  Floats Permutation Sorted.
Import ListNotations.

Set Warnings "-inexact-float".
Local Open Scope Z_scope.

(** ** JavaScript numbers and the [Math] functions the code uses *)

Module JS.

Definition number := float.

(** The double nearest to an integer (ties to even); exact below 2^53. *)
Definition of_Z (z : Z) : number :=
  SF2Prim (binary_normalize prec emax z 0 false).

Definition of_nat (n : nat) : number := of_Z (Z.of_nat n).

(** [floor (n * 2^e + 1/2)] for [e < 0]: the integer nearest to the dyadic
    [n * 2^e], a tie going to the larger integer. *)
Definition round_half_up (n e : Z) : Z :=
  (2 * n + 2 ^ (- e)) / 2 ^ (1 - e).

(** [Math.round]: NaN, the infinities, the zeros and every value that is
    already integral are returned as they are; otherwise the nearest
    integer, ties toward +infinity, and -0 for a result in [-0.5, 0). *)
Definition Math_round (x : number) : number :=
  match Prim2SF x with
  | S754_finite s m e =>
      if 0 <=? e then x
      else
        let r := round_half_up (cond_Zopp s (Zpos m)) e in
        if r =? 0 then (if s then neg_zero else zero) else of_Z r
  | _ => x
  end.

(** [Math.min] of two arguments: NaN if either is NaN, and -0 below +0. *)
Definition Math_min (x y : number) : number :=
  if is_nan x || is_nan y then nan
  else if (x <? y)%float then x
  else if (y <? x)%float then y
  else if get_sign x then x else y.

Definition Math_sqrt (x : number) : number := PrimFloat.sqrt x.

(** [Math.pow(x, 2)], taken as the correctly rounded square. *)
Definition Math_pow_2 (x : number) : number := (x * x)%float.

Definition isNaN (x : number) : bool := is_nan x.

(** [a >= b] and [a > b] on numbers: false as soon as one side is NaN. *)
Definition ge (a b : number) : bool := (b <=? a)%float.
Definition gt (a b : number) : bool := (b <? a)%float.
Definition lt (a b : number) : bool := (a <? b)%float.

(** A template literal: its pieces in order, the interpolated numbers kept
    as numbers. *)
Inductive piece :=
| Lit (s : string)
| Num (x : number).

Definition template := list piece.

(** ASCII [toLowerCase]. *)
Definition lower_ascii (c : ascii) : ascii :=
  let n := nat_of_ascii c in
  if ((65 <=? n) && (n <=? 90))%nat then ascii_of_nat (n + 32) else c.

Fixpoint toLowerCase (s : string) : string :=
  match s with
  | EmptyString => EmptyString
  | String c s' => String (lower_ascii c) (toLowerCase s')
  end.

(** *** [parseFloat] and [parseInt] *)

(** The white space and the line terminators that both functions skip are
    those of ECMAScript's [WhiteSpace] and [LineTerminator]: TAB, LF, VT,
    FF, CR and SP, which are single bytes; U+00A0, of two bytes; and
    U+1680, U+2000 to U+200A, U+2028, U+2029, U+202F, U+205F, U+3000 and
    U+FEFF, of three. *)
Definition is_space1 (c : ascii) : bool :=
  let n := nat_of_ascii c in
  ((n =? 32) || ((9 <=? n) && (n <=? 13)))%nat.

Definition is_space2 (c1 c2 : ascii) : bool :=
  ((nat_of_ascii c1 =? 194) && (nat_of_ascii c2 =? 160))%nat.

Definition is_space3 (c1 c2 c3 : ascii) : bool :=
  let '(n1, n2, n3) := (nat_of_ascii c1, nat_of_ascii c2, nat_of_ascii c3) in
  (((n1 =? 225) && (n2 =? 154) && (n3 =? 128))
   || ((n1 =? 226) && (n2 =? 128)
       && (((128 <=? n3) && (n3 <=? 138)) || (n3 =? 168) || (n3 =? 169)
           || (n3 =? 175)))
   || ((n1 =? 226) && (n2 =? 129) && (n3 =? 159))
   || ((n1 =? 227) && (n2 =? 128) && (n3 =? 128))
   || ((n1 =? 239) && (n2 =? 187) && (n3 =? 191)))%nat.

Fixpoint trimStart (s : string) : string :=
  match s with
  | String c1 s1 =>
      if is_space1 c1 then trimStart s1
      else
        match s1 with
        | String c2 s2 =>
            if is_space2 c1 c2 then trimStart s2
            else
              match s2 with
              | String c3 s3 =>
                  if is_space3 c1 c2 c3 then trimStart s3 else s
              | EmptyString => s
              end
        | EmptyString => s
        end
  | EmptyString => s
  end.

(** [s.length]: the number of UTF-16 code units of the string.  A
    character of one, two or three bytes is one code unit and a character
    of four bytes is two; the bytes that continue a character count for
    nothing. *)
Definition code_units (c : ascii) : nat :=
  let n := nat_of_ascii c in
  if (n <? 128)%nat then 1%nat
  else if (n <? 192)%nat then 0%nat
  else if (n <? 240)%nat then 1%nat
  else 2%nat.

Fixpoint String_length (s : string) : nat :=
  match s with
  | EmptyString => 0%nat
  | String c s' => (code_units c + String_length s')%nat
  end.

(** The value of a digit in the given radix. *)
Definition digit_of (radix : Z) (c : ascii) : option Z :=
  let n := Z.of_nat (nat_of_ascii c) in
  let d :=
    if (48 <=? n) && (n <=? 57) then n - 48
    else if (97 <=? n) && (n <=? 122) then n - 87
    else if (65 <=? n) && (n <=? 90) then n - 55
    else radix in
  if d <? radix then Some d else None.

(** Reads the longest run of digits: the accumulated value, the number of
    digits read and the rest of the string. *)
Fixpoint read_digits (radix : Z) (s : string) (acc : Z) (cnt : nat)
  : Z * nat * string :=
  match s with
  | String c s' =>
      match digit_of radix c with
      | Some d => read_digits radix s' (radix * acc + d) (S cnt)
      | None => (acc, cnt, s)
      end
  | EmptyString => (acc, cnt, s)
  end.

(** An optional sign: whether it is [-], and the rest. *)
Definition read_sign (s : string) : bool * string :=
  match s with
  | String "-" s' => (true, s')
  | String "+" s' => (false, s')
  | _ => (false, s)
  end.

(** The longest prefix that is a decimal literal without its sign, as
    mantissa digits [M] and decimal exponent [E] (the value is M * 10^E);
    [None] when no digit starts the string. *)
Definition numeric_prefix (s : string) : option (Z * Z) :=
  let '(ip, n1, r1) := read_digits 10 s 0 0 in
  let '(m, n2, r2) :=
    match r1 with
    | String "." r => read_digits 10 r ip 0
    | _ => (ip, 0%nat, r1)
    end in
  if (n1 + n2 =? 0)%nat then None
  else
    let ex :=
      match r2 with
      | String c r =>
          if (Ascii.eqb c "e" || Ascii.eqb c "E")%bool then
            let '(neg, r') := read_sign r in
            let '(ev, n3, _) := read_digits 10 r' 0 0 in
            if (n3 =? 0)%nat then 0 else cond_Zopp neg ev
          else 0
      | EmptyString => 0
      end in
    Some (m, ex - Z.of_nat n2).

(** The double nearest to [± M * 10^E], ties to even.  For a negative [E]
    the quotient is taken with at least 64 bits and a sticky bit, so the
    one rounding of [binary_normalize] is the correct one. *)
Definition of_decimal (neg : bool) (M E : Z) : number :=
  if M =? 0 then (if neg then neg_zero else zero)
  else if 0 <=? E then
    SF2Prim (binary_normalize prec emax (cond_Zopp neg (M * 10 ^ E)) 0 neg)
  else
    let D := 10 ^ (- E) in
    let k := Z.max 0 (Z.log2 D - Z.log2 M + 64) in
    let q := (M * 2 ^ k) / D in
    let sticky := if (M * 2 ^ k) mod D =? 0 then 0 else 1 in
    SF2Prim (binary_normalize prec emax (cond_Zopp neg (2 * q + sticky))
               (- k - 1) neg).

Definition starts_with (p s : string) : bool := String.prefix p s.

Definition parseFloat (input : string) : number :=
  let '(neg, s) := read_sign (trimStart input) in
  if starts_with "Infinity" s then (if neg then neg_infinity else infinity)
  else
    match numeric_prefix s with
    | Some (M, E) => of_decimal neg M E
    | None => nan
    end.

(** [parseInt] without a radix argument: hexadecimal after [0x], decimal
    otherwise. *)
Definition parseInt (input : string) : number :=
  let '(neg, s) := read_sign (trimStart input) in
  let '(radix, s) :=
    match s with
    | String "0" (String c r) =>
        if (Ascii.eqb c "x" || Ascii.eqb c "X")%bool then (16, r) else (10, s)
    | _ => (10, s)
    end in
  let '(v, n, _) := read_digits radix s 0 0 in
  if (n =? 0)%nat then nan else of_decimal neg v 0.

(** Truthiness of a value that is a string or [undefined]. *)
Definition truthy (o : option string) : bool :=
  match o with
  | Some s => negb (String.eqb s "")
  | None => false
  end.

(** [String(v)] of a value that is a string or [undefined]. *)
Definition String_of (o : option string) : string :=
  match o with
  | Some s => s
  | None => "undefined"
  end.

(** *** Arrays and objects *)

(** [Array.prototype.sort] with a comparator: a stable sort, an element
    staying before a later one unless the comparator returns a positive
    number for the pair. *)
Fixpoint sort_insert {A : Type} (cmp : A -> A -> Z) (x : A) (l : list A)
  : list A :=
  match l with
  | [] => [x]
  | y :: l' => if cmp x y <=? 0 then x :: l else y :: sort_insert cmp x l'
  end.

Definition Array_sort {A : Type} (cmp : A -> A -> Z) (l : list A) : list A :=
  fold_right (sort_insert cmp) [] l.

(** An ordinary object as the list of its own properties in creation
    order. *)
Definition object (K V : Type) := list (K * V).

Fixpoint get {K V : Type} (eqb : K -> K -> bool) (o : object K V) (k : K)
  : option V :=
  match o with
  | [] => None
  | (k', v) :: o' => if eqb k' k then Some v else get eqb o' k
  end.

(** [o[k] = v]: an existing property keeps its place, a new one goes last. *)
Fixpoint set {K V : Type} (eqb : K -> K -> bool) (o : object K V) (k : K)
    (v : V) : object K V :=
  match o with
  | [] => [(k, v)]
  | (k', v') :: o' =>
      if eqb k' k then (k, v) :: o' else (k', v') :: set eqb o' k v
  end.

(** [o[k]++] on a counter.  On a missing property JavaScript would store
    NaN; the one call site increments the properties 1..12 and the seven
    day names, which it has created before, the getters being bounded. *)
Fixpoint incr {K : Type} (eqb : K -> K -> bool) (o : object K nat) (k : K)
  : object K nat :=
  match o with
  | [] => []
  | (k', v) :: o' =>
      if eqb k' k then (k', S v) :: o' else (k', v) :: incr eqb o' k
  end.

(** A property key that is an array index. *)
Definition is_index (k : Z) : bool := (0 <=? k) && (k <? 2 ^ 32 - 1).

(** [Object.entries] of an object whose keys are integers: the array
    indices in ascending order, then the other keys in creation order. *)
Definition Object_entries {V : Type} (o : object Z V) : list (Z * V) :=
  Array_sort (fun a b => fst a - fst b) (filter (fun p => is_index (fst p)) o)
    ++ filter (fun p => negb (is_index (fst p))) o.

(** [x || 0] on a number that may be [null] or [undefined]: the falsy
    numbers 0, -0 and NaN give 0 as well. *)
Definition or_0 (o : option number) : number :=
  match o with
  | Some x => if is_nan x || (x =? 0)%float then 0%float else x
  | None => 0%float
  end.

(** How [Array.prototype.sort] reads the number its comparator returns:
    positive, negative, or zero for 0, -0 and NaN. *)
Definition sort_order (v : number) : Z :=
  if (0 <? v)%float then 1 else if (v <? 0)%float then -1 else 0.

(** The outcome of code that may throw a [TypeError]. *)
Inductive completion (A : Type) :=
| Returns (v : A)
| TypeError.

Arguments Returns {A} v.
Arguments TypeError {A}.

(** [s.split(sep)] for a separator of one character; the result has at
    least one element. *)
Fixpoint split_loop (sep : ascii) (s current : string) : list string :=
  match s with
  | EmptyString => [current]
  | String c s' =>
      if Ascii.eqb c sep then current :: split_loop sep s' EmptyString
      else split_loop sep s' (current ++ String c EmptyString)
  end.

Definition split (sep : ascii) (s : string) : list string :=
  split_loop sep s EmptyString.

(** The array index a property name stands for, if any: a decimal numeral
    without a leading zero, below 2^32 - 1. *)
Definition array_index (k : string) : option Z :=
  let '(v, _, rest) := read_digits 10 k 0 0 in
  match k, rest with
  | String c k', EmptyString =>
      if (negb (Ascii.eqb c "0") || String.eqb k' "") && (v <? 2 ^ 32 - 1)
      then Some v else None
  | _, _ => None
  end.

(** [Object.entries] of an object with string keys: the array indices in
    ascending order, then the other keys in creation order. *)
Definition Object_entries_string {V : Type} (o : object string V)
  : list (string * V) :=
  let idx (p : string * V) := array_index (fst p) in
  let value (p : string * V) := match idx p with Some i => i | None => 0 end in
  Array_sort (fun a b => value a - value b)
    (filter (fun p => match idx p with Some _ => true | None => false end) o)
    ++ filter (fun p => match idx p with Some _ => false | None => true end) o.

(** The property names every ordinary object inherits from
    [Object.prototype], those of Annex B included: reading one of them from
    an object without such an own property gives a function, or the
    prototype itself for [__proto__], never [undefined]. *)
Definition Object_prototype_keys : list string :=
  ["constructor"; "hasOwnProperty"; "isPrototypeOf"; "propertyIsEnumerable";
   "toLocaleString"; "toString"; "valueOf"; "__proto__";
   "__defineGetter__"; "__defineSetter__"; "__lookupGetter__";
   "__lookupSetter__"]%string.

Definition inherited (k : string) : bool :=
  existsb (String.eqb k) Object_prototype_keys.

(** [Math.max] of two arguments: NaN if either is NaN, and +0 above -0;
    and of the elements of an array, from minus infinity. *)
Definition Math_max2 (x y : number) : number :=
  if is_nan x || is_nan y then nan
  else if (x <? y)%float then y
  else if (y <? x)%float then x
  else if get_sign x then y else x.

Definition Math_max (l : list number) : number :=
  fold_left Math_max2 l neg_infinity.

(** [l.indexOf(x)] on numbers, by strict equality: [None] stands for -1. *)
Fixpoint indexOf (l : list number) (x : number) : option nat :=
  match l with
  | [] => None
  | y :: l' => if (y =? x)%float then Some 0%nat else option_map S (indexOf l' x)
  end.

(** [l[i] += d] for an index inside the array. *)
Fixpoint add_at (l : list number) (i : nat) (d : number) : list number :=
  match l, i with
  | [], _ => []
  | x :: l', O => (x + d)%float :: l'
  | x :: l', S i' => x :: add_at l' i' d
  end.

End JS.

(** ** The data model of [src/lib/types.ts] *)

Module Types.
Import JS.

(** [DiaryEntry]; [Rating : number | null], the optional columns are
    [undefined] when absent.  [Year] is a number once [parseCSV] has run. *)
Record DiaryEntry := mkDiaryEntry {
  Date : string;
  Name : string;
  Year : number;
  Rating : option number;
  Rewatch : option string;
  Tags : option string
}.

Record MovieStats := mkMovieStats {
  totalFilms : number;
  uniqueFilms : number;
  totalHours : number;
  avgRating : number;
  rewatches : number;
  rewatchPct : number
}.

(** [monthly] is keyed by the month numbers 1..12 and [weekly] by the day
    names; both are kept in the order [Object.entries] lists them. *)
Record ViewingDistribution := mkViewingDistribution {
  monthly : list (Z * nat);
  weekly : list (string * nat);
  busiestMonth : option string;
  busiestDay : option string
}.

Record Archetype := mkArchetype {
  id : string;
  name : string;
  emoji : string;
  tagline : string;
  description : string;
  evidence : list template
}.

Record TasteProfile := mkTasteProfile {
  stabilityScore : number;
  ratingVolatility : number;
  isContrarian : bool;
  contrarianScore : number
}.

End Types.

(** [HighlyRatedFilm] and [MostWatchedPeriod], each in a module of its own
    since their field names are those of other records. *)
Module HighlyRatedFilm.
Record t := mk {
  name : string;
  rating : JS.number;
  year : JS.number
}.
End HighlyRatedFilm.

Module MostWatchedPeriod.
Record t := mk {
  date : option string;
  count : nat;
  films : list string
}.
End MostWatchedPeriod.

(** ** [src/lib/analytics.ts]: the functions that need no [Date] *)

Module Analytics.
Import JS Types.

Local Open Scope float_scope.

(** [e.Rating!] used as a number: [null] converts to 0. *)
Definition Rating_num (e : DiaryEntry) : number :=
  match Rating e with
  | Some r => r
  | None => 0
  end.

(** [e.Rewatch?.toLowerCase() === 'yes'] *)
Definition is_rewatch (e : DiaryEntry) : bool :=
  match Rewatch e with
  | Some s => String.eqb (toLowerCase s) "yes"
  | None => false
  end.

(** [e.Rating !== null && !isNaN(e.Rating!)] *)
Definition is_rated (e : DiaryEntry) : bool :=
  match Rating e with
  | Some r => negb (isNaN r)
  | None => false
  end.

(** [e.Rating !== null] *)
Definition has_rating (e : DiaryEntry) : bool :=
  match Rating e with
  | Some _ => true
  | None => false
  end.

Definition calculateStats (entries : list DiaryEntry) : MovieStats :=
  let totalFilms := length entries in
  let uniqueFilms := length (nodup string_dec (map Name entries)) in
  let rewatches := length (filter is_rewatch entries) in
  let ratedFilms := filter is_rated entries in
  let avgRating :=
    if (0 <? length ratedFilms)%nat
    then Math_round
           (fold_left (fun sum e => sum + Rating_num e) ratedFilms 0
              / of_nat (length ratedFilms) * 100) / 100
    else 0 in
  let totalHours := Math_round (of_nat totalFilms * 2) in
  {| totalFilms := of_nat totalFilms;
     uniqueFilms := of_nat uniqueFilms;
     totalHours := totalHours;
     avgRating := avgRating;
     rewatches := of_nat rewatches;
     rewatchPct :=
       if (0 <? totalFilms)%nat
       then Math_round (of_nat rewatches / of_nat totalFilms * 100)
       else 0 |}.

Definition defaultTasteProfile : TasteProfile :=
  {| stabilityScore := 50; ratingVolatility := 0.5;
     isContrarian := false; contrarianScore := 0 |}.

Definition calculateTasteProfile (entries : list DiaryEntry) : TasteProfile :=
  let ratedFilms := filter has_rating entries in
  if (length ratedFilms <? 5)%nat then defaultTasteProfile
  else
    let ratings := map Rating_num ratedFilms in
    let mean := fold_left (fun a b => a + b) ratings 0 / of_nat (length ratings) in
    let variance :=
      fold_left (fun sum r => sum + Math_pow_2 (r - mean)) ratings 0
        / of_nat (length ratings) in
    let stdDev := Math_sqrt variance in
    let ratingVolatility := Math_min (stdDev / 2.5) 1 in
    let stabilityScore := Math_round ((1 - ratingVolatility) * 100) in
    {| stabilityScore := stabilityScore;
       ratingVolatility := Math_round (ratingVolatility * 100) / 100;
       isContrarian := lt mean 3.5 || gt ratingVolatility 0.6;
       contrarianScore := Math_round ((1 - mean / 5) * 100) |}.

(** [const rewatchRatio = stats.rewatches / stats.totalFilms;] *)
Definition rewatchRatio (stats : MovieStats) : number :=
  rewatches stats / totalFilms stats.

(** The five records of the [archetypes] array. *)
Definition archetypes (entries : list DiaryEntry) (stats : MovieStats)
  : list Archetype :=
  let tasteProfile := calculateTasteProfile entries in
  [ {| id := "marathoner";
       name := "The Marathoner";
       emoji := "🏃";
       tagline := "Quantity is a quality of its own.";
       description := "You don't just watch movies — you consume them. Cinema isn't a hobby, it's a lifestyle.";
       evidence := [ [Num (totalFilms stats); Lit " films watched"];
                     [Num (totalHours stats); Lit " hours of your life"];
                     [Lit "No breaks. No mercy."] ] |};
    {| id := "comfort-rewinder";
       name := "The Comfort Rewinder";
       emoji := "🔁";
       tagline := "Why risk disappointment?";
       description := "You find solace in the familiar. Rewatching isn't repetition — it's ritual.";
       evidence := [ [Num (rewatches stats); Lit " rewatches"];
                     [Num (Math_round (rewatchRatio stats * 100)); Lit "% rewatch rate"];
                     [Lit "Comfort over curiosity"] ] |};
    {| id := "chaos-curator";
       name := "The Chaos Curator";
       emoji := "🎲";
       tagline := "Predictability is for the weak.";
       description := "Your taste is a beautiful mess. You don't follow trends — you defy them.";
       evidence := [ [Lit "Volatility: "; Num (ratingVolatility tasteProfile)];
                     [Lit "Wildly inconsistent ratings"];
                     [Lit "Genre? Never heard of her."] ] |};
    {| id := "prestige-purist";
       name := "The Prestige Purist";
       emoji := "🎭";
       tagline := "Only the finest for your eyes.";
       description := "You have standards. High ones. Not everything deserves your attention.";
       evidence := [ [Lit "Avg rating: "; Num (avgRating stats); Lit "⭐"];
                     [Lit "High bar, few disappointments"];
                     [Lit "Quality over quantity"] ] |};
    {| id := "emotional-explorer";
       name := "The Emotional Explorer";
       emoji := "💔";
       tagline := "Cinema is therapy.";
       description := "You seek movies that make you feel. The heavier, the better.";
       evidence := [ [Lit "Drawn to emotional weight"];
                     [Lit "Heavy dramas dominate"];
                     [Lit "You watch to process"] ] |} ].

(** [archetypes[i]] for an index inside the array. *)
Definition archetype_at (entries : list DiaryEntry) (stats : MovieStats)
    (i : nat) : Archetype :=
  nth i (archetypes entries stats) (mkArchetype "" "" "" "" "" []).

Definition classifyArchetype (entries : list DiaryEntry) (stats : MovieStats)
  : Archetype :=
  let rewatchRatio := rewatchRatio stats in
  let avgRating := avgRating stats in
  let tasteProfile := calculateTasteProfile entries in
  if ge (totalFilms stats) 100 then archetype_at entries stats 0
  else if ge rewatchRatio 0.3 then archetype_at entries stats 1
  else if gt (ratingVolatility tasteProfile) 0.5 then archetype_at entries stats 2
  else if ge avgRating 4.0 then archetype_at entries stats 3
  else archetype_at entries stats 4.

(** [e.Rating !== null && e.Rating >= minRating] *)
Definition rated_at_least (minRating : number) (e : DiaryEntry) : bool :=
  match Rating e with
  | Some r => ge r minRating
  | None => false
  end.

(** The comparator [(a, b) => (b.Rating || 0) - (a.Rating || 0)]. *)
Definition by_rating_desc (a b : DiaryEntry) : Z :=
  sort_order (or_0 (Rating b) - or_0 (Rating a)).

Definition getHighlyRatedFilms (entries : list DiaryEntry) (minRating : number)
  : list HighlyRatedFilm.t :=
  map (fun e => {| HighlyRatedFilm.name := Name e;
                   HighlyRatedFilm.rating := Rating_num e;
                   HighlyRatedFilm.year := Year e |})
    (firstn 6
       (Array_sort by_rating_desc (filter (rated_at_least minRating) entries))).

(** The call without a second argument: [minRating = 4.5]. *)
Definition getHighlyRatedFilms_default (entries : list DiaryEntry)
  : list HighlyRatedFilm.t :=
  getHighlyRatedFilms entries 4.5.

Local Close Scope float_scope.

(** *** The functions that read dates

    [new Date(string)] and the local-time getters depend on the engine
    and on the time zone, so they are parameters: [Date_parse] gives the
    time value of [new Date(s)], [None] for an Invalid Date (the case
    [isNaN(date.getTime())]); the getters are applied to time values. *)

Record DateEnv := mkDateEnv {
  Date_parse : string -> option Z;
  getFullYear : Z -> Z;
  getMonth : Z -> nat;
  getDay : Z -> nat;
  currentYear : Z;   (* [new Date().getFullYear()] *)
  (* ECMAScript bounds [getMonth()] by 11 and [getDay()] by 6. *)
  getMonth_lt : forall t, (getMonth t < 12)%nat;
  getDay_lt : forall t, (getDay t < 7)%nat
}.

Section WithDate.
Variable env : DateEnv.

(** The comparator [(a, b) => b[1] - a[1]] on counters. *)
Definition by_count_desc {K : Type} (a b : K * nat) : Z :=
  Z.of_nat (snd b) - Z.of_nat (snd a).

(** The object [yearCounts] after the [forEach]. *)
Definition yearCounts (entries : list DiaryEntry) : object Z nat :=
  fold_left
    (fun yc entry =>
       match Date_parse env (Date entry) with
       | Some t =>
           let year := getFullYear env t in
           set Z.eqb yc year
             (match get Z.eqb yc year with Some c => c | None => 0%nat end + 1)%nat
       | None => yc
       end)
    entries [].

Definition detectTargetYear (entries : list DiaryEntry) : Z :=
  let years := Object_entries (yearCounts entries) in
  if (length years =? 0)%nat then currentYear env
  else fst (hd (0, 0%nat) (Array_sort by_count_desc years)).

Definition filterByYear (entries : list DiaryEntry) (year : Z)
  : list DiaryEntry :=
  filter
    (fun entry =>
       match Date_parse env (Date entry) with
       | Some t => getFullYear env t =? year
       | None => false
       end)
    entries.

Definition monthNames : list string :=
  ["Jan"; "Feb"; "Mar"; "Apr"; "May"; "Jun";
   "Jul"; "Aug"; "Sep"; "Oct"; "Nov"; "Dec"]%string.

Definition dayNames : list string :=
  ["Sunday"; "Monday"; "Tuesday"; "Wednesday"; "Thursday"; "Friday";
   "Saturday"]%string.

(** [monthly] and [weekly] after the two initialising loops. *)
Definition weekly_init : object string nat :=
  fold_left (fun weekly day => set String.eqb weekly day 0%nat) dayNames [].

Definition monthly_init : object Z nat :=
  fold_left (fun monthly i => set Z.eqb monthly (Z.of_nat i) 0%nat)
    (seq 1 12) [].

(** Both objects after the [forEach] over the entries. *)
Definition count_entries (entries : list DiaryEntry)
  : object Z nat * object string nat :=
  fold_left
    (fun '(monthly, weekly) entry =>
       match Date_parse env (Date entry) with
       | Some t =>
           let month := Z.of_nat (getMonth env t) + 1 in
           let dayOfWeek := nth (getDay env t) dayNames "undefined"%string in
           (incr Z.eqb monthly month, incr String.eqb weekly dayOfWeek)
       | None => (monthly, weekly)
       end)
    entries (monthly_init, weekly_init).

(** In the two result fields [None] stands for [null]. *)
Definition calculateDistribution (entries : list DiaryEntry)
  : ViewingDistribution :=
  let '(monthly, weekly) := count_entries entries in
  let busiestMonthNum :=
    hd_error (Array_sort by_count_desc (Object_entries monthly)) in
  let busiestDayEntry := hd_error (Array_sort by_count_desc weekly) in
  {| Types.monthly := monthly;
     Types.weekly := weekly;
     busiestMonth :=
       match busiestMonthNum with
       | Some p => nth_error monthNames (Z.to_nat (fst p - 1))
       | None => None
       end;
     busiestDay :=
       match busiestDayEntry with
       | Some p => Some (fst p)
       | None => None
       end |}.

End WithDate.

(** *** [findMostWatchedDay] *)

(** [entry.Date.split('T')[0]] *)
Definition day_key (entry : DiaryEntry) : string :=
  hd EmptyString (split "T" (Date entry)).

(** What reading [dayMap[date]] gives. *)
Inductive dayMap_value :=
| Own (films : list string)
| Inherited
| Undefined.

Definition dayMap_get (dayMap : object string (list string)) (date : string)
  : dayMap_value :=
  match get String.eqb dayMap date with
  | Some films => Own films
  | None => if inherited date then Inherited else Undefined
  end.

(** The body of the [forEach]: an inherited value is truthy, so no array is
    stored for it, and it has no [push] to call. *)
Definition dayMap_step (dayMap : object string (list string))
    (entry : DiaryEntry) : completion (object string (list string)) :=
  let date := day_key entry in
  let dayMap :=
    match dayMap_get dayMap date with
    | Undefined => set String.eqb dayMap date []
    | _ => dayMap
    end in
  match dayMap_get dayMap date with
  | Own films => Returns (set String.eqb dayMap date (films ++ [Name entry]))
  | _ => TypeError
  end.

Fixpoint dayMap_of (entries : list DiaryEntry)
    (dayMap : object string (list string))
  : completion (object string (list string)) :=
  match entries with
  | [] => Returns dayMap
  | entry :: entries' =>
      match dayMap_step dayMap entry with
      | Returns dayMap' => dayMap_of entries' dayMap'
      | TypeError => TypeError
      end
  end.

(** The comparator [(a, b) => b[1].length - a[1].length]. *)
Definition by_length_desc (a b : string * list string) : Z :=
  Z.of_nat (length (snd b)) - Z.of_nat (length (snd a)).

Definition findMostWatchedDay (entries : list DiaryEntry)
  : completion MostWatchedPeriod.t :=
  match dayMap_of entries [] with
  | TypeError => TypeError
  | Returns dayMap =>
      let sorted := Array_sort by_length_desc (Object_entries_string dayMap) in
      match sorted with
      | [] => Returns {| MostWatchedPeriod.date := None;
                         MostWatchedPeriod.count := 0;
                         MostWatchedPeriod.films := [] |}
      | first :: _ =>
          Returns {| MostWatchedPeriod.date := Some (fst first);
                     MostWatchedPeriod.count := length (snd first);
                     MostWatchedPeriod.films := snd first |}
      end
  end.

(** *** [parseCSV]

    Papa Parse is a dependency; [Papa_parse] stands for
    [Papa.parse(csvContent, {header: true, ...}).data], one record of
    strings per data row, a column the row lacks being [undefined]. *)

Record RawRecord := mkRawRecord {
  raw_Date : string;
  raw_Name : string;
  raw_Year : option string;
  raw_Rating : option string;
  raw_Rewatch : option string;
  raw_Tags : option string
}.

(** The callback of [result.data.map]. *)
Definition parseCSV_entry (entry : RawRecord) : DiaryEntry :=
  {| Date := raw_Date entry;
     Name := raw_Name entry;
     Year :=
       if truthy (raw_Year entry) then parseInt (String_of (raw_Year entry))
       else 0%float;
     Rating :=
       if truthy (raw_Rating entry)
       then Some (parseFloat (String_of (raw_Rating entry)))
       else None;
     Rewatch := raw_Rewatch entry;
     Tags := raw_Tags entry |}.

Section WithPapa.
Variable Papa_parse : string -> list RawRecord.

Definition parseCSV (csvContent : string) : list DiaryEntry :=
  map parseCSV_entry (Papa_parse csvContent).

End WithPapa.

End Analytics.

(** ** [parseCSVLine] of [src/components/FileUpload.tsx] *)

Module FileUpload.

(** The double-quote character and the comma, by their codes. *)
Definition quote : ascii := ascii_of_nat 34.
Definition comma : ascii := ascii_of_nat 44.

(** The loop over the characters, with its three variables. *)
Fixpoint parseCSVLine_loop (line : string) (result : list string)
    (current : string) (inQuotes : bool) : list string :=
  match line with
  | EmptyString => result ++ [current]
  | String char rest =>
      if Ascii.eqb char quote then
        parseCSVLine_loop rest result current (negb inQuotes)
      else if Ascii.eqb char comma && negb inQuotes then
        parseCSVLine_loop rest (result ++ [current]) EmptyString inQuotes
      else
        parseCSVLine_loop rest result (current ++ String char EmptyString) inQuotes
  end.

Definition parseCSVLine (line : string) : list string :=
  parseCSVLine_loop line [] EmptyString false.

(** *** The parsers of the other files of the export

    [String.prototype.trim] and [toLowerCase] go by the Unicode tables;
    they are parameters of the parsers, and nothing proved about the
    parsers depends on which characters they take for white space or for
    letters.  [None] stands for [undefined], and for -1 as an index.  The
    length of a review is its number of UTF-16 code units,
    [JS.String_length]. *)

Module ReviewData.
Record t := mk {
  movieName : option string;
  year : option string;
  rating : JS.number;
  review : string;
  date : option string
}.
End ReviewData.

Module RewatchData.
Record t := mk {
  movieName : option string;
  year : option string;
  rating : JS.number
}.
End RewatchData.

(** The line feed, by its code. *)
Definition newline : ascii := ascii_of_nat 10.

(** [s.replace] of every double quote by the empty string. *)
Fixpoint remove_quotes (s : string) : string :=
  match s with
  | EmptyString => EmptyString
  | String c s' =>
      if Ascii.eqb c quote then remove_quotes s' else String c (remove_quotes s')
  end.

(** [l.findIndex(f)] *)
Fixpoint findIndex {A : Type} (f : A -> bool) (l : list A) : option nat :=
  match l with
  | [] => None
  | x :: l' => if f x then Some 0%nat else option_map S (findIndex f l')
  end.

Section Parsers.
Variable trim : string -> string.
Variable toLowerCase : string -> string.

(** The header line, split at the commas; each header trimmed, in lower
    case and without its double quotes. *)
Definition headers_of (headerLine : string) : list string :=
  map (fun h => remove_quotes (toLowerCase (trim h))) (JS.split comma headerLine).

(** [headers.findIndex(h => h === name)] *)
Definition column (headers : list string) (name : string) : option nat :=
  findIndex (fun h => String.eqb h name) headers.

(** [index !== -1 ? values[index]?.trim().replace(...) : ''], the
    replacement being [remove_quotes]. *)
Definition field_at (index : option nat) (values : list string)
  : option string :=
  match index with
  | Some i => option_map (fun v => remove_quotes (trim v)) (nth_error values i)
  | None => Some EmptyString
  end.

(** [index !== -1 ? parseFloat(values[index]) || 0 : 0] *)
Definition rating_at (index : option nat) (values : list string) : JS.number :=
  match index with
  | Some i => JS.or_0 (Some (JS.parseFloat (JS.String_of (nth_error values i))))
  | None => 0%float
  end.

(** [parseProfileCSV] *)
Definition parseProfileCSV (content : string) : option string :=
  let lines := JS.split newline content in
  if (length lines <? 2)%nat then None
  else
    let headerLine := nth 0 lines EmptyString in
    let headers := headers_of headerLine in
    let givenNameIndex := column headers "given name" in
    let usernameIndex := column headers "username" in
    let dataLine := nth 1 lines EmptyString in
    let values := map (fun v => remove_quotes (trim v)) (JS.split comma dataLine) in
    let truthy_at (index : option nat) :=
      match index with
      | Some i => JS.truthy (nth_error values i)
      | None => false
      end in
    if truthy_at givenNameIndex
    then match givenNameIndex with Some i => nth_error values i | None => None end
    else if truthy_at usernameIndex
    then match usernameIndex with Some i => nth_error values i | None => None end
    else None.

(** One turn of the loop of [parseReviewsCSV] over the lines after the
    header: the review it pushes, if any. *)
Definition parseReviewsCSV_line
    (dateIndex nameIndex yearIndex ratingIndex reviewIndex : option nat)
    (line : string) : list ReviewData.t :=
  if negb (JS.truthy (Some (trim line))) then []
  else
    let values := parseCSVLine line in
    let review :=
      match reviewIndex with
      | Some i => option_map trim (nth_error values i)
      | None => Some EmptyString
      end in
    match review with
    | Some text =>
        if negb (JS.truthy review) then []
        else
          [ {| ReviewData.movieName := field_at nameIndex values;
               ReviewData.year := field_at yearIndex values;
               ReviewData.rating := rating_at ratingIndex values;
               ReviewData.review := remove_quotes text;
               ReviewData.date := field_at dateIndex values |} ]
    | None => []
    end.

(** The comparator of [parseReviewsCSV]: by rating, the higher first, and
    for equal ratings by length of the review, the longer first. *)
Definition by_rating_then_length (a b : ReviewData.t) : Z :=
  if negb (ReviewData.rating b =? ReviewData.rating a)%float
  then JS.sort_order (ReviewData.rating b - ReviewData.rating a)%float
  else Z.of_nat (JS.String_length (ReviewData.review b))
       - Z.of_nat (JS.String_length (ReviewData.review a)).

(** [parseReviewsCSV]: the pair of [top3] and [all]. *)
Definition parseReviewsCSV (content : string)
  : list ReviewData.t * list ReviewData.t :=
  let lines := JS.split newline content in
  if (length lines <? 2)%nat then ([], [])
  else
    let headers := headers_of (nth 0 lines EmptyString) in
    let dateIndex := column headers "date" in
    let nameIndex := column headers "name" in
    let yearIndex := column headers "year" in
    let ratingIndex := column headers "rating" in
    let reviewIndex := column headers "review" in
    let reviews :=
      flat_map
        (parseReviewsCSV_line dateIndex nameIndex yearIndex ratingIndex reviewIndex)
        (tl lines) in
    let validReviews :=
      JS.Array_sort by_rating_then_length
        (filter (fun r => (10 <? JS.String_length (ReviewData.review r))%nat)
           reviews) in
    (firstn 3 validReviews, validReviews).

(** One turn of the loop of [parseRewatchedCSV]. *)
Definition parseRewatchedCSV_line
    (nameIndex yearIndex ratingIndex : option nat) (rewatchIndex : nat)
    (line : string) : list RewatchData.t :=
  if negb (JS.truthy (Some (trim line))) then []
  else
    let values := parseCSVLine line in
    let isRewatch :=
      match nth_error values rewatchIndex with
      | Some v => String.eqb (toLowerCase (trim v)) "yes"
      | None => false
      end in
    if negb isRewatch then []
    else
      [ {| RewatchData.movieName := field_at nameIndex values;
           RewatchData.year := field_at yearIndex values;
           RewatchData.rating := rating_at ratingIndex values |} ].

(** The comparator [(a, b) => b.rating - a.rating]. *)
Definition by_rewatch_rating (a b : RewatchData.t) : Z :=
  JS.sort_order (RewatchData.rating b - RewatchData.rating a)%float.

Definition parseRewatchedCSV (content : string) : list RewatchData.t :=
  let lines := JS.split newline content in
  if (length lines <? 2)%nat then []
  else
    let headers := headers_of (nth 0 lines EmptyString) in
    let nameIndex := column headers "name" in
    let yearIndex := column headers "year" in
    let ratingIndex := column headers "rating" in
    match column headers "rewatch" with
    | None => []
    | Some rewatchIndex =>
        let rewatched :=
          flat_map
            (parseRewatchedCSV_line nameIndex yearIndex ratingIndex rewatchIndex)
            (tl lines) in
        firstn 2 (JS.Array_sort by_rewatch_rating rewatched)
    end.

End Parsers.

End FileUpload.

(** ** The page component: [handleFileSelect] up to its first [await] *)

Module Page.
Import JS Types Analytics.

(** What the handler has computed when it reaches the metadata lookup,
    without the list of highly rated films, which no property below reads. *)
Record WrappedData := mkWrappedData {
  entries : list DiaryEntry;
  year : Z;
  stats : MovieStats;
  distribution : ViewingDistribution;
  archetype : Archetype
}.

(** The [try] block either throws an [Error], whose message the [catch]
    hands to [setError], or goes on to present the data. *)
Inductive outcome :=
| Thrown (message : string)
| Computed (data : WrappedData).

Definition show_nat (n : nat) : string :=
  DecimalString.NilZero.string_of_uint (Nat.to_uint n).

Definition show_Z (z : Z) : string :=
  DecimalString.NilZero.string_of_int (Z.to_int z).

Section WithEnv.
Variable env : DateEnv.
Variable Papa_parse : string -> list RawRecord.

(** The body of the [try] once [parseCSV] has returned. *)
Definition analyse (entries : list DiaryEntry) : outcome :=
  if (length entries =? 0)%nat then Thrown "No entries found"
  else
    let year := detectTargetYear env entries in
    let filtered := filterByYear env entries year in
    if (length filtered <? 5)%nat then
      Thrown ("Only " ++ show_nat (length filtered)
                ++ " films found for " ++ show_Z year)
    else
      let stats := calculateStats filtered in
      let distribution := calculateDistribution env filtered in
      let archetype := classifyArchetype filtered stats in
      Computed {| entries := filtered; year := year; stats := stats;
                  distribution := distribution; archetype := archetype |}.

Definition handleFileSelect (diaryContent : string) : outcome :=
  analyse (parseCSV Papa_parse diaryContent).

End WithEnv.

(** *** What [handleFileSelect] asks the metadata service for

    [highlyRated] is computed before the first [await]; [fetchTMDBData]
    builds its request from it before it awaits the response. *)

(** [getHighlyRatedFilms(filtered, 4.0).slice(0, 4)] *)
Definition highlyRated (filtered : list DiaryEntry) : list HighlyRatedFilm.t :=
  firstn 4 (getHighlyRatedFilms filtered 4.0%float).

(** [moviesToFetch]; an object [{ name, year }] is a pair. *)
Definition moviesToFetch (entries : list DiaryEntry)
    (highlyRated : list HighlyRatedFilm.t) : list (string * number) :=
  map (fun m => (HighlyRatedFilm.name m, HighlyRatedFilm.year m))
    (firstn 4 highlyRated)
  ++ map (fun e => (Name e, Year e))
       (firstn 16
          (filter
             (fun e =>
                negb (existsb
                        (fun h => String.eqb (HighlyRatedFilm.name h) (Name e))
                        highlyRated))
             entries)).

(** The batch endpoint of the metadata route:
    [const limitedMovies = movies.slice(0, 20)]. *)
Definition limitedMovies {A : Type} (movies : list A) : list A :=
  firstn 20 movies.

(** *** [buildSlides]: the data of the favourite-day slide *)

(** The [dayNames] of [buildSlides]. *)
Definition buildSlides_dayNames : list string :=
  ["Sun"; "Mon"; "Tue"; "Wed"; "Thu"; "Fri"; "Sat"]%string.

(** [count: data.distribution.weekly?.[day] || 0]; none of the names is
    one that objects inherit. *)
Definition weeklyData (distribution : ViewingDistribution)
  : list (string * nat) :=
  map (fun day =>
         (day,
          match get String.eqb (weekly distribution) day with
          | Some count => count
          | None => 0%nat
          end))
    buildSlides_dayNames.

(** [weeklyData.reduce((max, d) => d.count > max.count ? d : max,
    weeklyData[0])] *)
Definition maxDay (distribution : ViewingDistribution) : string * nat :=
  let weeklyData := weeklyData distribution in
  fold_left (fun max d => if (snd max <? snd d)%nat then d else max)
    weeklyData (hd (EmptyString, 0%nat) weeklyData).

Definition favoriteDayFull : object string string :=
  [("Sun", "Sundays"); ("Mon", "Mondays"); ("Tue", "Tuesdays");
   ("Wed", "Wednesdays"); ("Thu", "Thursdays"); ("Fri", "Fridays");
   ("Sat", "Saturdays")]%string.

(** [favoriteDayFull[maxDay.day]], the text of the slide. *)
Definition favoriteDay (distribution : ViewingDistribution) : option string :=
  get String.eqb favoriteDayFull (fst (maxDay distribution)).

(** [Math.max(...weeklyData.map(d => d.count))], by which the bars are
    scaled. *)
Definition maxCount (distribution : ViewingDistribution) : nat :=
  fold_right Nat.max 0%nat (map snd (weeklyData distribution)).

End Page.

(** ** [assignGenreColors] of [src/components/GenreDonutChart.tsx] *)

Module GenreDonutChart.
Import JS.

Record GenreData := mkGenreData {
  genre : string;
  count : number;
  percentage : number;
  color : string
}.

Definition GENRE_COLORS : list string :=
  ["#00D9C0"; "#FF6B9D"; "#6B7280"; "#3B82F6"; "#A855F7"; "#22C55E";
   "#F59E0B"; "#EF4444"]%string.

(** A genre with its count is a pair; [totalFilms] is not used.  When no
    element equals the maximum, which is then NaN, [indexOf] returns -1 and
    the assignment changes no element of the array. *)
Definition assignGenreColors (genres : list (string * number))
    (totalFilms : number) : list GenreData :=
  let topGenres := firstn 5 genres in
  let topGenreTotal :=
    fold_left (fun sum g => (sum + snd g)%float) topGenres 0%float in
  let rawPercentages :=
    map (fun g => (snd g / topGenreTotal * 100)%float) topGenres in
  let roundedPercentages := map Math_round rawPercentages in
  let sum := fold_left (fun a b => (a + b)%float) roundedPercentages 0%float in
  let roundedPercentages :=
    if negb (sum =? 100)%float && (0 <? length roundedPercentages)%nat then
      let diff := (100 - sum)%float in
      match indexOf roundedPercentages (Math_max roundedPercentages) with
      | Some maxIndex => add_at roundedPercentages maxIndex diff
      | None => roundedPercentages
      end
    else roundedPercentages in
  map (fun '(i, g) =>
         {| genre := fst g;
            count := snd g;
            percentage := nth i roundedPercentages nan;
            color := nth (i mod length GENRE_COLORS) GENRE_COLORS EmptyString |})
    (combine (seq 0 (length topGenres)) topGenres).

End GenreDonutChart.

(** ** The specification's own notions, to compare the code with *)

Module Spec.
Import JS Types Analytics.

Local Open Scope float_scope.

(** A decision list: the position of the first rule that holds, or the
    number of rules when none does. *)
Fixpoint first_match (rules : list bool) : nat :=
  match rules with
  | [] => 0
  | true :: _ => 0
  | false :: rest => S (first_match rest)
  end.

(** The four guarded rules of section 4.5, in priority order. *)
Definition archetype_rules (stats : MovieStats) (taste : TasteProfile)
  : list bool :=
  [ ge (totalFilms stats) 100;
    ge (rewatches stats / totalFilms stats) 0.3;
    gt (ratingVolatility taste) 0.5;
    ge (avgRating stats) 4.0 ].

Definition archetype_ids : list string :=
  [ "marathoner"; "comfort-rewinder"; "chaos-curator"; "prestige-purist";
    "emotional-explorer" ]%string.

(** The non-null ratings of an entry sequence, in order. *)
Definition non_null_ratings (entries : list DiaryEntry) : list number :=
  flat_map (fun e => match Rating e with Some r => [r] | None => [] end)
    entries.

(** The ratings that are neither null nor NaN. *)
Definition rated_ratings (entries : list DiaryEntry) : list number :=
  flat_map
    (fun e =>
       match Rating e with
       | Some r => if isNaN r then [] else [r]
       | None => []
       end)
    entries.

Definition sum (l : list number) : number :=
  fold_left (fun a b => a + b) l 0.

Definition mean (l : list number) : number :=
  sum l / of_nat (length l).

(** Population standard deviation: the root of the mean squared distance
    to the mean. *)
Definition population_std_dev (l : list number) : number :=
  Math_sqrt
    (fold_left (fun acc r => acc + (r - mean l) * (r - mean l)) l 0
       / of_nat (length l)).

(** Rounding to two decimals the way the code does it. *)
Definition round_2dp (x : number) : number := Math_round (x * 100) / 100.

(** The rating scale of the data model: 0.5 to 5.0 in half steps. *)
Definition rating_scale : list number :=
  [0.5; 1; 1.5; 2; 2.5; 3; 3.5; 4; 4.5; 5].

Definition on_scale (e : DiaryEntry) : Prop :=
  match Rating e with
  | Some r => In r rating_scale
  | None => True
  end.

(** The rational a finite double stands for (0 for the others). *)
Definition exact (x : number) : Q :=
  match Prim2SF x with
  | S754_finite s m e => (inject_Z (cond_Zopp s (Zpos m)) * Qpower 2 e)%Q
  | _ => 0%Q
  end.

(** The mean of the ratings as a rational, without any rounding. *)
Definition exact_mean (l : list number) : Q :=
  (fold_right (fun r acc => exact r + acc) 0 l
     / inject_Z (Z.of_nat (length l)))%Q.

(** A rational rounded to two decimal places, a tie going up, in
    hundredths; and the double that decimal reads as. *)
Definition half_up_hundredths (q : Q) : Z := Qfloor (q * 100 + (1 # 2))%Q.

Definition decimal_half_up_2dp (q : Q) : number :=
  let h := half_up_hundredths q in
  of_decimal (h <? 0)%Z (Z.abs h) (-2).

(** The year an entry's date falls in, when the date parses. *)
Definition year_of (env : DateEnv) (e : DiaryEntry) : option Z :=
  option_map (getFullYear env) (Date_parse env (Date e)).

(** The years of the entries whose date parses, one per such entry. *)
Definition parsed_years (env : DateEnv) (entries : list DiaryEntry) : list Z :=
  flat_map (fun e => match year_of env e with Some y => [y] | None => [] end)
    entries.

(** How many entries have a date that parses and falls in year [y]. *)
Definition count_year (env : DateEnv) (entries : list DiaryEntry) (y : Z) : nat :=
  count_occ Z.eq_dec (parsed_years env entries) y.

(** The months (0..11) and the days of the week (0..6) of the entries whose
    date parses, one per such entry; and how many fall in a given month. *)
Definition parsed_months (env : DateEnv) (entries : list DiaryEntry) : list nat :=
  flat_map
    (fun e =>
       match Date_parse env (Date e) with
       | Some t => [getMonth env t]
       | None => []
       end)
    entries.

Definition parsed_days (env : DateEnv) (entries : list DiaryEntry) : list nat :=
  flat_map
    (fun e =>
       match Date_parse env (Date e) with
       | Some t => [getDay env t]
       | None => []
       end)
    entries.

Definition month_count (env : DateEnv) (entries : list DiaryEntry) (j : nat) : nat :=
  count_occ Nat.eq_dec (parsed_months env entries) j.

(** No number starts the text: what [parseFloat] cannot read. *)
Definition no_number (s : string) : Prop :=
  starts_with "Infinity" (snd (read_sign (trimStart s))) = false
  /\ numeric_prefix (snd (read_sign (trimStart s))) = None.

(** [l1] is [l2] with some elements left out, the others in their order. *)
Inductive subsequence {A : Type} : list A -> list A -> Prop :=
| subsequence_nil : subsequence [] []
| subsequence_skip x l1 l2 : subsequence l1 l2 -> subsequence l1 (x :: l2)
| subsequence_keep x l1 l2 : subsequence l1 l2 -> subsequence (x :: l1) (x :: l2).

(** Whether a character occurs in a string. *)
Fixpoint contains (c : ascii) (s : string) : bool :=
  match s with
  | EmptyString => false
  | String d s' => Ascii.eqb d c || contains c s'
  end.

(** A field as a CSV writer puts it on a line: between quotes or bare. *)
Definition write_field (f : bool * string) : string :=
  if fst f
  then (String FileUpload.quote (snd f ++ String FileUpload.quote EmptyString))%string
  else snd f.

(** A field that can be written that way: it holds no quote, and no comma
    either unless it is written between quotes. *)
Definition writable (f : bool * string) : Prop :=
  contains FileUpload.quote (snd f) = false
  /\ (fst f = false -> contains FileUpload.comma (snd f) = false).

Definition write_line (fields : list (bool * string)) : string :=
  String.concat (String FileUpload.comma EmptyString) (map write_field fields).

(** A string with its quote characters deleted. *)
Fixpoint without_quotes (s : string) : string :=
  match s with
  | EmptyString => EmptyString
  | String c s' =>
      if Ascii.eqb c FileUpload.quote then without_quotes s'
      else String c (without_quotes s')
  end.

(** The literal mode by positions.  The mode is on at a position when the
    number of quotes before it is odd: each quote toggles it. *)
Fixpoint quotes_before (i : nat) (line : string) : nat :=
  match i, line with
  | S i', String c rest =>
      ((if Ascii.eqb c FileUpload.quote then 1 else 0) + quotes_before i' rest)%nat
  | _, _ => 0%nat
  end.

Definition in_literal (line : string) (i : nat) : bool :=
  Nat.odd (quotes_before i line).

(** The character at a position separates two fields: it is a comma, and
    the literal mode is off there. *)
Definition separates (line : string) (i : nat) : bool :=
  match String.get i line with
  | Some c => Ascii.eqb c FileUpload.comma && negb (in_literal line i)
  | None => false
  end.

(** The pieces of a string between the positions that are marked, the
    marked characters themselves left out; [i] is the position of the
    first character of [s]. *)
Fixpoint pieces_from (marked : nat -> bool) (i : nat) (s current : string)
  : list string :=
  match s with
  | EmptyString => [current]
  | String c rest =>
      if marked i then current :: pieces_from marked (S i) rest EmptyString
      else pieces_from marked (S i) rest (current ++ String c EmptyString)
  end.

Definition pieces (marked : nat -> bool) (s : string) : list string :=
  pieces_from marked 0 s EmptyString.

(** The fields of a line as the specification has them: the pieces between
    the commas outside the literal mode, with the quotes taken out. *)
Definition literal_fields (line : string) : list string :=
  map without_quotes (pieces (separates line) line).

(** The names of the entries of a day, in diary order. *)
Definition films_on (entries : list DiaryEntry) (date : string) : list string :=
  map Name (filter (fun e => String.eqb (day_key e) date) entries).

End Spec.

(** ** Auxiliary notions of the proofs *)

Module Aux.
Import JS.

(** [q * 2^n] on binary positive numbers. *)
Fixpoint pow2 (q : positive) (n : nat) : positive :=
  match n with
  | O => q
  | S n' => xO (pow2 q n')
  end.

(** The double [k / 2] for [k] below 2^53, as sign, 53-bit mantissa and
    exponent; and the same on the integers from 0. *)
Definition half_units (k : positive) : spec_float :=
  S754_finite false (pow2 k (Z.to_nat (53 - Zpos (digits2_pos k))))
    (Zpos (digits2_pos k) - 54).

Definition half (k : Z) : number :=
  match k with
  | Zpos p => SF2Prim (half_units p)
  | _ => zero
  end.

(** A shift record with nothing shifted out yet. *)
Definition exact_record (m : positive) : shr_record :=
  {| shr_m := Zpos m; shr_r := false; shr_s := false |}.

(** Counting a list of years into an object, one year at a time. *)
Definition tally (years : list Z) (o : object Z nat) : object Z nat :=
  fold_left
    (fun yc year =>
       set Z.eqb yc year
         (match get Z.eqb yc year with Some c => c | None => 0%nat end + 1)%nat)
    years o.

(** The place of a double among the doubles, as an integer: its value
    scaled by 2^1074, the infinities beyond every finite value.  NaN, which
    has no place, is given 0. *)
Definition rank (x : spec_float) : Z :=
  match x with
  | S754_zero _ => 0
  | S754_finite s m e => cond_Zopp s (Zpos m * 2 ^ (e + 1074))
  | S754_infinity s => cond_Zopp s (2 ^ 2100)
  | S754_nan => 0
  end.

Definition sign_of (c : comparison) : Z :=
  match c with
  | Lt => -1
  | Eq => 0
  | Gt => 1
  end.

Definition rating_rank (e : Types.DiaryEntry) : Z :=
  rank (Prim2SF (Analytics.Rating_num e)).

(** The list [dayMap] holds for a day, empty when it has none. *)
Definition films_at (dayMap : object string (list string)) (date : string)
  : list string :=
  match get String.eqb dayMap date with
  | Some films => films
  | None => []
  end.

(** The value [m * 2^e] scaled by 2^3000, an integer for every exponent
    that the operations on doubles go through. *)
Definition scaled (m e : Z) : Z := m * 2 ^ (e + 3000).

(** The mantissa of the double 100, whose exponent is -46. *)
Definition percent_bound : positive := 7036874417766400.

(** A double that is [+0], or positive and not above the whole number
    [k]. *)
Definition between_0_and (k : Z) (x : number) : Prop :=
  Prim2SF x = S754_zero false
  \/ exists m e, Prim2SF x = S754_finite false m e
       /\ scaled (Zpos m) e <= k * 2 ^ 3000.


(** One review may stand before another in the sorted list: its rating is
    not lower, and for equal ratings its text is not shorter. *)
Definition review_before (a b : FileUpload.ReviewData.t) : Prop :=
  ge (FileUpload.ReviewData.rating a) (FileUpload.ReviewData.rating b) = true
  /\ ((FileUpload.ReviewData.rating a =? FileUpload.ReviewData.rating b)%float = true ->
      (String_length (FileUpload.ReviewData.review b)
       <= String_length (FileUpload.ReviewData.review a))%nat).

Definition rewatch_rank (a : FileUpload.RewatchData.t) : Z :=
  rank (Prim2SF (FileUpload.RewatchData.rating a)).

(** A double that is no NaN and not below zero: a zero, a positive number
    or +Infinity. *)
Definition not_below_zero (x : spec_float) : Prop :=
  match x with
  | S754_zero _ => True
  | S754_infinity s | S754_finite s _ _ => s = false
  | S754_nan => False
  end.

(** A double that is a number and no infinity. *)
Definition finite (x : number) : bool :=
  match Prim2SF x with
  | S754_zero _ | S754_finite _ _ _ => true
  | _ => false
  end.

(** A double from 0 to 1, the zero of either sign. *)
Definition unit_range (v : number) : Prop :=
  Prim2SF v = S754_zero true \/ between_0_and 1 v.

(** The record [calculateTasteProfile] builds from the mean and the
    deviation it has computed (lines 166 to 174 of the source), the
    volatility it shows rounded to two decimals as the code rounds it. *)
Definition profile_of (mean stdDev : number) : Types.TasteProfile :=
  let volatility := Math_min (stdDev / 2.5)%float 1%float in
  {| Types.stabilityScore := Math_round ((1 - volatility) * 100)%float;
     Types.ratingVolatility := (Math_round (volatility * 100) / 100)%float;
     Types.isContrarian := lt mean 3.5%float || gt volatility 0.6%float;
     Types.contrarianScore := Math_round ((1 - mean / 5) * 100)%float |}.

(** The marks from position [i] on go with a reading of [rest] that starts
    in the mode [inQuotes]: a character is marked when it is a comma met
    outside the literal mode, and a quote toggles the mode. *)
Fixpoint follows (marked : nat -> bool) (i : nat) (rest : string)
    (inQuotes : bool) : Prop :=
  match rest with
  | EmptyString => True
  | String c rest' =>
      marked i = (Ascii.eqb c FileUpload.comma && negb inQuotes)
      /\ follows marked (S i) rest'
           (if Ascii.eqb c FileUpload.quote then negb inQuotes else inQuotes)
  end.

End Aux.

(** ** Sample data for the examples *)

Module Samples.
Import JS Types Analytics.

Definition rated (r : number) : DiaryEntry :=
  mkDiaryEntry "2024-03-01" "Film" 2000%float (Some r) None None.

Definition unrated : DiaryEntry :=
  mkDiaryEntry "2024-03-01" "Film" 2000%float None None None.

(** A [Date] for the examples: it reads date-only strings [YYYY-MM-DD] and
    nothing else, as UTC, and runs in the UTC time zone. *)

Definition days_from_civil (y m d : Z) : Z :=
  let y' := if m <=? 2 then y - 1 else y in
  let era := y' / 400 in
  let yoe := y' - era * 400 in
  let doy := (153 * (if 2 <? m then m - 3 else m + 9) + 2) / 5 + d - 1 in
  let doe := yoe * 365 + yoe / 4 - yoe / 100 + doy in
  era * 146097 + doe - 719468.

(** Year and month (1..12) of a day number. *)
Definition civil_from_days (z : Z) : Z * Z :=
  let z' := z + 719468 in
  let era := z' / 146097 in
  let doe := z' - era * 146097 in
  let yoe := (doe - doe / 1460 + doe / 36524 - doe / 146096) / 365 in
  let doy := doe - (365 * yoe + yoe / 4 - yoe / 100) in
  let mp := (5 * doy + 2) / 153 in
  let m := if mp <? 10 then mp + 3 else mp - 9 in
  (if m <=? 2 then yoe + era * 400 + 1 else yoe + era * 400, m).

Definition msPerDay : Z := 86400000.

Definition two_digits (a b : ascii) : option Z :=
  match digit_of 10 a, digit_of 10 b with
  | Some x, Some y => Some (10 * x + y)
  | _, _ => None
  end.

Definition iso_parse (s : string) : option Z :=
  match s with
  | String y1 (String y2 (String y3 (String y4 (String "-"
      (String m1 (String m2 (String "-" (String d1 (String d2 EmptyString))))))))) =>
      match two_digits y1 y2, two_digits y3 y4, two_digits m1 m2, two_digits d1 d2 with
      | Some yh, Some yl, Some m, Some d =>
          if (1 <=? m) && (m <=? 12) && (1 <=? d) && (d <=? 31)
          then Some (days_from_civil (100 * yh + yl) m d * msPerDay)
          else None
      | _, _, _, _ => None
      end
  | _ => None
  end.

Definition utc : DateEnv :=
  {| Date_parse := iso_parse;
     getFullYear := fun t => fst (civil_from_days (t / msPerDay));
     getMonth := fun t => Z.to_nat ((snd (civil_from_days (t / msPerDay)) - 1) mod 12);
     getDay := fun t => Z.to_nat ((t / msPerDay + 4) mod 7);
     currentYear := 2026;
     getMonth_lt := fun t =>
       ltac:(pose proof (Z.mod_pos_bound
                           (snd (civil_from_days (t / msPerDay)) - 1) 12
                           eq_refl); cbv beta; lia);
     getDay_lt := fun t =>
       ltac:(pose proof (Z.mod_pos_bound (t / msPerDay + 4) 7 eq_refl);
             cbv beta; lia) |}.

Definition watched (date : string) : DiaryEntry :=
  mkDiaryEntry date "Film" 2000%float None None None.

(** Rows as Papa Parse hands them over: four of 2024 and one of 2023; and
    six of 2024, one of 2023 and one without a date. *)
Definition row (date : string) : RawRecord :=
  {| raw_Date := date; raw_Name := "Film"; raw_Year := Some "2000"%string;
     raw_Rating := Some "3.5"%string; raw_Rewatch := Some ""%string;
     raw_Tags := Some ""%string |}.

Definition four_rows : list RawRecord :=
  map row ["2024-01-15"; "2023-12-31"; "2024-02-29"; "2024-02-29";
           "2024-06-01"]%string.

Definition five_rows : list RawRecord :=
  map row ["2024-01-15"; "2023-12-31"; "2024-02-29"; "2024-02-29";
           "2024-06-01"; "not a date"; "2024-11-30"; "2024-12-01"]%string.

(** A diary row whose rating column holds text, and one with empty rating
    and year columns. *)
Definition row_with_text_rating : RawRecord :=
  {| raw_Date := "2024-01-15"; raw_Name := "Stalker";
     raw_Year := Some "1979"%string; raw_Rating := Some "n/a"%string;
     raw_Rewatch := Some ""%string; raw_Tags := Some ""%string |}.

Definition row_with_blanks : RawRecord :=
  {| raw_Date := "2024-01-16"; raw_Name := "Solaris";
     raw_Year := Some ""%string; raw_Rating := Some ""%string;
     raw_Rewatch := Some ""%string; raw_Tags := None |}.

(** Eleven films rated 4 and nine rated 4.5, one entry without rating. *)
Definition fours_and_a_halves : list DiaryEntry :=
  (repeat (rated 4%float) 11 ++ unrated :: repeat (rated 4.5%float) 9)%list.

(** Three ratings far off the scale, in two orders. *)
Definition large_small_large : list DiaryEntry :=
  [rated 1e16; rated 1; rated (-1e16)]%float.

Definition large_large_small : list DiaryEntry :=
  [rated 1e16; rated (-1e16); rated 1]%float.

(** Nineteen films rated 3.5 and one rated 4. *)
Definition threes_and_a_four : list DiaryEntry :=
  (repeat (rated 3.5%float) 19 ++ [rated 4%float])%list.

(** Two hundred entries, the first twenty-nine of them rewatches. *)
Definition rewatched : DiaryEntry :=
  mkDiaryEntry "2024-03-01" "Film" 2000%float None (Some "Yes"%string) None.

Definition twenty_nine_of_200 : list DiaryEntry :=
  (repeat rewatched 29 ++ repeat unrated 171)%list.

(** The statistics of the specification's two scenarios. *)
Definition half_rewatched_150 : MovieStats :=
  {| totalFilms := 150%float; uniqueFilms := 75%float; totalHours := 300%float;
     avgRating := 4.5%float; rewatches := 75%float; rewatchPct := 50%float |}.

Definition four_rewatched_of_10 : MovieStats :=
  {| totalFilms := 10%float; uniqueFilms := 6%float; totalHours := 20%float;
     avgRating := 3.0%float; rewatches := 4%float; rewatchPct := 40%float |}.

(** Five films each: ratings far apart, high and close, middling. *)
Definition far_apart : list DiaryEntry := map rated [5; 5; 1; 5; 1]%float.

Definition high_and_close : list DiaryEntry :=
  map rated [4.5; 4.5; 4; 5; 4.5]%float.

Definition middling : list DiaryEntry := map rated [3; 3.5; 3; 3.5; 3]%float.

(** Statistics that say no film and one rewatch. *)
Definition no_films_one_rewatch : MovieStats :=
  {| totalFilms := 0%float; uniqueFilms := 0%float; totalHours := 0%float;
     avgRating := 0%float; rewatches := 1%float; rewatchPct := 0%float |}.

(** Seven entries in 2023 and nine in 2024, interleaved, and two entries
    without a date. *)
Definition two_years : list DiaryEntry :=
  map watched
    ["2024-01-05"; "2023-01-07"; "2024-01-19"; "2023-02-11"; "undated";
     "2024-03-02"; "2023-03-30"; "2024-04-14"; "2024-05-01"; "2023-06-18";
     "2024-07-07"; "2023-08-23"; "2024-09-09"; ""; "2023-10-31";
     "2024-11-11"; "2023-12-24"; "2024-12-25"]%string.

Definition the_2024_entries : list DiaryEntry :=
  map watched
    ["2024-01-05"; "2024-01-19"; "2024-03-02"; "2024-04-14"; "2024-05-01";
     "2024-07-07"; "2024-09-09"; "2024-11-11"; "2024-12-25"]%string.

(** A diary with two films on one evening and one on another. *)
Definition double_bill : list DiaryEntry :=
  [ mkDiaryEntry "2024-03-09T20:00" "Heat" 1995%float None None None;
    mkDiaryEntry "2024-03-10" "Alien" 1979%float None None None;
    mkDiaryEntry "2024-03-09T23:10" "Ronin" 1998%float None None None ]%string.

(** Genre counts whose rounded shares add up to 99. *)
Definition three_genres : list (string * nat) :=
  [("Drama", 1); ("Horror", 1); ("Comedy", 1)]%string%nat.

(** A [trim] for the examples: it removes the white space of one byte at
    both ends. *)
Definition string_rev (s : string) : string :=
  string_of_list_ascii (rev (list_ascii_of_string s)).

Fixpoint drop_spaces (s : string) : string :=
  match s with
  | String c s' => if is_space1 c then drop_spaces s' else s
  | EmptyString => s
  end.

Definition ascii_trim (s : string) : string :=
  string_rev (drop_spaces (string_rev (drop_spaces s))).

(** A line with quotes inside its first field, and a field written with
    doubled quotes. *)
Definition quoted_inside_a_field : string :=
  ("ab" ++ String FileUpload.quote "c,d" ++ String FileUpload.quote "e,f")%string.

Definition doubled_quotes : string :=
  let q := String FileUpload.quote EmptyString in
  (q ++ "He said " ++ q ++ q ++ "what, a lot" ++ q ++ q ++ ", I agree" ++ q)%string.

(** A rating of 4.5 behind a no-break space, U+00A0. *)
Definition rating_after_no_break_space : string :=
  String (ascii_of_nat 194) (String (ascii_of_nat 160) "4.5").

(** Five diary rows, the second with text for a rating. *)
Definition rated_row (rating : string) : RawRecord :=
  {| raw_Date := "2024-01-15"; raw_Name := "Stalker";
     raw_Year := Some "1979"%string; raw_Rating := Some rating;
     raw_Rewatch := Some ""%string; raw_Tags := Some ""%string |}.

Definition one_text_rating : list RawRecord :=
  map rated_row ["4"; "n/a"; "3.5"; "5"; "4"]%string.

Definition text_rating_diary : list DiaryEntry :=
  parseCSV (fun _ => one_text_rating) "Date,Name,Year,Rating".

(** A reviews file that has no column of reviews. *)
Definition reviews_without_column : string :=
  ("Date,Name,Year" ++ String FileUpload.newline "2024-01-05,Heat,1995")%string.

(** Five ratings, one of them the NaN that [parseFloat] gives for text. *)
Definition one_unparsable : list DiaryEntry :=
  map rated [4; nan; 3.5; 5; 4]%float.

End Samples.

(** * Properties *)

Import JS Types Analytics FileUpload Page GenreDonutChart Spec Aux Samples.

(** ** Archetype classification *)

Lemma archetypes_ids entries stats :
  map id (archetypes entries stats) = archetype_ids.
Proof. reflexivity. Qed.

(** C1. [classifyArchetype] is a decision list over the four rules in their
    fixed order: it returns the record of the [archetypes] array at the
    position of the first rule that holds, the fifth record when none does.
    So 100 films or more give the marathoner whatever else holds; failing
    that a ratio of rewatches of 0.3 or more gives the comfort rewinder;
    failing that a volatility above 0.5 gives the chaos curator; failing
    that an average rating of 4.0 or more gives the prestige purist; and
    the emotional explorer is what remains. *)
Theorem classifyArchetype_decision_list (entries : list DiaryEntry) (stats : MovieStats) :
  let rules := archetype_rules stats (calculateTasteProfile entries) in
  let rule i := nth i rules false in
  let chosen := classifyArchetype entries stats in
  chosen = archetype_at entries stats (first_match rules)
  /\ (rule 0%nat = true -> id chosen = "marathoner"%string)
  /\ (rule 0%nat = false -> rule 1%nat = true ->
        id chosen = "comfort-rewinder"%string)
  /\ (rule 0%nat = false -> rule 1%nat = false -> rule 2%nat = true ->
        id chosen = "chaos-curator"%string)
  /\ (rule 0%nat = false -> rule 1%nat = false -> rule 2%nat = false ->
      rule 3%nat = true -> id chosen = "prestige-purist"%string)
  /\ (rule 0%nat = false -> rule 1%nat = false -> rule 2%nat = false ->
      rule 3%nat = false -> id chosen = "emotional-explorer"%string).
Proof.
  unfold classifyArchetype, archetype_rules, rewatchRatio;
    cbn [first_match nth].
  destruct (ge (totalFilms stats) _);
    [repeat split; intros; (reflexivity || discriminate)|].
  destruct (ge (_ / _)%float _);
    [repeat split; intros; (reflexivity || discriminate)|].
  destruct (gt _ _); [repeat split; intros; (reflexivity || discriminate)|].
  destruct (ge _ _); repeat split; intros; (reflexivity || discriminate).
Qed.

(** The two scenarios of the specification: 150 films of which half are
    rewatches make a marathoner; ten films, four of them rewatches, with an
    average rating of 3.0 make a comfort rewinder.  Then five films each:
    ratings far apart, ratings high and close, ratings middling and close. *)
Lemma classifyArchetype_decision_list_witness :
  id (classifyArchetype [] half_rewatched_150) = "marathoner"%string
  /\ id (classifyArchetype [] four_rewatched_of_10) = "comfort-rewinder"%string
  /\ id (classifyArchetype far_apart (calculateStats far_apart))
     = "chaos-curator"%string
  /\ id (classifyArchetype high_and_close (calculateStats high_and_close))
     = "prestige-purist"%string
  /\ id (classifyArchetype middling (calculateStats middling))
     = "emotional-explorer"%string.
Proof.
  split; [|split; [|split; [|split]]].
  - apply (classifyArchetype_decision_list [] half_rewatched_150).
    reflexivity.
  - apply (classifyArchetype_decision_list [] four_rewatched_of_10);
      reflexivity.
  - apply (classifyArchetype_decision_list far_apart (calculateStats far_apart));
      reflexivity.
  - apply (classifyArchetype_decision_list high_and_close
             (calculateStats high_and_close));
      reflexivity.
  - apply (classifyArchetype_decision_list middling (calculateStats middling));
      reflexivity.
Defined.

(** ** Taste profile *)

Lemma ratings_of_rated_films entries :
  map Rating_num (filter has_rating entries) = non_null_ratings entries.
Proof.
  induction entries as [|e entries IH]; [reflexivity|].
  unfold has_rating, Rating_num in *; cbn.
  destruct (Rating e) eqn:E; cbn; [rewrite E|]; now rewrite IH.
Qed.

Lemma count_of_rated_films entries :
  length (filter has_rating entries) = length (non_null_ratings entries).
Proof. now rewrite <- ratings_of_rated_films, length_map. Qed.

(** What the code does.  It counts the ratings that are not null, a NaN
    among them: with fewer than five it returns the neutral default record
    (50, 0.5, false, 0), with five or more the profile built from the mean
    and the population standard deviation of the non-null ratings. *)
Lemma calculateTasteProfile_non_null_threshold (entries : list DiaryEntry) :
  let ratings := non_null_ratings entries in
  ((length ratings < 5)%nat ->
     calculateTasteProfile entries =
       {| stabilityScore := 50%float; ratingVolatility := 0.5%float;
          isContrarian := false; contrarianScore := 0%float |})
  /\ ((5 <= length ratings)%nat ->
       calculateTasteProfile entries =
         profile_of (mean ratings) (population_std_dev ratings)).
Proof.
  cbv zeta; unfold calculateTasteProfile.
  rewrite ratings_of_rated_films, count_of_rated_films.
  split; intros H.
  - apply Nat.ltb_lt in H. now rewrite H.
  - apply Nat.ltb_ge in H. now rewrite H.
Qed.

(** The scenario of the specification: the ratings 5, 5, 1, 5, 1 make a
    contrarian. *)
Example far_apart_is_contrarian :
  isContrarian (calculateTasteProfile far_apart) = true.
Proof. vm_compute. reflexivity. Qed.

(** On a diary without a NaN rating the rated entries are the entries
    with a rating, and fewer than five of them give the default. *)
Lemma is_rated_has_rating entries :
  (forall e r, In e entries -> Rating e = Some r -> isNaN r = false) ->
  filter is_rated entries = filter has_rating entries.
Proof.
  induction entries as [|e entries IH]; intros H; [reflexivity|].
  cbn [filter]. rewrite IH by (intros e' r Hin; apply H; now right).
  unfold is_rated, has_rating.
  destruct (Rating e) as [r|] eqn:E; [|reflexivity].
  now rewrite (H e r (or_introl eq_refl) E).
Qed.

Lemma calculateTasteProfile_without_NaN (entries : list DiaryEntry) :
  (forall e r, In e entries -> Rating e = Some r -> isNaN r = false) ->
  (length (filter is_rated entries) < 5)%nat ->
  calculateTasteProfile entries = defaultTasteProfile.
Proof.
  intros H L. rewrite (is_rated_has_rating entries H) in L.
  unfold calculateTasteProfile. apply Nat.ltb_lt in L. now rewrite L.
Qed.

(** C6.  The claim does not hold of the code.  A diary of five rows with
    the ratings 4, n/a, 3.5, 5 and 4 is parsed into five entries of which
    the second has the rating NaN.  Four entries are rated, and
    [calculateStats] averages those four; but [calculateTasteProfile]
    filters on [Rating !== null] alone, counts five, and returns a profile
    whose scores are NaN instead of the neutral default. *)
Theorem calculateTasteProfile_counts_NaN_as_rated :
  map Rating text_rating_diary
  = [Some 4; Some nan; Some 3.5; Some 5; Some 4]%float
  /\ length (filter is_rated text_rating_diary) = 4%nat
  /\ avgRating (calculateStats text_rating_diary) = 4.13%float
  /\ calculateTasteProfile text_rating_diary <> defaultTasteProfile
  /\ isNaN (stabilityScore (calculateTasteProfile text_rating_diary)) = true
  /\ isNaN (ratingVolatility (calculateTasteProfile text_rating_diary)) = true
  /\ isNaN (contrarianScore (calculateTasteProfile text_rating_diary)) = true
  /\ isContrarian (calculateTasteProfile text_rating_diary) = false.
Proof.
  assert (N : isNaN (stabilityScore (calculateTasteProfile text_rating_diary)) = true)
    by (vm_compute; reflexivity).
  split; [vm_compute; reflexivity|]. split; [reflexivity|].
  split; [vm_compute; reflexivity|]. split.
  - intros E. rewrite E in N. discriminate N.
  - split; [exact N|]. repeat split; vm_compute; reflexivity.
Qed.

(** ** The minimum sample size *)

Section Pipeline.
Variable env : DateEnv.
Variable Papa_parse : string -> list RawRecord.

Lemma filterByYear_length entries y :
  (length (filterByYear env entries y) <= length entries)%nat.
Proof. apply filter_length_le. Qed.

Lemma insufficient_is_not_no_data n y :
  ("Only " ++ show_nat n ++ " films found for " ++ show_Z y)%string
    <> "No entries found"%string.
Proof. cbn. discriminate. Qed.

Lemma analyse_few (entries : list DiaryEntry) :
  let year := detectTargetYear env entries in
  let filtered := filterByYear env entries year in
  (length filtered < 5)%nat ->
  exists message,
    analyse env entries = Thrown message
    /\ (entries <> [] ->
          message = ("Only " ++ show_nat (length filtered)
                       ++ " films found for " ++ show_Z year)%string
          /\ message <> "No entries found"%string).
Proof.
  cbv zeta; unfold analyse. intros H.
  destruct entries as [|e entries']; cbn [length Nat.eqb].
  - eexists; split; [reflexivity|]. now intros [].
  - apply Nat.ltb_lt in H. rewrite H.
    eexists; split; [reflexivity|]. intros _. split; [reflexivity|].
    apply insufficient_is_not_no_data.
Qed.

Lemma analyse_enough (entries : list DiaryEntry) :
  let year := detectTargetYear env entries in
  let filtered := filterByYear env entries year in
  (5 <= length filtered)%nat ->
  analyse env entries =
    Computed {| Page.entries := filtered; Page.year := year;
                stats := calculateStats filtered;
                distribution := calculateDistribution env filtered;
                archetype := classifyArchetype filtered (calculateStats filtered) |}.
Proof.
  cbv zeta; unfold analyse. intros H.
  pose proof (filterByYear_length entries (detectTargetYear env entries)) as L.
  destruct entries as [|e entries']; [cbn in H; lia|].
  cbn [length Nat.eqb]. apply Nat.ltb_ge in H. now rewrite H.
Qed.

(** C3. When the entries of the detected year are fewer than five the
    handler throws instead of computing statistics; for a non-empty parse
    the message is the insufficient-data one, which never equals the
    no-data message.  With five or more such entries nothing is thrown and
    the statistics are those of the filtered entries. *)
Theorem handleFileSelect_minimum_sample (diaryContent : string) :
  let entries := parseCSV Papa_parse diaryContent in
  let year := detectTargetYear env entries in
  let filtered := filterByYear env entries year in
  ((length filtered < 5)%nat ->
     exists message,
       handleFileSelect env Papa_parse diaryContent = Thrown message
       /\ (entries <> [] ->
             message = ("Only " ++ show_nat (length filtered)
                          ++ " films found for " ++ show_Z year)%string
             /\ message <> "No entries found"%string))
  /\ ((5 <= length filtered)%nat ->
        exists data,
          handleFileSelect env Papa_parse diaryContent = Computed data
          /\ Page.entries data = filtered
          /\ stats data = calculateStats filtered).
Proof.
  cbv zeta; unfold handleFileSelect. split; intros H.
  - now apply analyse_few.
  - rewrite analyse_enough by exact H. eexists. now repeat split.
Qed.

End Pipeline.

Lemma handleFileSelect_minimum_sample_witness :
  (exists message,
     handleFileSelect utc (fun _ => four_rows) "Date,Name,Year,Rating"
       = Thrown message
     /\ message <> "No entries found"%string)
  /\ (exists data,
        handleFileSelect utc (fun _ => five_rows) "Date,Name,Year,Rating"
          = Computed data
        /\ length (Page.entries data) = 6%nat).
Proof.
  split.
  - destruct (proj1 (handleFileSelect_minimum_sample utc (fun _ => four_rows)
                       "Date,Name,Year,Rating")) as (m & E & M).
    + vm_compute. lia.
    + exists m. split; [exact E|]. apply M. discriminate.
  - destruct (proj2 (handleFileSelect_minimum_sample utc (fun _ => five_rows)
                       "Date,Name,Year,Rating")) as (d & E & F & _).
    + vm_compute. lia.
    + exists d. split; [exact E|]. rewrite F. reflexivity.
Defined.

(** On four films of 2024 the message names the count and the year. *)
Example only_four_films :
  handleFileSelect utc (fun _ => four_rows) "Date,Name,Year,Rating"
  = Thrown "Only 4 films found for 2024".
Proof. reflexivity. Qed.

(** ** The CSV line parser *)

Section Line.
Local Open Scope string_scope.

Lemma contains_app c s t : contains c (s ++ t) = contains c s || contains c t.
Proof.
  induction s as [|d s IH]; [reflexivity|].
  cbn. now rewrite IH, orb_assoc.
Qed.

Lemma append_assoc s t u : (s ++ t) ++ u = s ++ (t ++ u).
Proof. induction s as [|c s IH]; cbn; [reflexivity|now rewrite IH]. Qed.

Lemma append_nil_r s : s ++ "" = s.
Proof. induction s as [|c s IH]; cbn; [reflexivity|now rewrite IH]. Qed.

(** Inside quotes every character but the quote is kept. *)
Lemma loop_inside s rest result current :
  contains quote s = false ->
  parseCSVLine_loop (s ++ rest) result current true
  = parseCSVLine_loop rest result (current ++ s) true.
Proof.
  revert current.
  induction s as [|c s IH]; intros current H; cbn.
  - now rewrite append_nil_r.
  - cbn in H. apply orb_false_iff in H as [Hc Hs].
    rewrite Hc, andb_false_r, IH, append_assoc by exact Hs. reflexivity.
Qed.

(** Outside quotes every character but the quote and the comma is kept. *)
Lemma loop_outside s rest result current :
  contains quote s = false ->
  contains comma s = false ->
  parseCSVLine_loop (s ++ rest) result current false
  = parseCSVLine_loop rest result (current ++ s) false.
Proof.
  revert current.
  induction s as [|c s IH]; intros current Hq Hc; cbn.
  - now rewrite append_nil_r.
  - cbn in Hq, Hc.
    apply orb_false_iff in Hq as [Hq Hqs].
    apply orb_false_iff in Hc as [Hc Hcs].
    rewrite Hq, Hc, IH, append_assoc by assumption. reflexivity.
Qed.

Lemma loop_field f rest result current :
  writable f ->
  parseCSVLine_loop (write_field f ++ rest) result current false
  = parseCSVLine_loop rest result (current ++ snd f) false.
Proof.
  destruct f as [[|] s]; unfold writable, write_field; cbn [fst snd];
    intros [Hq Hc].
  - cbn. rewrite append_assoc, loop_inside by exact Hq. reflexivity.
  - apply loop_outside; auto.
Qed.

Lemma loop_line fields : forall f result current,
  Forall writable (f :: fields) ->
  parseCSVLine_loop (write_line (f :: fields)) result current false
  = (result ++ (current ++ snd f)%string :: map snd fields)%list.
Proof.
  induction fields as [|g fields IH]; intros f result current H.
  - inversion H as [|? ? Hf _]; subst.
    unfold write_line; cbn [map String.concat].
    rewrite <- (append_nil_r (write_field f)), loop_field by exact Hf.
    reflexivity.
  - inversion H as [|? ? Hf Hrest]; subst.
    unfold write_line in *; cbn [map String.concat] in *.
    rewrite loop_field by exact Hf.
    cbn [append parseCSVLine_loop]. cbn.
    rewrite (IH g _ "" Hrest). cbn. now rewrite <- app_assoc.
Qed.

(** No quote ever reaches a field. *)
Lemma loop_strips_quotes line : forall result current inQuotes,
  Forall (fun f => contains quote f = false) result ->
  contains quote current = false ->
  Forall (fun f => contains quote f = false)
    (parseCSVLine_loop line result current inQuotes).
Proof.
  induction line as [|c line IH]; intros result current inQuotes Hr Hc;
    cbn [parseCSVLine_loop].
  - apply Forall_app. split; [exact Hr|]. now constructor.
  - destruct (Ascii.eqb c quote) eqn:Eq; [now apply IH|].
    destruct (Ascii.eqb c comma && negb inQuotes).
    + apply IH; [|reflexivity]. apply Forall_app. split; [exact Hr|].
      now constructor.
    + apply IH; [exact Hr|]. rewrite contains_app, Hc.
      cbn [contains orb]. now rewrite Eq.
Qed.

Lemma concat_snoc sep l x :
  l <> [] ->
  String.concat sep (l ++ [x]) = String.concat sep l ++ sep ++ x.
Proof.
  induction l as [|a l IH]; [contradiction|]. intros _.
  destruct l as [|b l]; [reflexivity|].
  change (String.concat sep ((a :: b :: l) ++ [x])%list)
    with (a ++ sep ++ String.concat sep ((b :: l) ++ [x])%list).
  rewrite IH by discriminate.
  change (String.concat sep (a :: b :: l))
    with (a ++ sep ++ String.concat sep (b :: l)).
  now rewrite !append_assoc.
Qed.

Lemma concat_last sep l x y :
  String.concat sep (l ++ [x ++ y]) = String.concat sep (l ++ [x]) ++ y.
Proof.
  destruct l as [|a l]; [reflexivity|].
  rewrite !concat_snoc by discriminate. now rewrite !append_assoc.
Qed.

(** Joined by commas again, the fields are the line without its quotes. *)
Lemma loop_keeps_text line : forall result current inQuotes,
  String.concat (String comma "")
    (parseCSVLine_loop line result current inQuotes)
  = String.concat (String comma "") (result ++ [current])
      ++ without_quotes line.
Proof.
  induction line as [|c line IH]; intros result current inQuotes;
    cbn [parseCSVLine_loop without_quotes].
  - now rewrite append_nil_r.
  - destruct (Ascii.eqb c quote) eqn:Eq; [apply IH|].
    destruct (Ascii.eqb c comma && negb inQuotes) eqn:Ec.
    + apply andb_true_iff in Ec as [Ec _]. apply Ascii.eqb_eq in Ec. subst c.
      rewrite IH, concat_snoc by (now destruct result).
      now rewrite !append_assoc.
    + rewrite IH, concat_last. now rewrite append_assoc.
Qed.

Lemma without_quotes_app s t :
  without_quotes (s ++ t) = without_quotes s ++ without_quotes t.
Proof.
  induction s as [|c s IH]; [reflexivity|]. cbn [append without_quotes].
  destruct (Ascii.eqb c quote); cbn [append]; now rewrite IH.
Qed.

Lemma loop_pieces marked rest : forall i result current inQuotes,
  follows marked i rest inQuotes ->
  parseCSVLine_loop rest result (without_quotes current) inQuotes
  = (result ++ map without_quotes (pieces_from marked i rest current))%list.
Proof.
  induction rest as [|c rest IH]; intros i result current inQuotes F;
    cbn [parseCSVLine_loop pieces_from follows] in *; [reflexivity|].
  destruct F as [M F]. rewrite M.
  destruct (Ascii.eqb c quote) eqn:Eq.
  - apply Ascii.eqb_eq in Eq. subst c. cbn [andb].
    change (Ascii.eqb quote comma) with false. cbn [andb].
    rewrite <- (IH (S i) result (current ++ String quote "") (negb inQuotes) F).
    rewrite without_quotes_app. cbn [without_quotes].
    rewrite Ascii.eqb_refl. now rewrite append_nil_r.
  - destruct (Ascii.eqb c comma && negb inQuotes) eqn:Ec.
    + cbn [map].
      pose proof (IH (S i) (result ++ [without_quotes current])%list "" inQuotes F)
        as E.
      cbn [without_quotes] in E. rewrite E. now rewrite <- app_assoc.
    + rewrite <- (IH (S i) result (current ++ String c "") inQuotes F).
      rewrite without_quotes_app. cbn [without_quotes]. now rewrite Eq.
Qed.

Lemma get_app_length pre c rest :
  String.get (String.length pre) (pre ++ String c rest) = Some c.
Proof. induction pre as [|d pre IH]; [reflexivity|exact IH]. Qed.

Lemma quotes_before_app pre rest :
  quotes_before (String.length pre) (pre ++ rest)
  = quotes_before (String.length pre) pre.
Proof.
  induction pre as [|d pre IH]; [destruct rest; reflexivity|].
  cbn [String.length append quotes_before]. now rewrite IH.
Qed.

Lemma quotes_before_snoc pre c :
  quotes_before (String.length (pre ++ String c "")) (pre ++ String c "")
  = (quotes_before (String.length pre) pre
     + (if Ascii.eqb c quote then 1 else 0))%nat.
Proof.
  induction pre as [|d pre IH]; cbn [String.length append quotes_before].
  - lia.
  - rewrite IH. lia.
Qed.

Lemma length_snoc pre c : String.length (pre ++ String c "") = S (String.length pre).
Proof. induction pre as [|d pre IH]; cbn; [reflexivity|now rewrite IH]. Qed.

Lemma separates_follows rest : forall pre,
  follows (separates (pre ++ rest)) (String.length pre) rest
    (Nat.odd (quotes_before (String.length pre) pre)).
Proof.
  induction rest as [|c rest IH]; intros pre; cbn [follows]; [exact I|].
  split.
  - unfold separates, in_literal.
    rewrite (get_app_length pre c rest).
    now rewrite (quotes_before_app pre (String c rest)).
  - specialize (IH (pre ++ String c "")).
    rewrite append_assoc in IH. cbn [append] in IH.
    rewrite length_snoc in IH.
    replace (Nat.odd (quotes_before (S (String.length pre)) (pre ++ String c "")))
      with (if Ascii.eqb c quote
            then negb (Nat.odd (quotes_before (String.length pre) pre))
            else Nat.odd (quotes_before (String.length pre) pre)) in IH;
      [exact IH|].
    rewrite <- (length_snoc pre c), quotes_before_snoc.
    destruct (Ascii.eqb c quote).
    + rewrite Nat.add_1_r, Nat.odd_succ, <- Nat.negb_odd. reflexivity.
    + now rewrite Nat.add_0_r.
Qed.

Lemma parseCSVLine_literal_fields line : parseCSVLine line = literal_fields line.
Proof.
  unfold parseCSVLine, literal_fields, pieces.
  exact (loop_pieces (separates line) line 0 [] "" false (separates_follows line "")).
Qed.

(** C8. On every line the fields are the pieces between the commas that
    an even number of quotes precede, with the quotes taken out: each
    quote toggles the literal mode, wherever it stands, and a comma met in
    that mode is text of its field.  So no field of the result contains a
    quote character, and the fields joined by commas are the line without
    its quotes.  A line written from fields, each between quotes or bare,
    parses back to exactly those fields: a comma inside quotes stays in
    its field. *)
Theorem parseCSVLine_quoted_fields (line : string) (fields : list (bool * string)) :
  parseCSVLine line = literal_fields line
  /\ Forall (fun f => contains quote f = false) (parseCSVLine line)
  /\ String.concat (String comma "") (parseCSVLine line) = without_quotes line
  /\ (fields <> [] ->
      Forall writable fields ->
      parseCSVLine (write_line fields) = map snd fields).
Proof.
  split; [|split; [|split]].
  - apply parseCSVLine_literal_fields.
  - apply loop_strips_quotes; [constructor|reflexivity].
  - unfold parseCSVLine. now rewrite loop_keeps_text.
  - intros Hne Hw. destruct fields as [|f fields]; [contradiction|].
    unfold parseCSVLine. now rewrite loop_line.
Qed.

Lemma parseCSVLine_quoted_fields_witness :
  parseCSVLine
    (write_line [(false, "2024-01-15"); (true, "Crouching Tiger, Hidden Dragon");
                 (false, "2000"); (true, ""); (false, "4.5")])
  = ["2024-01-15"; "Crouching Tiger, Hidden Dragon"; "2000"; ""; "4.5"].
Proof.
  refine (proj2 (proj2 (proj2 (parseCSVLine_quoted_fields "" _))) _ _).
  - discriminate.
  - repeat (apply Forall_cons;
            [split; [reflexivity|cbn; intros; first [reflexivity|discriminate]]|]).
    apply Forall_nil.
Defined.

(** A quote in the middle of a field toggles the mode as well, and two
    quotes in a row toggle it twice. *)
Example quote_inside_a_field :
  parseCSVLine (quoted_inside_a_field) = ["abc,de"; "f"]
  /\ parseCSVLine doubled_quotes = ["He said what, a lot, I agree"].
Proof. split; reflexivity. Qed.

End Line.

(** ** Sorting and objects *)

Section SortFacts.
Context {A : Type} (cmp : A -> A -> Z).

Lemma sort_insert_perm x l : Permutation (sort_insert cmp x l) (x :: l).
Proof.
  induction l as [|y l IH]; cbn; [reflexivity|].
  destruct (cmp x y <=? 0); [reflexivity|].
  rewrite IH. apply perm_swap.
Qed.

Lemma Array_sort_perm l : Permutation (Array_sort cmp l) l.
Proof.
  induction l as [|x l IH]; cbn; [reflexivity|].
  fold (Array_sort cmp l). rewrite sort_insert_perm. now constructor.
Qed.

Lemma Array_sort_length l : length (Array_sort cmp l) = length l.
Proof. apply Permutation_length, Array_sort_perm. Qed.

End SortFacts.

Lemma filter_split_perm {A : Type} (f : A -> bool) l :
  Permutation (filter f l ++ filter (fun x => negb (f x)) l) l.
Proof.
  induction l as [|x l IH]; cbn; [reflexivity|].
  destruct (f x); cbn.
  - now constructor.
  - rewrite <- Permutation_middle. now constructor.
Qed.

Lemma Object_entries_perm {V : Type} (o : object Z V) :
  Permutation (Object_entries o) o.
Proof.
  unfold Object_entries. rewrite Array_sort_perm. apply filter_split_perm.
Qed.

(** The first element after sorting by descending count has the largest
    count. *)
Lemma insert_head_max {K : Type} (d x : K * nat) (s : list (K * nat)) :
  (forall q, In q s -> (snd q <= snd (hd d s))%nat) ->
  forall q, In q (x :: s) ->
    (snd q <= snd (hd d (sort_insert by_count_desc x s)))%nat.
Proof.
  destruct s as [|y s]; cbn [sort_insert hd].
  - intros _ q [<-|[]]. lia.
  - intros H q Hq. pose proof (H y (or_introl eq_refl)) as Hy. cbn [hd] in Hy.
    unfold by_count_desc at 1.
    destruct (Z.leb_spec (Z.of_nat (snd y) - Z.of_nat (snd x)) 0);
      cbn [hd]; (destruct Hq as [<-|Hq]; [lia|]);
      specialize (H q Hq); cbn [hd] in H; lia.
Qed.

Lemma sorted_head_max {K : Type} (d : K * nat) (l : list (K * nat)) :
  forall p, In p l -> (snd p <= snd (hd d (Array_sort by_count_desc l)))%nat.
Proof.
  induction l as [|x l IH]; intros p Hp; [destruct Hp|].
  cbn [Array_sort fold_right]. fold (Array_sort (@by_count_desc K) l).
  apply insert_head_max.
  - intros q Hq. apply IH.
    now apply (Permutation_in _ (Array_sort_perm by_count_desc l)).
  - destruct Hp as [<-|Hp]; [now left|right].
    now apply (Permutation_in _ (Permutation_sym (Array_sort_perm by_count_desc l))).
Qed.

Section ObjectFacts.
Context {K V : Type} (eqb : K -> K -> bool).
Hypothesis eqb_spec : forall a b, reflect (a = b) (eqb a b).

Lemma get_set (o : object K V) k v k' :
  get eqb (set eqb o k v) k' = if eqb k k' then Some v else get eqb o k'.
Proof.
  induction o as [|[a w] o IH]; cbn.
  - reflexivity.
  - destruct (eqb_spec a k) as [->|Hak]; cbn.
    + destruct (eqb_spec k k'); reflexivity.
    + rewrite IH. destruct (eqb_spec a k') as [->|Hak'].
      * destruct (eqb_spec k k'); [congruence|reflexivity].
      * reflexivity.
Qed.

Lemma get_In (o : object K V) k v : get eqb o k = Some v -> In (k, v) o.
Proof.
  induction o as [|[a w] o IH]; cbn; [discriminate|].
  destruct (eqb_spec a k) as [->|_].
  - intros [= ->]. now left.
  - intros H. right. now apply IH.
Qed.

Lemma set_keys_fresh (o : object K V) k v :
  get eqb o k = None -> map fst (set eqb o k v) = map fst o ++ [k].
Proof.
  induction o as [|[a w] o IH]; cbn; [reflexivity|].
  destruct (eqb_spec a k) as [->|_]; [discriminate|].
  intros H. cbn. now rewrite IH.
Qed.

Lemma set_keys_present (o : object K V) k v w :
  get eqb o k = Some w -> map fst (set eqb o k v) = map fst o.
Proof.
  induction o as [|[a u] o IH]; cbn; [discriminate|].
  destruct (eqb_spec a k) as [->|_]; [reflexivity|].
  intros H. cbn. now rewrite IH.
Qed.

Lemma get_None_keys (o : object K V) k :
  get eqb o k = None -> ~ In k (map fst o).
Proof.
  induction o as [|[a w] o IH]; cbn; [tauto|].
  destruct (eqb_spec a k) as [->|Hak]; [discriminate|].
  intros H [E|Hin]; [congruence|]. now apply IH.
Qed.

Lemma In_get (o : object K V) k v :
  NoDup (map fst o) -> In (k, v) o -> get eqb o k = Some v.
Proof.
  induction o as [|[a w] o IH]; cbn; [tauto|].
  intros Hnd Hin. inversion Hnd as [|? ? Hfresh Hnd']; subst.
  destruct Hin as [[= -> ->]|Hin].
  - destruct (eqb_spec k k); [reflexivity|congruence].
  - destruct (eqb_spec a k) as [->|_].
    + exfalso. apply Hfresh. now apply (in_map fst) in Hin.
    + now apply IH.
Qed.

Lemma incr_keys (o : object K nat) k : map fst (incr eqb o k) = map fst o.
Proof.
  induction o as [|[a w] o IH]; cbn; [reflexivity|].
  destruct (eqb a k); cbn; [reflexivity|now rewrite IH].
Qed.

Lemma get_incr (o : object K nat) k k' :
  get eqb (incr eqb o k) k'
  = if eqb k k' then option_map S (get eqb o k') else get eqb o k'.
Proof.
  induction o as [|[a w] o IH]; cbn.
  - now destruct (eqb k k').
  - destruct (eqb_spec a k) as [->|Hak]; cbn.
    + destruct (eqb_spec k k'); reflexivity.
    + rewrite IH. destruct (eqb_spec a k') as [->|_]; [|reflexivity].
      destruct (eqb_spec k k'); [congruence|reflexivity].
Qed.

(** Incrementing along a list of keys adds, to each property, the number of
    times its key occurs. *)
Lemma get_incr_all (dec : forall a b : K, {a = b} + {a <> b}) keys :
  forall (o : object K nat) k,
    get eqb (fold_left (incr eqb) keys o) k
    = option_map (fun c => (c + count_occ dec keys k)%nat) (get eqb o k).
Proof.
  induction keys as [|a keys IH]; intros o k; cbn [fold_left count_occ].
  - destruct (get eqb o k); cbn; [f_equal; lia|reflexivity].
  - rewrite IH, get_incr.
    destruct (eqb_spec a k) as [->|Hne].
    + destruct (dec k k) as [_|]; [|contradiction].
      destruct (get eqb o k); cbn; [f_equal; lia|reflexivity].
    + destruct (dec a k) as [|_]; [contradiction|reflexivity].
Qed.

End ObjectFacts.

(** ** Year detection and filtering *)

Section Years.
Variable env : DateEnv.

Lemma yearCounts_tally entries :
  yearCounts env entries = tally (parsed_years env entries) [].
Proof.
  unfold yearCounts, tally. generalize (@nil (Z * nat)).
  induction entries as [|e entries IH]; intros o; [reflexivity|].
  cbn [fold_left parsed_years flat_map]. rewrite IH.
  fold (parsed_years env entries). unfold year_of.
  destruct (Date_parse env (Date e)); reflexivity.
Qed.

Lemma tally_get years : forall o n,
  (forall y, get Z.eqb o y = if (n y =? 0)%nat then None else Some (n y)) ->
  forall y, get Z.eqb (tally years o) y =
            if (count_occ Z.eq_dec years y + n y =? 0)%nat then None
            else Some (count_occ Z.eq_dec years y + n y)%nat.
Proof.
  induction years as [|a years IH]; intros o n H y; [apply H|].
  cbn [tally fold_left]. fold (tally years).
  rewrite (IH _ (fun y => ((if Z.eqb a y then 1 else 0) + n y)%nat)).
  - cbn [count_occ].
    destruct (Z.eq_dec a y) as [->|Hne].
    + rewrite Z.eqb_refl. now rewrite <- Nat.add_succ_comm.
    + apply Z.eqb_neq in Hne. now rewrite Hne.
  - intros z. rewrite (get_set Z.eqb Z.eqb_spec).
    destruct (Z.eqb_spec a z) as [->|_]; [|apply H].
    rewrite H. destruct (n z); cbn; [reflexivity|].
    now rewrite Nat.add_1_r.
Qed.

Lemma tally_nodup years : forall o,
  NoDup (map fst o) -> NoDup (map fst (tally years o)).
Proof.
  induction years as [|a years IH]; intros o H; [exact H|].
  cbn [tally fold_left]. fold (tally years). apply IH.
  destruct (get Z.eqb o a) as [c|] eqn:E.
  - now rewrite (set_keys_present Z.eqb Z.eqb_spec _ _ _ _ E).
  - rewrite (set_keys_fresh Z.eqb Z.eqb_spec _ _ _ E).
    apply NoDup_app; [exact H|repeat constructor; intros []|].
    intros k Hk [<-|[]]. now apply (get_None_keys Z.eqb Z.eqb_spec) in E.
Qed.

(** Every property of [yearCounts] is a year with its number of entries,
    and every year that occurs has its property. *)
Lemma yearCounts_In entries y c :
  In (y, c) (yearCounts env entries)
  <-> c = count_year env entries y /\ (0 < c)%nat.
Proof.
  rewrite yearCounts_tally. unfold count_year.
  pose proof (tally_get (parsed_years env entries) [] (fun _ => 0%nat)
                (fun _ => eq_refl) y) as G.
  rewrite Nat.add_0_r in G.
  split.
  - intros Hin.
    apply (In_get Z.eqb Z.eqb_spec) in Hin; [|apply tally_nodup; constructor].
    rewrite Hin in G.
    destruct (Nat.eqb_spec (count_occ Z.eq_dec (parsed_years env entries) y) 0);
      [discriminate|].
    injection G as ->. split; [reflexivity|lia].
  - intros [-> Hpos]. apply (get_In Z.eqb Z.eqb_spec). rewrite G.
    destruct (Nat.eqb_spec (count_occ Z.eq_dec (parsed_years env entries) y) 0);
      [lia|reflexivity].
Qed.

Lemma filter_subsequence {A : Type} (f : A -> bool) l :
  subsequence (filter f l) l.
Proof.
  induction l as [|x l IH]; cbn; [constructor|].
  destruct (f x); now constructor.
Qed.

Lemma filterByYear_count entries y :
  length (filterByYear env entries y) = count_year env entries y.
Proof.
  unfold filterByYear, count_year, parsed_years, year_of.
  induction entries as [|e entries IH]; [reflexivity|].
  cbn [filter flat_map]. rewrite count_occ_app, <- IH.
  destruct (Date_parse env (Date e)) as [t|]; cbn [option_map count_occ].
  - destruct (Z.eq_dec (getFullYear env t) y) as [->|Hne].
    + now rewrite Z.eqb_refl.
    + apply Z.eqb_neq in Hne. now rewrite Hne.
  - reflexivity.
Qed.

(** C2. [detectTargetYear] returns the current year when no date parses,
    and otherwise a year that occurs among the parsed dates and whose count
    of entries no other year exceeds; entries whose date does not parse
    count for no year.  [filterByYear] at that year returns the entries
    whose date parses into it, as a subsequence of the input, one for each
    parsed date counted. *)
Theorem detectTargetYear_filterByYear (entries : list DiaryEntry) :
  let year := detectTargetYear env entries in
  let filtered := filterByYear env entries year in
  (parsed_years env entries = [] -> year = currentYear env)
  /\ (parsed_years env entries <> [] ->
        In year (parsed_years env entries)
        /\ forall y, (count_year env entries y <= count_year env entries year)%nat)
  /\ subsequence filtered entries
  /\ (forall e, In e filtered <-> In e entries /\ year_of env e = Some year)
  /\ length filtered = count_year env entries year.
Proof.
  cbv zeta. split; [|split; [|split; [|split]]].
  - intros Hnone. unfold detectTargetYear.
    rewrite yearCounts_tally, Hnone. reflexivity.
  - intros Hsome. unfold detectTargetYear.
    set (yc := yearCounts env entries).
    set (sorted := Array_sort by_count_desc (Object_entries yc)).
    assert (Hperm : Permutation sorted yc).
    { unfold sorted. rewrite Array_sort_perm. apply Object_entries_perm. }
    destruct (parsed_years env entries) as [|y0 ys] eqn:Ey; [contradiction|].
    assert (H0 : In (y0, count_year env entries y0) yc).
    { apply yearCounts_In. split; [reflexivity|].
      unfold count_year. rewrite Ey. cbn.
      destruct (Z.eq_dec y0 y0); [lia|contradiction]. }
    assert (Hlen : length (Object_entries yc) <> 0%nat).
    { rewrite (Permutation_length (Object_entries_perm yc)).
      destruct yc; [destruct H0|discriminate]. }
    apply Nat.eqb_neq in Hlen. rewrite Hlen.
    fold sorted.
    assert (Hhd : In (hd (0, 0%nat) sorted) yc).
    { apply (Permutation_in _ Hperm).
      destruct sorted as [|p sorted'] eqn:Es; [|now left].
      apply Permutation_nil in Hperm.
      rewrite Hperm in H0. destruct H0. }
    destruct (hd (0, 0%nat) sorted) as [y c] eqn:Eh. cbn [fst].
    apply yearCounts_In in Hhd as [Hc Hpos].
    split.
    + rewrite <- Ey. apply (count_occ_In Z.eq_dec).
      unfold count_year in Hc. lia.
    + intros y'. destruct (count_year env entries y') as [|n] eqn:En; [lia|].
      assert (Hin : In (y', S n) (Object_entries yc)).
      { apply (Permutation_in _ (Permutation_sym (Object_entries_perm yc))).
        apply yearCounts_In. split; [now rewrite En|lia]. }
      apply (sorted_head_max (0, 0%nat)) in Hin.
      fold sorted in Hin. rewrite Eh in Hin. cbn [snd] in Hin. lia.
  - apply filter_subsequence.
  - intros e. unfold filterByYear. rewrite filter_In. unfold year_of.
    destruct (Date_parse env (Date e)) as [t|]; cbn [option_map].
    + rewrite Z.eqb_eq. split; intros [H1 H2]; (split; [exact H1|congruence]).
    + split; intros [H1 H2]; discriminate.
  - apply filterByYear_count.
Qed.

End Years.

Lemma detectTargetYear_filterByYear_witness :
  detectTargetYear utc [watched "undated"] = currentYear utc
  /\ In (detectTargetYear utc two_years) (parsed_years utc two_years)
  /\ (forall y, (count_year utc two_years y
                 <= count_year utc two_years (detectTargetYear utc two_years))%nat).
Proof.
  split.
  - apply (proj1 (detectTargetYear_filterByYear utc [watched "undated"])).
    reflexivity.
  - apply (proj1 (proj2 (detectTargetYear_filterByYear utc two_years))).
    discriminate.
Defined.

(** The scenario of the specification: counts 7 and 9. *)
Example detect_seven_and_nine :
  count_year utc two_years 2023 = 7%nat
  /\ count_year utc two_years 2024 = 9%nat
  /\ detectTargetYear utc two_years = 2024
  /\ filterByYear utc two_years 2024 = the_2024_entries.
Proof. vm_compute. repeat split. Qed.

(** ** Viewing distribution *)

Section Distribution.
Variable env : DateEnv.

Lemma count_entries_keys entries :
  map fst (fst (count_entries env entries)) = map Z.of_nat (seq 1 12)
  /\ map fst (snd (count_entries env entries)) = dayNames.
Proof.
  unfold count_entries.
  assert (G : forall (acc : object Z nat * object string nat),
            let r := fold_left
                (fun '(monthly, weekly) entry =>
                   match Date_parse env (Date entry) with
                   | Some t =>
                       (incr Z.eqb monthly (Z.of_nat (getMonth env t) + 1),
                        incr String.eqb weekly
                          (nth (getDay env t) dayNames "undefined"%string))
                   | None => (monthly, weekly)
                   end) entries acc in
            map fst (fst r) = map fst (fst acc)
            /\ map fst (snd r) = map fst (snd acc)).
  { induction entries as [|e entries IH]; intros [m w]; cbn [fold_left].
    - now split.
    - destruct (Date_parse env (Date e)) as [t|].
      + destruct (IH (incr Z.eqb m (Z.of_nat (getMonth env t) + 1),
                      incr String.eqb w
                        (nth (getDay env t) dayNames "undefined"%string)))
          as [Hm Hw].
        cbn [fst snd] in *. now rewrite Hm, Hw, !incr_keys.
      + apply IH. }
  apply (G (monthly_init, weekly_init)).
Qed.

Lemma count_entries_undated entries :
  Forall (fun e => Date_parse env (Date e) = None) entries ->
  count_entries env entries = (monthly_init, weekly_init).
Proof.
  unfold count_entries. generalize (monthly_init, weekly_init).
  induction entries as [|e entries IH]; intros [m w] H; [reflexivity|].
  inversion H as [|? ? He Hrest]; subst.
  cbn [fold_left]. rewrite He. now apply IH.
Qed.

Lemma month_name_defined k :
  In k (map Z.of_nat (seq 1 12)) ->
  nth_error monthNames (Z.to_nat (k - 1)) <> None.
Proof.
  cbn. intros H.
  repeat (destruct H as [<-|H]; [discriminate|]). destruct H.
Qed.

(** The two objects as counts along the parsed dates. *)
Lemma count_entries_folds entries :
  count_entries env entries
  = (fold_left (incr Z.eqb)
       (map (fun j => Z.of_nat j + 1) (parsed_months env entries)) monthly_init,
     fold_left (incr String.eqb)
       (map (fun j => nth j dayNames "undefined"%string) (parsed_days env entries))
       weekly_init).
Proof.
  unfold count_entries, parsed_months, parsed_days.
  generalize monthly_init, weekly_init.
  induction entries as [|e entries IH]; intros m w; [reflexivity|].
  cbn [fold_left flat_map].
  destruct (Date_parse env (Date e)) as [t|]; cbn [app map fold_left];
    apply IH.
Qed.

(** Each month's property holds the number of entries parsed into it. *)
Lemma monthly_counts entries j :
  (j < 12)%nat ->
  get Z.eqb (monthly (calculateDistribution env entries)) (Z.of_nat j + 1)
  = Some (month_count env entries j).
Proof.
  intros Hj. unfold calculateDistribution. rewrite count_entries_folds.
  cbn [monthly]. rewrite (get_incr_all Z.eqb Z.eqb_spec Z.eq_dec).
  unfold month_count.
  rewrite (count_occ_map (fun j => Z.of_nat j + 1) Nat.eq_dec Z.eq_dec)
    by (intros a b; lia).
  do 12 (destruct j as [|j]; [reflexivity|]). lia.
Qed.

(** The busiest month is one into which the most entries are parsed. *)
Lemma busiestMonth_has_most_entries entries :
  exists j,
    (j < 12)%nat
    /\ busiestMonth (calculateDistribution env entries) = nth_error monthNames j
    /\ forall j', (month_count env entries j' <= month_count env entries j)%nat.
Proof.
  pose proof (monthly_counts entries) as C.
  pose proof (count_entries_keys entries) as [Km _].
  unfold calculateDistribution in *.
  destruct (count_entries env entries) as [m w].
  cbn [monthly busiestMonth fst] in *.
  pose proof (Permutation_trans
                (Array_sort_perm by_count_desc (Object_entries m))
                (Object_entries_perm m)) as P.
  pose proof (sorted_head_max (0, 0%nat) (Object_entries m)) as M.
  destruct (Array_sort by_count_desc (Object_entries m)) as [|[k c] sorted].
  { apply Permutation_nil in P. subst m. discriminate Km. }
  cbn [hd_error hd fst snd] in *.
  assert (Hin : In (k, c) m) by (apply (Permutation_in _ P); now left).
  assert (Hk : In k (map Z.of_nat (seq 1 12)))
    by (rewrite <- Km; now apply (in_map fst) in Hin).
  apply in_map_iff in Hk as (i & <- & Hi). apply in_seq in Hi.
  exists (i - 1)%nat. split; [lia|]. split.
  { f_equal. lia. }
  assert (Hc : c = month_count env entries (i - 1)).
  { apply (In_get Z.eqb Z.eqb_spec) in Hin.
    - pose proof (C (i - 1)%nat ltac:(lia)) as Ci.
      replace (Z.of_nat (i - 1) + 1) with (Z.of_nat i) in Ci by lia.
      congruence.
    - rewrite Km. apply NoDup_map_inv with (f := Z.to_nat).
      rewrite map_map. erewrite map_ext; [rewrite map_id; apply seq_NoDup|].
      intros a. apply Nat2Z.id. }
  intros j'. destruct (Nat.lt_ge_cases j' 12) as [Hlt|Hge].
  - rewrite <- Hc.
    apply (M (Z.of_nat j' + 1, month_count env entries j')).
    apply (Permutation_in _ (Permutation_sym (Object_entries_perm m))).
    apply (get_In Z.eqb Z.eqb_spec). now apply C.
  - (* no entry is parsed into a month that does not exist *)
    assert (Z0 : month_count env entries j' = 0%nat).
    { unfold month_count. apply count_occ_not_In. unfold parsed_months.
      intros Hin'. apply in_flat_map in Hin' as (e & _ & He).
      destruct (Date_parse env (Date e)) as [t|]; [|destruct He].
      destruct He as [<-|[]]. pose proof (getMonth_lt env t). lia. }
    lia.
Qed.

Lemma zero_counts_unique {K : Type} (l l0 : list (K * nat)) :
  map fst l = map fst l0 ->
  Forall (fun p => snd p = 0%nat) l ->
  Forall (fun p => snd p = 0%nat) l0 ->
  l = l0.
Proof.
  revert l0. induction l as [|[k c] l IH]; intros [|[k0 c0] l0] E Z Z0;
    try discriminate; [reflexivity|].
  inversion Z; inversion Z0; subst. cbn in *. injection E as -> E.
  f_equal; [congruence|]. now apply IH.
Qed.

(** C10. Whatever the entries, [calculateDistribution] returns a busiest
    month and a busiest day that are not null: the month object always has
    the twelve keys 1..12 and the week object the seven day names.  When
    all the counts are 0, and so when no entry's date parses, the two
    fields are Jan and Sunday. *)
Theorem calculateDistribution_busiest_defined (entries : list DiaryEntry) :
  let d := calculateDistribution env entries in
  map fst (monthly d) = map Z.of_nat (seq 1 12)
  /\ map fst (weekly d) = dayNames
  /\ busiestMonth d <> None
  /\ busiestDay d <> None
  /\ (Forall (fun p => snd p = 0%nat) (monthly d) ->
      Forall (fun p => snd p = 0%nat) (weekly d) ->
      busiestMonth d = Some "Jan"%string /\ busiestDay d = Some "Sunday"%string)
  /\ (Forall (fun e => Date_parse env (Date e) = None) entries ->
        busiestMonth d = Some "Jan"%string
        /\ busiestDay d = Some "Sunday"%string).
Proof.
  cbv zeta. unfold calculateDistribution.
  pose proof (count_entries_keys entries) as [Km Kw].
  pose proof (count_entries_undated entries) as U.
  destruct (count_entries env entries) as [m w]. cbn [fst snd] in Km, Kw.
  cbn [monthly weekly busiestMonth busiestDay].
  split; [exact Km|]. split; [exact Kw|]. split; [|split; [|split]].
  - pose proof (Permutation_trans
                  (Array_sort_perm by_count_desc (Object_entries m))
                  (Object_entries_perm m)) as P.
    destruct (Array_sort by_count_desc (Object_entries m)) as [|p sorted].
    + apply Permutation_nil in P. subst m. discriminate Km.
    + cbn [hd_error]. apply month_name_defined. rewrite <- Km.
      apply in_map, (Permutation_in _ P). now left.
  - pose proof (Array_sort_perm by_count_desc w) as P.
    destruct (Array_sort by_count_desc w) as [|p sorted].
    + apply Permutation_nil in P. subst w. discriminate Kw.
    + discriminate.
  - intros Zm Zw.
    rewrite (zero_counts_unique m monthly_init Km Zm)
      by (repeat constructor).
    rewrite (zero_counts_unique w weekly_init Kw Zw)
      by (repeat constructor).
    now split.
  - intros H. specialize (U H). injection U as -> ->. now split.
Qed.

End Distribution.

Lemma calculateDistribution_busiest_defined_witness :
  (busiestMonth (calculateDistribution utc [watched "undated"; watched ""])
     = Some "Jan"%string
   /\ busiestDay (calculateDistribution utc [watched "undated"; watched ""])
      = Some "Sunday"%string)
  /\ (busiestMonth (calculateDistribution utc [])  = Some "Jan"%string
      /\ busiestDay (calculateDistribution utc []) = Some "Sunday"%string).
Proof.
  split.
  - apply (proj2 (proj2 (proj2 (proj2 (proj2
             (calculateDistribution_busiest_defined utc
                [watched "undated"; watched ""])))))).
    repeat constructor.
  - apply (proj1 (proj2 (proj2 (proj2 (proj2
             (calculateDistribution_busiest_defined utc [])))))).
    + repeat constructor.
    + repeat constructor.
Defined.

(** ** Parsing the rows *)

(** A rating column with text in it gives NaN, not null. *)
Lemma parseCSV_text_rating_is_NaN :
  raw_Rating row_with_text_rating = Some "n/a"%string
  /\ no_number "n/a"
  /\ Rating (parseCSV_entry row_with_text_rating) = Some nan
  /\ Rating (parseCSV_entry row_with_text_rating) <> None.
Proof. repeat split. discriminate. Qed.

Section Rows.
Variable Papa_parse : string -> list RawRecord.

Lemma no_number_parseFloat s : no_number s -> parseFloat s = nan.
Proof.
  unfold no_number, parseFloat. destruct (read_sign (trimStart s)) as [neg t].
  cbn [snd]. intros [-> ->]. reflexivity.
Qed.

(** C7, amended. [parseCSV] turns the rows into entries one for one.  A row
    whose rating column is empty or absent gets the rating null; a row
    whose rating column is not empty gets the number [parseFloat] reads
    from it, which is NaN (and not null) when no number starts the text,
    and [calculateStats] then treats the entry as unrated; a row whose year
    column is empty or absent gets the year 0. *)
Theorem parseCSV_rating_and_year (csvContent : string) (i : nat) (row : RawRecord) :
  nth_error (Papa_parse csvContent) i = Some row ->
  exists entry,
    nth_error (parseCSV Papa_parse csvContent) i = Some entry
    /\ (raw_Rating row = Some ""%string \/ raw_Rating row = None ->
          Rating entry = None)
    /\ (forall s, raw_Rating row = Some s -> s <> ""%string ->
          Rating entry = Some (parseFloat s)
          /\ (no_number s -> Rating entry = Some nan /\ is_rated entry = false))
    /\ (raw_Year row = Some ""%string \/ raw_Year row = None ->
          Year entry = 0%float).
Proof.
  intros Hrow. exists (parseCSV_entry row). split; [|split; [|split]].
  - unfold parseCSV. now rewrite nth_error_map, Hrow.
  - intros [E|E]; cbn; now rewrite E.
  - intros s E Hs. cbn. rewrite E. cbn.
    destruct (String.eqb_spec s ""); [contradiction|]. cbn.
    split; [reflexivity|]. intros Hn.
    unfold is_rated. cbn. rewrite E. cbn.
    destruct (String.eqb_spec s ""); [contradiction|]. cbn.
    now rewrite (no_number_parseFloat s Hn).
  - intros [E|E]; cbn; now rewrite E.
Qed.

End Rows.

Lemma parseCSV_rating_and_year_witness :
  exists entry,
    nth_error (parseCSV (fun _ => [row_with_blanks; row_with_text_rating])
                 "Date,Name,Year,Rating") 1
      = Some entry
    /\ Rating entry = Some nan.
Proof.
  destruct (parseCSV_rating_and_year
              (fun _ => [row_with_blanks; row_with_text_rating])
              "Date,Name,Year,Rating" 1 row_with_text_rating eq_refl)
    as (entry & Hnth & _ & Hrating & _).
  exists entry. split; [exact Hnth|].
  apply (Hrating "n/a"%string eq_refl); [discriminate|].
  split; reflexivity.
Defined.

(** The white space before a number may be of more than one byte: a
    no-break space before 4.5 is skipped. *)
Example parseFloat_after_no_break_space :
  no_number rating_after_no_break_space -> False.
Proof. intros [_ H]. vm_compute in H. discriminate H. Qed.

Example parseFloat_no_break_space_value :
  parseFloat rating_after_no_break_space = 4.5%float.
Proof. vm_compute. reflexivity. Qed.

(** ** Doubles

    Facts about binary64 arithmetic, from the [SpecFloat] specification of
    the primitive operations: doubles that count halves add exactly, and
    the operations behind a percentage never produce NaN. *)

Lemma digits_pow2 q n :
  Zpos (digits2_pos (pow2 q n)) = Zpos (digits2_pos q) + Z.of_nat n.
Proof.
  induction n as [|n IH]; [cbn; lia|].
  cbn [pow2 digits2_pos]. rewrite Pos2Z.inj_succ, IH. lia.
Qed.

Lemma pow2_add a b n : (pow2 a n + pow2 b n)%positive = pow2 (a + b) n.
Proof.
  induction n as [|n IH]; [reflexivity|].
  cbn [pow2]. cbn. now rewrite IH.
Qed.

Lemma pow2_pow2 q n m : pow2 (pow2 q n) m = pow2 q (m + n).
Proof. induction m as [|m IH]; cbn; [reflexivity|now rewrite IH]. Qed.

Lemma Pos_iter_xO q p : Pos.iter xO q p = pow2 q (Pos.to_nat p).
Proof.
  rewrite Pos2Nat.inj_iter.
  induction (Pos.to_nat p) as [|n IH]; cbn; [reflexivity|now rewrite IH].
Qed.

Lemma iter_pos_nat {A} (f : A -> A) p : forall x,
  iter_pos f p x = Nat.iter (Pos.to_nat p) f x.
Proof.
  induction p as [p IH|p IH|]; intros x; cbn [iter_pos].
  - rewrite !IH, Pos2Nat.inj_xI, <- Nat.iter_add, <- Nat.iter_succ_r.
    f_equal. lia.
  - rewrite !IH, Pos2Nat.inj_xO, <- Nat.iter_add. f_equal. lia.
  - reflexivity.
Qed.

Lemma shr_pow2 q n : forall t,
  Nat.iter n shr_1 (exact_record (pow2 q (n + t))) = exact_record (pow2 q t).
Proof.
  induction n as [|n IH]; intros t; [reflexivity|].
  rewrite Nat.iter_succ_r. cbn [Nat.add pow2 shr_1 exact_record orb]. apply IH.
Qed.

Lemma digits_size p : digits2_pos p = Pos.size p.
Proof. induction p; cbn; congruence. Qed.

Lemma digits_log2 p : Zpos (digits2_pos p) = Z.log2 (Zpos p) + 1.
Proof.
  destruct p; cbn [digits2_pos Z.log2]; rewrite ?Pos2Z.inj_succ, ?digits_size; lia.
Qed.

Lemma digits_le_53 p : Zpos p < 2 ^ 53 -> Zpos (digits2_pos p) <= 53.
Proof.
  intros H. rewrite digits_log2.
  apply Z.log2_lt_pow2 in H; lia.
Qed.

Lemma digits_mono a b :
  (a <= b)%positive -> Zpos (digits2_pos a) <= Zpos (digits2_pos b).
Proof.
  intros H. rewrite !digits_log2.
  pose proof (Z.log2_le_mono (Zpos a) (Zpos b)). lia.
Qed.

(** Rounding a mantissa [q * 2^n] that has at least 53 digits, of which
    the last ones are zeros, leaves [q] with exactly 53 digits. *)
Lemma binary_round_exact (s : bool) (q : positive) (n : nat) (e : Z) :
  let d := Zpos (digits2_pos q) in
  d <= 53 ->
  53 - d <= Z.of_nat n ->
  -1074 <= e + Z.of_nat n - (53 - d) <= 971 ->
  binary_round prec emax s (pow2 q n) e
  = S754_finite s (pow2 q (Z.to_nat (53 - d))) (e + Z.of_nat n - (53 - d)).
Proof.
  intros d Hd Hn He.
  unfold binary_round.
  pose proof (digits_pow2 q n) as Dn. fold d in Dn.
  assert (F : SpecFloat.fexp prec emax (Zpos (digits2_pos (pow2 q n)) + e)
              = e + Z.of_nat n - (53 - d)).
  { rewrite Dn. unfold SpecFloat.fexp, SpecFloat.emin, prec, emax. lia. }
  rewrite F.
  unfold shl_align.
  replace (e + Z.of_nat n - (53 - d) - e) with (Z.of_nat n - (53 - d)) by lia.
  destruct (Z.of_nat n - (53 - d)) as [|k|k] eqn:Es; try lia.
  - (* nothing to shift *)
    unfold binary_round_aux, shr_fexp. cbn [Zdigits2 shr_record_of_loc].
    rewrite F.
    replace (e + Z.of_nat n - (53 - d) - e) with 0 by lia.
    cbn [shr shr_m loc_of_shr_record round_nearest_even Zdigits2 shr_record_of_loc].
    rewrite F.
    replace (e + Z.of_nat n - (53 - d) - e) with 0 by lia.
    cbn [shr shr_m].
    replace (e + Z.of_nat n - (53 - d)) with e by lia.
    replace (Z.to_nat (53 - d)) with n by lia.
    destruct (Z.leb_spec e (emax - prec)); [reflexivity|unfold emax, prec in *; lia].
  - unfold binary_round_aux, shr_fexp. cbn [Zdigits2 shr_record_of_loc].
    rewrite F.
    replace (e + Z.of_nat n - (53 - d) - e) with (Zpos k) by lia.
    cbn [shr]. rewrite iter_pos_nat.
    change {| shr_m := Z.pos (pow2 q n); shr_r := false; shr_s := false |}
      with (exact_record (pow2 q n)).
    assert (Hshr : Nat.iter (Pos.to_nat k) shr_1 (exact_record (pow2 q n))
                   = exact_record (pow2 q (Z.to_nat (53 - d)))).
    { replace n with (Pos.to_nat k + Z.to_nat (53 - d))%nat at 1 by lia.
      apply shr_pow2. }
    rewrite !Hshr.
    cbn [exact_record shr_m loc_of_shr_record round_nearest_even Zdigits2
           shr_record_of_loc].
    assert (F' : SpecFloat.fexp prec emax
                   (Zpos (digits2_pos (pow2 q (Z.to_nat (53 - d)))) + (e + Zpos k))
                 = e + Zpos k).
    { rewrite digits_pow2. fold d. unfold SpecFloat.fexp, SpecFloat.emin, prec, emax. lia. }
    rewrite F'. rewrite Z.sub_diag. cbn [shr shr_m].
    replace (e + Z.of_nat n - (53 - d)) with (e + Zpos k) by lia.
    destruct (Z.leb_spec (e + Zpos k) (emax - prec)); [reflexivity|unfold emax, prec in *; lia].
Qed.

Lemma shl_align_pow2 q n ex ez :
  ez <= ex ->
  fst (shl_align (pow2 q n) ex ez) = pow2 q (Z.to_nat (ex - ez) + n).
Proof.
  intros H. unfold shl_align.
  destruct (ez - ex) as [|s|s] eqn:E; try lia.
  - replace (ex - ez) with 0 by lia. reflexivity.
  - cbn [fst]. rewrite Pos_iter_xO, pow2_pow2. f_equal. lia.
Qed.

Lemma valid_half_units k :
  Zpos k < 2 ^ 53 -> valid_binary (half_units k) = true.
Proof.
  intros H. apply digits_le_53 in H.
  unfold half_units. cbn [SpecFloat.valid_binary].
  unfold bounded, canonical_mantissa. rewrite digits_pow2.
  unfold SpecFloat.fexp, SpecFloat.emin, prec, emax.
  apply andb_true_intro. split; [apply Z.eqb_eq|apply Z.leb_le]; lia.
Qed.

Lemma SFadd_half_units a b :
  Zpos a + Zpos b < 2 ^ 53 ->
  SF64add (half_units a) (half_units b) = half_units (a + b).
Proof.
  intros H.
  assert (Hc : Zpos (digits2_pos (a + b)) <= 53) by (apply digits_le_53; lia).
  assert (Ha : Zpos (digits2_pos a) <= Zpos (digits2_pos (a + b)))
    by (apply digits_mono; lia).
  assert (Hb : Zpos (digits2_pos b) <= Zpos (digits2_pos (a + b)))
    by (apply digits_mono; lia).
  unfold SF64add, SFadd, half_units.
  set (da := Zpos (digits2_pos a)) in *.
  set (db := Zpos (digits2_pos b)) in *.
  set (dc := Zpos (digits2_pos (a + b))) in *.
  assert (0 < da) by (unfold da; lia). assert (0 < db) by (unfold db; lia).
  cbv zeta. rewrite !shl_align_pow2 by lia.
  set (N := Z.to_nat (53 - Z.min da db)).
  replace (Z.to_nat (da - 54 - Z.min (da - 54) (db - 54)) + Z.to_nat (53 - da))%nat
    with N by (unfold N; lia).
  replace (Z.to_nat (db - 54 - Z.min (da - 54) (db - 54)) + Z.to_nat (53 - db))%nat
    with N by (unfold N; lia).
  cbn [cond_Zopp Z.add binary_normalize]. rewrite pow2_add.
  rewrite binary_round_exact; fold dc; unfold N; try lia.
  f_equal. lia.
Qed.

Lemma Prim2SF_half k :
  0 <= k < 2 ^ 53 ->
  Prim2SF (half k) = match k with Zpos p => half_units p | _ => S754_zero false end.
Proof.
  intros H. destruct k as [|p|p]; [reflexivity| |lia].
  cbn [half]. apply Prim2SF_SF2Prim, valid_half_units. lia.
Qed.

(** Doubles that count halves add without rounding below 2^52. *)
Lemma add_half a b :
  0 <= a -> 0 <= b -> a + b < 2 ^ 53 ->
  (half a + half b)%float = half (a + b).
Proof.
  intros Ha Hb H. apply Prim2SF_inj.
  rewrite add_spec, !Prim2SF_half by lia.
  destruct a as [|p|p]; [|destruct b as [|q|q]|]; try lia.
  - destruct b; reflexivity.
  - reflexivity.
  - cbn [Z.add]. apply SFadd_half_units. lia.
Qed.

(** A mantissa shorter than 53 digits is first shifted left. *)
Lemma binary_round_short (s : bool) (p : positive) (e : Z) :
  let d := Zpos (digits2_pos p) in
  d <= 53 ->
  -1074 <= e - (53 - d) <= 971 ->
  binary_round prec emax s p e
  = S754_finite s (pow2 p (Z.to_nat (53 - d))) (e - (53 - d)).
Proof.
  intros d Hd He.
  transitivity (binary_round prec emax s (pow2 p (Z.to_nat (53 - d)))
                  (e - (53 - d))).
  - unfold binary_round.
    rewrite digits_pow2. fold d.
    assert (F1 : SpecFloat.fexp prec emax (d + e) = e - (53 - d))
      by (unfold SpecFloat.fexp, SpecFloat.emin, prec, emax; lia).
    assert (F2 : SpecFloat.fexp prec emax
                   (d + Z.of_nat (Z.to_nat (53 - d)) + (e - (53 - d)))
                 = e - (53 - d))
      by (unfold SpecFloat.fexp, SpecFloat.emin, prec, emax; lia).
    rewrite F1, F2. unfold shl_align. rewrite Z.sub_diag.
    destruct (e - (53 - d) - e) as [|k|k] eqn:Ek; try lia.
    + replace (Z.to_nat (53 - d)) with 0%nat by lia. cbn [pow2].
      now replace (e - (53 - d)) with e by lia.
    + rewrite Pos_iter_xO.
      now replace (Pos.to_nat k) with (Z.to_nat (53 - d)) by lia.
  - rewrite binary_round_exact; fold d; try lia. f_equal. lia.
Qed.

Lemma is_nan_Prim2SF x : Prim2SF x <> S754_nan -> is_nan x = false.
Proof. unfold Prim2SF. destruct (is_nan x); congruence. Qed.

Lemma Prim2SF_is_nan x : is_nan x = false -> Prim2SF x <> S754_nan.
Proof.
  intros H E. pose proof (FloatAxioms.eqb_spec x x) as Q.
  unfold is_nan in H. apply negb_false_iff in H.
  rewrite H, E in Q. discriminate Q.
Qed.

Lemma shr_1_nonneg r : 0 <= shr_m r -> 0 <= shr_m (shr_1 r).
Proof.
  destruct r as [m r s]. cbn [shr_m shr_1].
  destruct m as [|[p|p|]|p]; cbn; lia.
Qed.

Lemma shr_nonneg r e n : 0 <= shr_m r -> 0 <= shr_m (fst (shr r e n)).
Proof.
  intros H. unfold shr. destruct n as [|p|p]; cbn [fst]; try exact H.
  rewrite iter_pos_nat.
  induction (Pos.to_nat p) as [|k IH]; [exact H|].
  cbn [Nat.iter nat_rect]. now apply shr_1_nonneg.
Qed.

Lemma binary_round_aux_not_nan s m e l :
  0 <= m -> binary_round_aux prec emax s m e l <> S754_nan.
Proof.
  intros H. unfold binary_round_aux, shr_fexp.
  set (n1 := SpecFloat.fexp prec emax (Zdigits2 m + e) - e).
  pose proof (shr_nonneg (shr_record_of_loc m l) e n1) as H1.
  destruct (shr (shr_record_of_loc m l) e n1) as [r1 e1].
  cbn [fst] in H1.
  assert (H2 : 0 <= round_nearest_even (shr_m r1) (loc_of_shr_record r1)).
  { assert (0 <= shr_m r1) by (apply H1; destruct l as [|[ | | ]]; exact H).
    unfold round_nearest_even.
    destruct (loc_of_shr_record r1) as [|[ | | ]]; try lia.
    destruct (Z.even (shr_m r1)); lia. }
  set (m2 := round_nearest_even (shr_m r1) (loc_of_shr_record r1)) in *.
  set (n2 := SpecFloat.fexp prec emax (Zdigits2 m2 + e1) - e1).
  pose proof (shr_nonneg (shr_record_of_loc m2 loc_Exact) e1 n2 H2) as H3.
  destruct (shr (shr_record_of_loc m2 loc_Exact) e1 n2) as [r2 e2].
  cbn [fst] in H3.
  destruct (shr_m r2) as [|p|p]; [discriminate| |lia].
  destruct (e2 <=? emax - prec); discriminate.
Qed.

Lemma SFdiv_not_nan x sy my ey :
  x <> S754_nan ->
  SF64div x (S754_finite sy my ey) <> S754_nan.
Proof.
  intros Hn. unfold SF64div, SFdiv.
  destruct x as [s|s| |sx mx ex]; try discriminate; try congruence.
  unfold SFdiv_core_binary.
  set (m' := match _ - _ - _ with Z0 => _ | Zpos _ => _ | Zneg _ => _ end).
  assert (Hm : 0 <= m').
  { unfold m'. destruct (_ - _ - _) as [|p|p]; try lia.
    apply Z.shiftl_nonneg. lia. }
  pose proof (Z.div_pos m' (Zpos my) Hm ltac:(lia)) as Hq.
  unfold Z.div in Hq. destruct (Z.div_eucl m' (Zpos my)) as [q r].
  now apply binary_round_aux_not_nan.
Qed.

Lemma SFmul_not_nan x sy my ey :
  x <> S754_nan -> SF64mul x (S754_finite sy my ey) <> S754_nan.
Proof.
  intros Hn. unfold SF64mul, SFmul.
  destruct x as [s|s| |sx mx ex]; try discriminate; try congruence.
  apply binary_round_aux_not_nan. lia.
Qed.

Lemma binary_normalize_small z :
  z <> 0 -> Z.abs z < 2 ^ 53 ->
  exists s m e,
    binary_normalize prec emax z 0 false = S754_finite s m e
    /\ valid_binary (S754_finite s m e) = true.
Proof.
  intros Hz Hb.
  assert (G : forall s p, Zpos p < 2 ^ 53 ->
            exists m e, binary_round prec emax s p 0 = S754_finite s m e
                        /\ valid_binary (S754_finite s m e) = true).
  { intros s p Hp. pose proof (digits_le_53 p Hp) as Hd.
    rewrite binary_round_short by lia.
    eexists _, _. split; [reflexivity|].
    cbn [SpecFloat.valid_binary]. unfold bounded, canonical_mantissa.
    rewrite digits_pow2.
    unfold SpecFloat.fexp, SpecFloat.emin, prec, emax.
    apply andb_true_intro. split; [apply Z.eqb_eq|apply Z.leb_le]; lia. }
  destruct z as [|p|p]; [contradiction| |]; cbn [binary_normalize].
  - destruct (G false p) as (m & e & E & V); [lia|].
    exists false, m, e. split; assumption.
  - destruct (G true p) as (m & e & E & V); [lia|].
    exists true, m, e. split; assumption.
Qed.

Lemma Prim2SF_of_Z z :
  Z.abs z < 2 ^ 53 ->
  Prim2SF (of_Z z) = S754_zero false \/
  exists s m e, Prim2SF (of_Z z) = S754_finite s m e.
Proof.
  intros Hb. unfold of_Z. destruct (Z.eq_dec z 0) as [->|Hz].
  - left. reflexivity.
  - right. destruct (binary_normalize_small z Hz Hb) as (s & m & e & E & V).
    rewrite E, Prim2SF_SF2Prim by exact V. exists s, m, e. reflexivity.
Qed.

Lemma Prim2SF_of_Z_pos z :
  0 < z < 2 ^ 53 -> exists s m e, Prim2SF (of_Z z) = S754_finite s m e.
Proof.
  intros Hb. destruct (Prim2SF_of_Z z) as [E|E]; [lia| |exact E].
  exfalso. unfold of_Z in E.
  destruct (binary_normalize_small z) as (s & m & e & E' & V); [lia|lia|].
  rewrite E', Prim2SF_SF2Prim in E by exact V. discriminate E.
Qed.

Lemma mantissa_lt_2_53 y s m e :
  Prim2SF y = S754_finite s m e -> Zpos m < 2 ^ 53.
Proof.
  intros E. pose proof (Prim2SF_valid y) as V. rewrite E in V.
  cbn [SpecFloat.valid_binary] in V. unfold bounded, canonical_mantissa in V.
  apply andb_prop in V as [V _]. apply Z.eqb_eq in V.
  unfold SpecFloat.fexp, SpecFloat.emin, prec, emax in V.
  rewrite digits_log2 in V.
  apply Z.log2_lt_pow2; lia.
Qed.

Lemma round_half_up_nearest (n e : Z) :
  e < 0 ->
  (2 * round_half_up n e - 1) * 2 ^ (- e) <= 2 * n
  /\ 2 * n < (2 * round_half_up n e + 1) * 2 ^ (- e).
Proof.
  intros He. unfold round_half_up.
  replace (1 - e) with (Z.succ (- e)) by lia.
  rewrite Z.pow_succ_r by lia.
  assert (Hp : 0 < 2 ^ (- e)) by (apply Z.pow_pos_nonneg; lia).
  set (p := 2 ^ (- e)) in *.
  pose proof (Z.div_mod (2 * n + p) (2 * p) ltac:(lia)) as D.
  pose proof (Z.mod_pos_bound (2 * n + p) (2 * p) ltac:(lia)) as B.
  set (z := (2 * n + p) / (2 * p)) in *.
  split; nia.
Qed.

Lemma round_half_up_small n e :
  e < 0 -> Z.abs n < 2 ^ 53 -> Z.abs (round_half_up n e) < 2 ^ 53.
Proof.
  intros He Hn. destruct (round_half_up_nearest n e He) as [L U].
  assert (Hp : 2 ^ 1 <= 2 ^ (- e)) by (apply Z.pow_le_mono_r; lia).
  change (2 ^ 1) with 2 in Hp.
  set (p := 2 ^ (- e)) in *. set (r := round_half_up n e) in *.
  change (2 ^ 53) with 9007199254740992 in *.
  nia.
Qed.

Lemma Math_round_not_nan y : is_nan y = false -> is_nan (Math_round y) = false.
Proof.
  intros H. unfold Math_round.
  destruct (Prim2SF y) as [s|s| |s m e] eqn:E; try exact H.
  destruct (0 <=? e) eqn:Ee; [exact H|]. apply Z.leb_gt in Ee.
  cbv zeta.
  destruct (round_half_up (cond_Zopp s (Z.pos m)) e =? 0) eqn:Er.
  - now destruct s.
  - apply is_nan_Prim2SF.
    pose proof (mantissa_lt_2_53 y s m e E) as Hm.
    destruct (Prim2SF_of_Z (round_half_up (cond_Zopp s (Z.pos m)) e)) as [Z|(s' & m' & e' & Z)].
    + apply round_half_up_small; [exact Ee|]. destruct s; cbn; lia.
    + rewrite Z. discriminate.
    + rewrite Z. discriminate.
Qed.

Lemma percent_not_nan (r t : Z) :
  0 <= r < 2 ^ 53 -> 0 < t < 2 ^ 53 ->
  is_nan (Math_round (of_Z r / of_Z t * 100)%float) = false.
Proof.
  intros Hr Ht. apply Math_round_not_nan, is_nan_Prim2SF.
  rewrite mul_spec, div_spec.
  destruct (Prim2SF_of_Z_pos t Ht) as (s & m & e & ->).
  change (Prim2SF 100) with (S754_finite false 7036874417766400 (-46)).
  apply SFmul_not_nan, SFdiv_not_nan.
  destruct (Prim2SF_of_Z r) as [Z|(s' & m' & e' & Z)]; [lia| |];
    rewrite Z; discriminate.
Qed.

(** ** Divisions by [totalFilms] *)

(** C5, amended. [calculateStats] guards its division by [totalFilms]:
    [rewatchPct] is 0 on the empty list and otherwise
    [Math.round((rewatches / totalFilms) * 100)] in double arithmetic, the
    quotient being rounded to a double before it is multiplied by 100; on
    a list shorter than 2^32 it is never NaN. *)
Theorem rewatchPct_guarded (entries : list DiaryEntry) :
  let s := calculateStats entries in
  totalFilms s = of_nat (length entries)
  /\ rewatches s = of_nat (length (filter is_rewatch entries))
  /\ rewatchPct s =
       match entries with
       | [] => 0%float
       | _ => Math_round (rewatches s / totalFilms s * 100)%float
       end
  /\ (Z.of_nat (length entries) < 2 ^ 32 -> isNaN (rewatchPct s) = false).
Proof.
  cbv zeta. split; [reflexivity|]. split; [reflexivity|].
  split; [destruct entries; reflexivity|].
  intros Hlen. destruct entries as [|e entries]; [reflexivity|].
  pose proof (filter_length_le is_rewatch (e :: entries)) as Hle.
  unfold calculateStats, isNaN, of_nat; cbn [rewatchPct].
  change (0 <? length (e :: entries))%nat with true. cbv iota.
  assert (2 ^ 32 < 2 ^ 53) by reflexivity.
  apply percent_not_nan; cbn [length] in *; lia.
Qed.

Lemma rewatchPct_guarded_witness :
  rewatchPct (calculateStats twenty_nine_of_200) = 14%float
  /\ isNaN (rewatchPct (calculateStats twenty_nine_of_200)) = false.
Proof.
  split.
  - rewrite (proj1 (proj2 (proj2 (rewatchPct_guarded twenty_nine_of_200)))).
    reflexivity.
  - apply (rewatchPct_guarded twenty_nine_of_200). reflexivity.
Defined.

(** The division in [classifyArchetype] has no guard.  On the statistics of
    the empty list, for which [calculateStats] has returned 0 as
    [rewatchPct], its ratio is NaN, and NaN is what the evidence line of
    the second record is built from.  On statistics with no film and one
    rewatch the ratio is infinite, the second rule fires, and the record
    returned carries that value. *)
Theorem classifyArchetype_division_unguarded :
  rewatchPct (calculateStats []) = 0%float
  /\ isNaN (rewatchRatio (calculateStats [])) = true
  /\ nth_error (evidence (archetype_at [] (calculateStats []) 1)) 1
     = Some [Num nan; Lit "% rewatch rate"]
  /\ rewatchRatio no_films_one_rewatch = infinity
  /\ id (classifyArchetype [] no_films_one_rewatch) = "comfort-rewinder"%string
  /\ nth_error (evidence (classifyArchetype [] no_films_one_rewatch)) 1
     = Some [Num infinity; Lit "% rewatch rate"].
Proof. repeat split. Qed.

(** The shape of the claim about [rewatchPct] fails where the quotient is
    not a double: 29 rewatches in 200 films give 14, while
    [round(100 * rewatches / totalFilms)] is 15 both in doubles and in
    exact arithmetic.  The ratio [classifyArchetype] computes from the
    statistics of the empty list is NaN. *)
Lemma rewatchPct_is_not_round_of_100_r_over_t :
  rewatches (calculateStats twenty_nine_of_200) = 29%float
  /\ totalFilms (calculateStats twenty_nine_of_200) = 200%float
  /\ (29 / 200 * 100)%float = 14.499999999999998%float
  /\ rewatchPct (calculateStats twenty_nine_of_200) = 14%float
  /\ Math_round (100 * rewatches (calculateStats twenty_nine_of_200)
                   / totalFilms (calculateStats twenty_nine_of_200))%float
     = 15%float
  /\ Qfloor (100 * (29 # 200) + (1 # 2)) = 15
  /\ rewatchPct (calculateStats twenty_nine_of_200)
     <> Math_round (100 * rewatches (calculateStats twenty_nine_of_200)
                      / totalFilms (calculateStats twenty_nine_of_200))%float
  /\ isNaN (rewatchRatio (calculateStats [])) = true.
Proof.
  repeat split; try (vm_compute; reflexivity).
  intros H; apply (f_equal Prim2SF) in H; vm_compute in H; discriminate H.
Qed.

(** ** Average rating *)

Lemma reduce_ratings (l : list DiaryEntry) : forall acc,
  fold_left (fun sum e => sum + Rating_num e)%float l acc
  = fold_left (fun a b => a + b)%float (map Rating_num l) acc.
Proof. induction l as [|e l IH]; intros acc; cbn; [reflexivity|apply IH]. Qed.

Lemma ratings_of_is_rated entries :
  map Rating_num (filter is_rated entries) = rated_ratings entries.
Proof.
  induction entries as [|e entries IH]; [reflexivity|].
  unfold is_rated, Rating_num in *; cbn.
  destruct (Rating e) as [r|] eqn:E; cbn; [|exact IH].
  destruct (isNaN r); cbn; [exact IH|]. now rewrite E, IH.
Qed.

Lemma rated_ratings_of_rated entries :
  rated_ratings (filter is_rated entries) = rated_ratings entries.
Proof.
  rewrite <- !ratings_of_is_rated. f_equal.
  induction entries as [|e entries IH]; [reflexivity|].
  cbn [filter]. destruct (is_rated e) eqn:E; [|exact IH].
  cbn [filter]. now rewrite E, IH.
Qed.

Lemma avgRating_of_ratings entries :
  avgRating (calculateStats entries) =
    match rated_ratings entries with
    | [] => 0%float
    | _ => round_2dp (mean (rated_ratings entries))
    end.
Proof.
  unfold calculateStats; cbn [avgRating].
  rewrite reduce_ratings, <- (length_map Rating_num), ratings_of_is_rated.
  destruct (rated_ratings entries); reflexivity.
Qed.

(** C4, amended. [avgRating] is 0 when no entry has a rating that is
    neither null nor NaN, and otherwise [Math.round(mean * 100) / 100],
    where the mean is the sum of those ratings divided by their number, all
    in double arithmetic; entries without such a rating change nothing.
    [Math.round] takes the double [mean * 100] to the nearest integer, a tie
    going up. *)
Theorem avgRating_mean_of_rated (entries : list DiaryEntry) :
  avgRating (calculateStats entries) =
    match rated_ratings entries with
    | [] => 0%float
    | _ => (Math_round (mean (rated_ratings entries) * 100) / 100)%float
    end
  /\ avgRating (calculateStats (filter is_rated entries))
     = avgRating (calculateStats entries)
  /\ (forall x s m e,
        Prim2SF x = S754_finite s m e -> e < 0 ->
        let n := cond_Zopp s (Zpos m) in
        let z := round_half_up n e in
        Math_round x = (if z =? 0 then (if s then neg_zero else zero) else of_Z z)
        /\ (2 * z - 1) * 2 ^ (- e) <= 2 * n < (2 * z + 1) * 2 ^ (- e)).
Proof.
  split; [|split].
  - apply avgRating_of_ratings.
  - now rewrite !avgRating_of_ratings, rated_ratings_of_rated.
  - intros x s m e Hx He. cbv zeta. split.
    + unfold Math_round. rewrite Hx.
      destruct (Z.leb_spec 0 e); [lia|reflexivity].
    + now apply round_half_up_nearest.
Qed.

Lemma avgRating_mean_of_rated_witness :
  avgRating (calculateStats fours_and_a_halves) = 4.22%float
  /\ Math_round 422.49999999999994%float = 422%float.
Proof.
  split.
  - rewrite (proj1 (avgRating_mean_of_rated fours_and_a_halves)). reflexivity.
  - destruct (proj2 (proj2 (avgRating_mean_of_rated []))
                422.49999999999994%float false 7432698603765759%positive (-44)
                eq_refl eq_refl) as [E _].
    rewrite E. reflexivity.
Defined.

(** Decimal rounding with ties going up is not what [avgRating] does,
    whether the mean is taken exactly or as the double the code computes.
    Eleven films rated 4 and nine rated 4.5 have the exact mean 4.225, which
    that rounding takes to 4.23; the double mean times 100 is
    422.49999999999994 and [avgRating] is 4.22.  Nineteen films rated 3.5
    and one rated 4 have the double mean 3.52499999999999991..., which that
    rounding takes to 3.52; times 100 it is the double 352.5 and
    [avgRating] is 3.53. *)
Lemma avgRating_is_not_decimal_half_up :
  (Qred (exact_mean (rated_ratings fours_and_a_halves)) = (169 # 40)%Q
   /\ decimal_half_up_2dp (exact_mean (rated_ratings fours_and_a_halves))
      = 4.23%float
   /\ (mean (rated_ratings fours_and_a_halves) * 100)%float
      = 422.49999999999994%float
   /\ avgRating (calculateStats fours_and_a_halves) = 4.22%float
   /\ avgRating (calculateStats fours_and_a_halves)
      <> decimal_half_up_2dp (exact_mean (rated_ratings fours_and_a_halves)))
  /\ (Qlt (exact (mean (rated_ratings threes_and_a_four))) (3525 # 1000)
      /\ decimal_half_up_2dp (exact (mean (rated_ratings threes_and_a_four)))
         = 3.52%float
      /\ (mean (rated_ratings threes_and_a_four) * 100)%float = 352.5%float
      /\ avgRating (calculateStats threes_and_a_four) = 3.53%float
      /\ avgRating (calculateStats threes_and_a_four)
         <> decimal_half_up_2dp (exact (mean (rated_ratings threes_and_a_four)))).
Proof.
  repeat split; try (vm_compute; reflexivity);
    intros H; apply (f_equal Prim2SF) in H; vm_compute in H; discriminate H.
Qed.

(** ** The order of the entries *)

Lemma rating_scale_halves : rating_scale = map half [1; 2; 3; 4; 5; 6; 7; 8; 9; 10].
Proof. vm_compute. reflexivity. Qed.

Lemma sum_halves ks : forall acc,
  0 <= acc ->
  Forall (fun k => 1 <= k <= 10) ks ->
  acc + 10 * Z.of_nat (length ks) < 2 ^ 53 ->
  fold_left (fun a b => a + b)%float (map half ks) (half acc)
  = half (acc + fold_right Z.add 0 ks).
Proof.
  induction ks as [|k ks IH]; intros acc Hacc Hks Hlen.
  - cbn. now rewrite Z.add_0_r.
  - inversion Hks as [|? ? Hk Hks']; subst.
    cbn [map fold_left fold_right length] in *.
    rewrite add_half by lia. rewrite IH by (try assumption; lia).
    f_equal. lia.
Qed.

Lemma total_perm ks ks' :
  Permutation ks ks' -> fold_right Z.add 0 ks = fold_right Z.add 0 ks'.
Proof. induction 1; cbn; lia. Qed.

Lemma halves_of_scale rs :
  Forall (fun r => In r rating_scale) rs ->
  exists ks, rs = map half ks /\ Forall (fun k => 1 <= k <= 10) ks.
Proof.
  induction 1 as [|r rs Hr _ (ks & -> & Hks)].
  - now exists [].
  - rewrite rating_scale_halves in Hr. apply in_map_iff in Hr as (k & <- & Hk).
    exists (k :: ks). split; [reflexivity|]. constructor; [|exact Hks].
    cbn in Hk. lia.
Qed.

Lemma rated_ratings_on_scale entries :
  Forall on_scale entries ->
  Forall (fun r => In r rating_scale) (rated_ratings entries).
Proof.
  induction 1 as [|e entries He _ IH]; [constructor|].
  unfold rated_ratings; cbn [flat_map]. apply Forall_app. split; [|exact IH].
  unfold on_scale in He. destruct (Rating e) as [r|]; [|constructor].
  destruct (isNaN r); [constructor|]. constructor; [exact He|constructor].
Qed.

Lemma rated_ratings_length entries :
  (length (rated_ratings entries) <= length entries)%nat.
Proof.
  rewrite <- ratings_of_is_rated, length_map. apply filter_length_le.
Qed.

(** C9, amended. For entries whose ratings are on the half-step scale from
    0.5 to 5.0 (or null), in a list shorter than 2^32, every permutation of
    the list has the same [avgRating]. *)
Theorem avgRating_permutation_invariant (entries entries' : list DiaryEntry) :
  Permutation entries entries' ->
  Forall on_scale entries ->
  Z.of_nat (length entries) < 2 ^ 32 ->
  avgRating (calculateStats entries') = avgRating (calculateStats entries).
Proof.
  intros Hperm Hscale Hlen.
  rewrite !avgRating_of_ratings.
  pose proof (rated_ratings_length entries) as Hle.
  assert (P : Permutation (rated_ratings entries') (rated_ratings entries))
    by (symmetry; now apply Permutation_flat_map).
  destruct (halves_of_scale _ (rated_ratings_on_scale _ Hscale))
    as (ks & Eks & Hks).
  rewrite Eks in P, Hle |- *.
  apply Permutation_map_inv in P as (ks' & Eks' & P). rewrite Eks'.
  rewrite length_map in Hle.
  assert (S : sum (map half ks') = sum (map half ks)).
  { unfold sum. change 0%float with (half 0).
    rewrite !sum_halves; try lia.
    - f_equal. f_equal. symmetry. now apply total_perm.
    - exact Hks.
    - eapply Permutation_Forall; eassumption.
    - rewrite <- (Permutation_length P). lia. }
  assert (M : mean (map half ks') = mean (map half ks)).
  { unfold mean. now rewrite S, !length_map, (Permutation_length P). }
  destruct ks as [|k ks].
  - apply Permutation_nil in P. now subst ks'.
  - destruct ks' as [|k' ks'].
    + apply Permutation_sym, Permutation_nil in P. discriminate P.
    + cbn [map] in *. now rewrite M.
Qed.

Lemma avgRating_permutation_invariant_witness :
  avgRating (calculateStats (rev fours_and_a_halves))
  = avgRating (calculateStats fours_and_a_halves).
Proof.
  apply avgRating_permutation_invariant.
  - apply Permutation_rev.
  - repeat (apply Forall_cons;
            [cbn; repeat first [exact I | left; reflexivity | right]|]).
    apply Forall_nil.
  - reflexivity.
Defined.

(** Off the scale the order of the entries shows in the average: 1 is lost
    when it is added to 1e16, and kept when it is added last. *)
Lemma avgRating_depends_on_order :
  Permutation large_small_large large_large_small
  /\ avgRating (calculateStats large_small_large) = 0%float
  /\ avgRating (calculateStats large_large_small) = 0.33%float
  /\ avgRating (calculateStats large_small_large)
     <> avgRating (calculateStats large_large_small).
Proof.
  split; [|split; [|split]].
  - apply perm_skip, perm_swap.
  - vm_compute. reflexivity.
  - vm_compute. reflexivity.
  - intros H. apply (f_equal Prim2SF) in H. vm_compute in H. discriminate H.
Qed.

(** ** The order of doubles *)

Lemma valid_finite s m e :
  valid_binary (S754_finite s m e) = true ->
  -1074 <= e <= 971 /\ Zpos (digits2_pos m) <= 53
  /\ (-1074 < e -> Zpos (digits2_pos m) = 53).
Proof.
  cbn [SpecFloat.valid_binary]. unfold bounded, canonical_mantissa.
  intros V. apply andb_prop in V as [V1 V2].
  apply Z.eqb_eq in V1. apply Z.leb_le in V2.
  unfold SpecFloat.fexp, SpecFloat.emin, prec, emax in *. lia.
Qed.

Lemma digits_bounds p :
  2 ^ (Zpos (digits2_pos p) - 1) <= Zpos p < 2 ^ Zpos (digits2_pos p).
Proof.
  rewrite digits_log2.
  replace (Z.log2 (Zpos p) + 1 - 1) with (Z.log2 (Zpos p)) by lia.
  replace (Z.log2 (Zpos p) + 1) with (Z.succ (Z.log2 (Zpos p))) by lia.
  apply Z.log2_spec. lia.
Qed.

Lemma rank_finite_pos m e :
  valid_binary (S754_finite false m e) = true ->
  0 < Zpos m * 2 ^ (e + 1074) < 2 ^ 2100.
Proof.
  intros V. apply valid_finite in V as (He & Hd & _).
  pose proof (digits_bounds m) as [_ Hm].
  assert (Zpos m < 2 ^ 53).
  { eapply Z.lt_le_trans; [exact Hm|]. apply Z.pow_le_mono_r; lia. }
  assert (0 < 2 ^ (e + 1074)) by (apply Z.pow_pos_nonneg; lia).
  assert (2 ^ (e + 1074) <= 2 ^ 2045) by (apply Z.pow_le_mono_r; lia).
  replace (2 ^ 2100) with (2 ^ 55 * 2 ^ 2045) by (rewrite <- Z.pow_add_r; [reflexivity|lia|lia]).
  split; [nia|].
  assert (2 ^ 53 < 2 ^ 55) by (apply Z.pow_lt_mono_r; lia).
  assert (0 < 2 ^ 2045) by (apply Z.pow_pos_nonneg; lia).
  nia.
Qed.

Lemma rank_same_sign m1 e1 m2 e2 :
  valid_binary (S754_finite false m1 e1) = true ->
  valid_binary (S754_finite false m2 e2) = true ->
  match e1 ?= e2 with
  | Eq => Pos.compare_cont Eq m1 m2
  | Lt => Lt
  | Gt => Gt
  end = (Zpos m1 * 2 ^ (e1 + 1074) ?= Zpos m2 * 2 ^ (e2 + 1074)).
Proof.
  intros V1 V2.
  apply valid_finite in V1 as (He1 & Hd1 & Hn1).
  apply valid_finite in V2 as (He2 & Hd2 & Hn2).
  pose proof (digits_bounds m1) as [L1 U1].
  pose proof (digits_bounds m2) as [L2 U2].
  assert (P53 : forall d, d <= 53 -> 2 ^ d <= 2 ^ 53)
    by (intros; apply Z.pow_le_mono_r; lia).
  destruct (Z.compare_spec e1 e2) as [->|Hlt|Hgt].
  - change (Pos.compare_cont Eq m1 m2) with (Pos.compare m1 m2).
    rewrite Pos2Z.inj_compare.
    assert (0 < 2 ^ (e2 + 1074)) by (apply Z.pow_pos_nonneg; lia).
    symmetry. destruct (Z.compare_spec (Zpos m1) (Zpos m2)) as [E|E|E].
    + rewrite E. apply Z.compare_refl.
    + apply Z.compare_lt_iff. nia.
    + apply Z.compare_gt_iff. nia.
  - symmetry. apply Z.compare_lt_iff.
    rewrite (Hn2 ltac:(lia)) in L2. change (2 ^ (53 - 1)) with (2 ^ 52) in L2.
    specialize (P53 _ Hd1).
    replace (e2 + 1074) with ((e2 - e1) + (e1 + 1074)) by lia.
    rewrite (Z.pow_add_r 2 (e2 - e1) (e1 + 1074)) by lia.
    assert (HA : 0 < 2 ^ (e1 + 1074)) by (apply Z.pow_pos_nonneg; lia).
    assert (HB : 2 ^ 1 <= 2 ^ (e2 - e1)) by (apply Z.pow_le_mono_r; lia).
    change (2 ^ 1) with 2 in HB. change (2 ^ 53) with (2 * 2 ^ 52) in P53.
    assert (HT : 0 < 2 ^ 52) by reflexivity.
    revert HA HB HT P53 L2 U1.
    generalize (2 ^ (e1 + 1074)) (2 ^ (e2 - e1)) (2 ^ 52)
      (2 ^ Zpos (digits2_pos m1)) (Zpos m1) (Zpos m2).
    intros A B T D a b HA HB HT P53 L2 U1.
    assert (a < b * B) by nia. nia.
  - symmetry. apply Z.compare_gt_iff.
    rewrite (Hn1 ltac:(lia)) in L1. change (2 ^ (53 - 1)) with (2 ^ 52) in L1.
    specialize (P53 _ Hd2).
    replace (e1 + 1074) with ((e1 - e2) + (e2 + 1074)) by lia.
    rewrite (Z.pow_add_r 2 (e1 - e2) (e2 + 1074)) by lia.
    assert (HA : 0 < 2 ^ (e2 + 1074)) by (apply Z.pow_pos_nonneg; lia).
    assert (HB : 2 ^ 1 <= 2 ^ (e1 - e2)) by (apply Z.pow_le_mono_r; lia).
    change (2 ^ 1) with 2 in HB. change (2 ^ 53) with (2 * 2 ^ 52) in P53.
    assert (HT : 0 < 2 ^ 52) by reflexivity.
    revert HA HB HT P53 L1 U2.
    generalize (2 ^ (e2 + 1074)) (2 ^ (e1 - e2)) (2 ^ 52)
      (2 ^ Zpos (digits2_pos m2)) (Zpos m2) (Zpos m1).
    intros A B T D a b HA HB HT P53 L1 U2.
    assert (a < b * B) by nia. nia.
Qed.

Lemma valid_any_sign s s' m e :
  valid_binary (S754_finite s m e) = valid_binary (S754_finite s' m e).
Proof. reflexivity. Qed.

(** On doubles other than NaN, [SFcompare] is the comparison of ranks. *)
Lemma SFcompare_rank x y :
  valid_binary x = true -> valid_binary y = true ->
  x <> S754_nan -> y <> S754_nan ->
  SFcompare x y = Some (rank x ?= rank y).
Proof.
  intros Vx Vy Nx Ny.
  destruct x as [sx|sx| |sx mx ex]; [| |contradiction|];
    (destruct y as [sy|sy| |sy my ey]; [| |contradiction|]);
    cbn [SFcompare rank].
  - reflexivity.
  - destruct sy; reflexivity.
  - pose proof (rank_finite_pos my ey Vy).
    destruct sy; cbn [cond_Zopp]; f_equal; symmetry;
      [apply Z.compare_gt_iff|apply Z.compare_lt_iff]; lia.
  - destruct sx; reflexivity.
  - destruct sx, sy; reflexivity.
  - pose proof (rank_finite_pos my ey Vy).
    assert (0 < 2 ^ 2100) by reflexivity.
    destruct sx, sy; cbn [cond_Zopp]; f_equal; symmetry;
      try (apply Z.compare_gt_iff; lia); apply Z.compare_lt_iff; lia.
  - pose proof (rank_finite_pos mx ex Vx).
    destruct sx; cbn [cond_Zopp]; f_equal; symmetry;
      [apply Z.compare_lt_iff|apply Z.compare_gt_iff]; lia.
  - pose proof (rank_finite_pos mx ex Vx).
    assert (0 < 2 ^ 2100) by reflexivity.
    destruct sx, sy; cbn [cond_Zopp]; f_equal; symmetry;
      try (apply Z.compare_gt_iff; lia); apply Z.compare_lt_iff; lia.
  - pose proof (rank_finite_pos mx ex Vx).
    pose proof (rank_finite_pos my ey Vy).
    destruct sx, sy; cbn [cond_Zopp]; f_equal.
    + rewrite Z.compare_opp, (Z.compare_antisym (Zpos mx * 2 ^ (ex + 1074))).
      rewrite <- (rank_same_sign mx ex my ey Vx Vy).
      destruct (ex ?= ey); reflexivity.
    + symmetry; apply Z.compare_lt_iff; lia.
    + symmetry; apply Z.compare_gt_iff; lia.
    + apply (rank_same_sign mx ex my ey Vx Vy).
Qed.

Lemma ltb_rank x y :
  is_nan x = false -> is_nan y = false ->
  (x <? y)%float = (rank (Prim2SF x) <? rank (Prim2SF y)).
Proof.
  intros Nx Ny. rewrite ltb_spec. unfold SFltb.
  rewrite SFcompare_rank
    by (try apply Prim2SF_valid; now apply Prim2SF_is_nan).
  unfold Z.ltb. now destruct (_ ?= _).
Qed.

Lemma leb_rank x y :
  is_nan x = false -> is_nan y = false ->
  (x <=? y)%float = (rank (Prim2SF x) <=? rank (Prim2SF y)).
Proof.
  intros Nx Ny. rewrite leb_spec. unfold SFleb.
  rewrite SFcompare_rank
    by (try apply Prim2SF_valid; now apply Prim2SF_is_nan).
  unfold Z.leb. now destruct (_ ?= _).
Qed.

(** A comparison that holds has no NaN on either side. *)
Lemma leb_not_nan x y :
  (x <=? y)%float = true -> is_nan x = false /\ is_nan y = false.
Proof.
  rewrite leb_spec. unfold SFleb. intros H.
  split; apply is_nan_Prim2SF; intros E; rewrite E in H;
    [|destruct (Prim2SF x)]; discriminate H.
Qed.

(** *** The sign of a difference *)

Lemma shr_1_div2 r : 0 <= shr_m r -> shr_m (shr_1 r) = shr_m r / 2.
Proof.
  destruct r as [m r s]. cbn [shr_m shr_1].
  destruct m as [|[p|p|]|p]; cbn [shr_m]; intros H; try lia.
  - reflexivity.
  - rewrite Pos2Z.inj_xI. apply (Z.div_unique _ _ _ 1); lia.
  - rewrite Pos2Z.inj_xO. apply (Z.div_unique _ _ _ 0); lia.
  - reflexivity.
Qed.

Lemma shr_iter_div n : forall r,
  0 <= shr_m r -> shr_m (Nat.iter n shr_1 r) = shr_m r / 2 ^ Z.of_nat n.
Proof.
  induction n as [|n IH]; intros r H.
  - cbn. now rewrite Z.div_1_r.
  - rewrite Nat.iter_succ_r, IH by now apply shr_1_nonneg.
    rewrite shr_1_div2 by exact H.
    rewrite Nat2Z.inj_succ, Z.pow_succ_r by lia.
    rewrite Z.div_div by (try apply Z.pow_pos_nonneg; lia). reflexivity.
Qed.

(** Shifting a positive mantissa to its place keeps it positive when the
    exponent is not below the least one. *)
Lemma shr_fexp_pos m e l :
  0 < m -> -1074 <= e ->
  0 < shr_m (fst (shr_fexp prec emax m e l))
  /\ -1074 <= snd (shr_fexp prec emax m e l).
Proof.
  intros Hm He. unfold shr_fexp.
  destruct m as [|p|p]; try lia. cbn [Zdigits2].
  pose proof (digits_bounds p) as [L U].
  set (d := Zpos (digits2_pos p)) in *.
  assert (Hd : 0 < d) by (unfold d; lia).
  assert (Hn : SpecFloat.fexp prec emax (d + e) - e <= Z.max (d - 53) 0)
    by (unfold SpecFloat.fexp, SpecFloat.emin, prec, emax; lia).
  set (n := SpecFloat.fexp prec emax (d + e) - e) in *.
  assert (Hr : shr_m (shr_record_of_loc (Zpos p) l) = Zpos p)
    by (destruct l as [|[ | | ]]; reflexivity).
  unfold shr. destruct n as [|k|k] eqn:En; cbn [fst snd]; rewrite ?Hr; try lia.
  split; [|lia].
  rewrite iter_pos_nat, shr_iter_div by lia.
  rewrite Hr, positive_nat_Z.
  apply Z.div_str_pos. split; [apply Z.pow_pos_nonneg; lia|].
  eapply Z.le_trans; [|exact L]. apply Z.pow_le_mono_r; lia.
Qed.

Lemma round_nearest_even_ge m l : m <= round_nearest_even m l.
Proof.
  unfold round_nearest_even. destruct l as [|[ | | ]]; try lia.
  destruct (Z.even m); lia.
Qed.

(** Rounding a positive mantissa at an exponent that is not below the
    least one gives a number of the same sign that is not a zero. *)
Lemma binary_round_aux_sign s m e l :
  0 < m -> -1074 <= e ->
  binary_round_aux prec emax s m e l = S754_infinity s
  \/ exists m' e', binary_round_aux prec emax s m e l = S754_finite s m' e'.
Proof.
  intros Hm He. unfold binary_round_aux.
  pose proof (shr_fexp_pos m e l Hm He) as [H1 H1e].
  destruct (shr_fexp prec emax m e l) as [r1 e1]. cbn [fst snd] in H1, H1e.
  pose proof (round_nearest_even_ge (shr_m r1) (loc_of_shr_record r1)) as H2.
  set (m2 := round_nearest_even (shr_m r1) (loc_of_shr_record r1)) in *.
  pose proof (shr_fexp_pos m2 e1 loc_Exact ltac:(lia) H1e) as [H3 _].
  destruct (shr_fexp prec emax m2 e1 loc_Exact) as [r2 e2]. cbn [fst] in H3.
  destruct (shr_m r2) as [|p|p]; try lia.
  destruct (e2 <=? emax - prec); [right; eauto|left; reflexivity].
Qed.

Lemma binary_round_sign s m e :
  -1074 <= e ->
  binary_round prec emax s m e = S754_infinity s
  \/ exists m' e', binary_round prec emax s m e = S754_finite s m' e'.
Proof.
  intros He. unfold binary_round.
  assert (Hf : -1074 <= SpecFloat.fexp prec emax (Zpos (digits2_pos m) + e))
    by (unfold SpecFloat.fexp, SpecFloat.emin, prec, emax; lia).
  set (f := SpecFloat.fexp prec emax (Zpos (digits2_pos m) + e)) in *.
  unfold shl_align. destruct (f - e) as [|k|k] eqn:E;
    apply binary_round_aux_sign; lia.
Qed.

Lemma shl_align_value m e ez :
  ez <= e ->
  Zpos (fst (shl_align m e ez)) = Zpos m * 2 ^ (e - ez).
Proof.
  intros H. unfold shl_align.
  destruct (ez - e) as [|k|k] eqn:E; cbn [fst]; try lia.
  - replace (e - ez) with 0 by lia. lia.
  - rewrite Pos_iter_xO.
    replace (e - ez) with (Z.of_nat (Pos.to_nat k)) by lia.
    induction (Pos.to_nat k) as [|n IH]; [cbn; lia|].
    cbn [pow2]. rewrite Pos2Z.inj_xO, IH, Nat2Z.inj_succ, Z.pow_succ_r by lia.
    ring.
Qed.

(** The difference of two doubles that are no NaN is positive, negative
    or neither (a zero, or NaN for two equal infinities) as the first
    is above, below or level with the second. *)
Lemma SFsub_sign x y :
  valid_binary x = true -> valid_binary y = true ->
  x <> S754_nan -> y <> S754_nan ->
  SFltb (S754_zero false) (SF64sub x y) = (rank y <? rank x)
  /\ SFltb (SF64sub x y) (S754_zero false) = (rank x <? rank y).
Proof.
  intros Vx Vy Nx Ny.
  destruct x as [sx|sx| |sx mx ex]; [| |contradiction|];
    (destruct y as [sy|sy| |sy my ey]; [| |contradiction|]);
    unfold SF64sub; cbn [SFsub rank].
  - destruct sx, sy; split; reflexivity.
  - destruct sy; split; reflexivity.
  - pose proof (rank_finite_pos my ey Vy).
    destruct sy; cbn [negb cond_Zopp SFltb SFcompare]; split; symmetry;
      try (apply Z.ltb_lt; lia); apply Z.ltb_ge; lia.
  - destruct sx; split; reflexivity.
  - destruct sx, sy; split; reflexivity.
  - pose proof (rank_finite_pos my ey Vy).
    assert (0 < 2 ^ 2100) by reflexivity.
    destruct sx, sy; cbn [negb cond_Zopp SFltb SFcompare]; split; symmetry;
      try (apply Z.ltb_lt; lia); apply Z.ltb_ge; lia.
  - pose proof (rank_finite_pos mx ex Vx).
    destruct sx; cbn [negb cond_Zopp SFltb SFcompare]; split; symmetry;
      try (apply Z.ltb_lt; lia); apply Z.ltb_ge; lia.
  - pose proof (rank_finite_pos mx ex Vx).
    assert (0 < 2 ^ 2100) by reflexivity.
    destruct sx, sy; cbn [negb cond_Zopp SFltb SFcompare]; split; symmetry;
      try (apply Z.ltb_lt; lia); apply Z.ltb_ge; lia.
  - cbv zeta.
    pose proof (proj1 (valid_finite _ _ _ Vx)) as Hex.
    pose proof (proj1 (valid_finite _ _ _ Vy)) as Hey.
    set (ez := Z.min ex ey).
    rewrite !shl_align_value by (unfold ez; lia).
    assert (Rx : Zpos mx * 2 ^ (ex + 1074)
                 = Zpos mx * 2 ^ (ex - ez) * 2 ^ (ez + 1074)).
    { rewrite <- Z.mul_assoc, <- Z.pow_add_r by (unfold ez; lia).
      do 2 f_equal. lia. }
    assert (Ry : Zpos my * 2 ^ (ey + 1074)
                 = Zpos my * 2 ^ (ey - ez) * 2 ^ (ez + 1074)).
    { rewrite <- Z.mul_assoc, <- Z.pow_add_r by (unfold ez; lia).
      do 2 f_equal. lia. }
    rewrite Rx, Ry.
    assert (HA : 0 < 2 ^ (ez + 1074)) by (apply Z.pow_pos_nonneg; unfold ez; lia).
    assert (Hx : 0 < Zpos mx * 2 ^ (ex - ez))
      by (apply Z.mul_pos_pos; [lia|apply Z.pow_pos_nonneg; unfold ez; lia]).
    assert (Hy : 0 < Zpos my * 2 ^ (ey - ez))
      by (apply Z.mul_pos_pos; [lia|apply Z.pow_pos_nonneg; unfold ez; lia]).
    revert HA Hx Hy.
    generalize (2 ^ (ez + 1074)) (Zpos mx * 2 ^ (ex - ez)) (Zpos my * 2 ^ (ey - ez)).
    intros A a b HA Ha Hb.
    assert (Hez : -1074 <= ez) by (unfold ez; lia).
    assert (C : forall s z, cond_Zopp s (z * A) = cond_Zopp s z * A)
      by (intros [] z; cbn [cond_Zopp]; lia).
    rewrite !C.
    set (M := cond_Zopp sx a - cond_Zopp sy b).
    assert (HM : (cond_Zopp sy b * A <? cond_Zopp sx a * A) = (0 <? M)
                 /\ (cond_Zopp sx a * A <? cond_Zopp sy b * A) = (M <? 0)).
    { unfold M. split.
      - destruct (Z.ltb_spec 0 (cond_Zopp sx a - cond_Zopp sy b));
          [apply Z.ltb_lt|apply Z.ltb_ge]; nia.
      - destruct (Z.ltb_spec (cond_Zopp sx a - cond_Zopp sy b) 0);
          [apply Z.ltb_lt|apply Z.ltb_ge]; nia. }
    destruct HM as [-> ->].
    destruct M as [|p|p]; cbn [binary_normalize].
    + split; reflexivity.
    + destruct (binary_round_sign false p ez Hez) as [->|(m' & e' & ->)];
        split; reflexivity.
    + destruct (binary_round_sign true p ez Hez) as [->|(m' & e' & ->)];
        split; reflexivity.
Qed.

(** On doubles: the sign [Array.prototype.sort] reads from [b - a]. *)
Lemma sort_order_sub a b :
  is_nan a = false -> is_nan b = false ->
  sort_order (b - a)%float
  = sign_of (rank (Prim2SF b) ?= rank (Prim2SF a)).
Proof.
  intros Na Nb. unfold sort_order.
  rewrite !ltb_spec, sub_spec.
  change (Prim2SF 0) with (S754_zero false).
  destruct (SFsub_sign (Prim2SF b) (Prim2SF a)) as [-> ->];
    try apply Prim2SF_valid; try now apply Prim2SF_is_nan.
  destruct (Z.compare_spec (rank (Prim2SF b)) (rank (Prim2SF a))) as [E|E|E];
    cbn [sign_of].
  - rewrite E, Z.ltb_irrefl. reflexivity.
  - destruct (Z.ltb_spec (rank (Prim2SF a)) (rank (Prim2SF b))); [lia|].
    destruct (Z.ltb_spec (rank (Prim2SF b)) (rank (Prim2SF a))); [reflexivity|lia].
  - destruct (Z.ltb_spec (rank (Prim2SF a)) (rank (Prim2SF b))); [reflexivity|lia].
Qed.

(** ** Sorting by a key *)

Section SortedByKey.
Context {A : Type} (cmp : A -> A -> Z) (key : A -> Z) (P : A -> Prop).
Hypothesis cmp_key :
  forall x y, P x -> P y -> (cmp x y <= 0 <-> key y <= key x).

Let descending (a b : A) : Prop := key b <= key a.

Lemma sort_insert_sorted x l :
  P x -> Forall P l ->
  StronglySorted descending l -> StronglySorted descending (sort_insert cmp x l).
Proof.
  intros Px Pl Sl. induction Sl as [|y l Sl IH Hy]; cbn [sort_insert].
  - repeat constructor.
  - inversion Pl as [|? ? Py Pl']; subst.
    destruct (Z.leb_spec (cmp x y) 0) as [Hc|Hc].
    + apply cmp_key in Hc; [|exact Px|exact Py].
      constructor; [now constructor|].
      constructor; [exact Hc|].
      rewrite Forall_forall in Hy |- *. intros z Hz.
      specialize (Hy z Hz). unfold descending in *. lia.
    + constructor; [now apply IH|].
      assert (Hxy : descending y x).
      { unfold descending.
        destruct (Z.le_gt_cases (key y) (key x)) as [Hle|Hgt]; [|lia].
        apply cmp_key in Hle; [lia|exact Px|exact Py]. }
      rewrite Forall_forall in Hy |- *. intros z Hz.
      apply (Permutation_in _ (sort_insert_perm cmp x l)) in Hz.
      destruct Hz as [<-|Hz]; [exact Hxy|now apply Hy].
Qed.

Lemma Array_sort_sorted l :
  Forall P l -> StronglySorted descending (Array_sort cmp l).
Proof.
  induction l as [|x l IH]; intros Pl; [constructor|].
  inversion Pl as [|? ? Px Pl']; subst.
  cbn [Array_sort fold_right]. fold (Array_sort cmp l).
  apply sort_insert_sorted; [exact Px| |now apply IH].
  rewrite Forall_forall in Pl' |- *. intros z Hz. apply Pl'.
  now apply (Permutation_in _ (Array_sort_perm cmp l)).
Qed.

End SortedByKey.

Lemma StronglySorted_app {A : Type} (R : A -> A -> Prop) l1 l2 :
  StronglySorted R (l1 ++ l2) ->
  StronglySorted R l1 /\ forall x y, In x l1 -> In y l2 -> R x y.
Proof.
  induction l1 as [|a l1 IH]; cbn [app]; intros S.
  - split; [constructor|intros x y []].
  - inversion S as [|? ? S' Ha]; subst. destruct (IH S') as [S1 H].
    rewrite Forall_forall in Ha. split.
    + constructor; [exact S1|]. rewrite Forall_forall.
      intros z Hz. apply Ha, in_or_app. now left.
    + intros x y [<-|Hx] Hy; [|now apply H].
      apply Ha, in_or_app. now right.
Qed.

Lemma StronglySorted_map {A B : Type} (f : A -> B) (R : B -> B -> Prop) l :
  StronglySorted (fun x y => R (f x) (f y)) l -> StronglySorted R (map f l).
Proof.
  induction 1 as [|x l S IH H]; cbn [map]; constructor; [exact IH|].
  rewrite Forall_forall in H |- *. intros z Hz.
  apply in_map_iff in Hz as (y & <- & Hy). now apply H.
Qed.

(** ** Highly rated films *)

Lemma firstn_In_sub {A : Type} (n : nat) (l : list A) x :
  In x (firstn n l) -> In x l.
Proof.
  revert n; induction l as [|y l IH]; intros [|n]; cbn; try tauto.
  intros [->|H]; [now left|right; eauto].
Qed.

Lemma rated_at_least_rated minRating e :
  rated_at_least minRating e = true ->
  exists r, Rating e = Some r /\ ge r minRating = true /\ is_nan r = false.
Proof.
  unfold rated_at_least. destruct (Rating e) as [r|]; [|discriminate].
  intros H. exists r. split; [reflexivity|]. split; [exact H|].
  unfold ge in H. now apply leb_not_nan in H.
Qed.

Lemma rank_or_0 (r : number) :
  is_nan r = false ->
  is_nan (or_0 (Some r)) = false
  /\ rank (Prim2SF (or_0 (Some r))) = rank (Prim2SF r).
Proof.
  intros N. cbn [or_0]. rewrite N. cbn [orb].
  destruct (r =? 0)%float eqn:E; [|now split].
  split; [reflexivity|].
  rewrite FloatAxioms.eqb_spec in E. unfold SFeqb in E.
  rewrite (SFcompare_rank (Prim2SF r) (Prim2SF 0) (Prim2SF_valid r)
             (Prim2SF_valid 0) (Prim2SF_is_nan r N)) in E by discriminate.
  change (rank (Prim2SF 0)) with 0 in *.
  destruct (Z.compare_spec (rank (Prim2SF r)) 0); congruence.
Qed.

Lemma by_rating_desc_rank x y :
  is_rated x = true -> is_rated y = true ->
  (by_rating_desc x y <= 0 <-> rating_rank y <= rating_rank x).
Proof.
  unfold is_rated, by_rating_desc, rating_rank, Rating_num, isNaN.
  destruct (Rating x) as [rx|]; [|discriminate].
  destruct (Rating y) as [ry|]; [|discriminate].
  intros Nx Ny. apply negb_true_iff in Nx, Ny.
  destruct (rank_or_0 rx Nx) as [Nx' Rx].
  destruct (rank_or_0 ry Ny) as [Ny' Ry].
  rewrite sort_order_sub, Rx, Ry by assumption.
  destruct (Z.compare_spec (rank (Prim2SF ry)) (rank (Prim2SF rx)));
    cbn [sign_of]; lia.
Qed.

Lemma rated_at_least_is_rated minRating e :
  rated_at_least minRating e = true -> is_rated e = true.
Proof.
  intros H. apply rated_at_least_rated in H as (r & E & _ & N).
  unfold is_rated, isNaN. now rewrite E, N.
Qed.

Lemma ge_rating_rank x y :
  is_rated x = true -> is_rated y = true ->
  rating_rank y <= rating_rank x ->
  ge (Rating_num x) (Rating_num y) = true.
Proof.
  unfold is_rated, rating_rank, Rating_num, isNaN, ge.
  destruct (Rating x) as [rx|]; [|discriminate].
  destruct (Rating y) as [ry|]; [|discriminate].
  intros Nx Ny H. apply negb_true_iff in Nx, Ny.
  rewrite leb_rank by assumption. now apply Z.leb_le.
Qed.

Lemma highly_rated_sorted entries minRating :
  let candidates := filter (rated_at_least minRating) entries in
  Forall (fun e => is_rated e = true) (Array_sort by_rating_desc candidates)
  /\ StronglySorted (fun a b => rating_rank b <= rating_rank a)
       (Array_sort by_rating_desc candidates).
Proof.
  cbv zeta.
  assert (F : Forall (fun e => is_rated e = true)
                (filter (rated_at_least minRating) entries)).
  { rewrite Forall_forall. intros e He. apply filter_In in He as [_ He].
    now apply rated_at_least_is_rated in He. }
  split.
  - rewrite Forall_forall in F |- *. intros e He. apply F.
    now apply (Permutation_in _ (Array_sort_perm by_rating_desc _)).
  - apply (Array_sort_sorted by_rating_desc rating_rank
             (fun e => is_rated e = true)); [|exact F].
    intros x y. apply by_rating_desc_rank.
Qed.

(** X1. [getHighlyRatedFilms] returns at most six films, as many as there
    are entries with a rating of at least [minRating] when those are
    fewer.  Each film carries the name, the rating and the year of such an
    entry, and its rating is not NaN. *)
Theorem getHighlyRatedFilms_rated_at_least (entries : list DiaryEntry)
    (minRating : number) :
  let films := getHighlyRatedFilms entries minRating in
  length films
  = Nat.min 6 (length (filter (rated_at_least minRating) entries))
  /\ Forall
       (fun f =>
          ge (HighlyRatedFilm.rating f) minRating = true
          /\ isNaN (HighlyRatedFilm.rating f) = false
          /\ exists e, In e entries
               /\ Rating e = Some (HighlyRatedFilm.rating f)
               /\ Name e = HighlyRatedFilm.name f
               /\ Year e = HighlyRatedFilm.year f)
       films.
Proof.
  cbv zeta. unfold getHighlyRatedFilms. split.
  - rewrite length_map, length_firstn, Array_sort_length. reflexivity.
  - rewrite Forall_forall. intros f Hf.
    apply in_map_iff in Hf as (e & <- & He). cbn.
    apply firstn_In_sub in He.
    apply (Permutation_in _ (Array_sort_perm by_rating_desc _)) in He.
    apply filter_In in He as [He Hr].
    apply rated_at_least_rated in Hr as (r & E & G & N).
    unfold Rating_num. rewrite E.
    split; [exact G|]. split; [exact N|]. exists e. now rewrite E.
Qed.

Lemma sorted_by_rank_ge l :
  Forall (fun e => is_rated e = true) l ->
  StronglySorted (fun a b => rating_rank b <= rating_rank a) l ->
  StronglySorted (fun a b => ge (Rating_num a) (Rating_num b) = true) l.
Proof.
  intros R S. induction S as [|x l S IH Hx]; constructor.
  - apply IH. now inversion R.
  - inversion R as [|? ? Rx Rl]; subst.
    rewrite Forall_forall in Hx, Rl |- *. intros z Hz.
    apply ge_rating_rank; [exact Rx|now apply Rl|now apply Hx].
Qed.

(** X2. The films are returned in descending order of rating, and an
    entry rated at least [minRating] that is not among them is rated no
    higher than any of the six that are. *)
Theorem getHighlyRatedFilms_best_first (entries : list DiaryEntry)
    (minRating : number) :
  let films := getHighlyRatedFilms entries minRating in
  StronglySorted
    (fun f g => ge (HighlyRatedFilm.rating f) (HighlyRatedFilm.rating g) = true)
    films
  /\ Forall
       (fun e =>
          rated_at_least minRating e = true ->
          In {| HighlyRatedFilm.name := Name e;
                HighlyRatedFilm.rating := Rating_num e;
                HighlyRatedFilm.year := Year e |} films
          \/ (length films = 6%nat
              /\ Forall (fun f => ge (HighlyRatedFilm.rating f) (Rating_num e) = true)
                   films))
       entries.
Proof.
  cbv zeta. unfold getHighlyRatedFilms.
  destruct (highly_rated_sorted entries minRating) as [R S].
  set (sorted := Array_sort by_rating_desc
                   (filter (rated_at_least minRating) entries)) in *.
  rewrite <- (firstn_skipn 6 sorted) in S, R.
  set (chosen := firstn 6 sorted) in *.
  apply StronglySorted_app in S as [S1 S2].
  apply Forall_app in R as [R1 R2].
  split.
  - apply StronglySorted_map. now apply sorted_by_rank_ge.
  - rewrite Forall_forall. intros e He Hr.
    assert (Hin : In e sorted).
    { apply (Permutation_in _ (Permutation_sym (Array_sort_perm by_rating_desc _))).
      apply filter_In. now split. }
    rewrite <- (firstn_skipn 6 sorted) in Hin. fold chosen in Hin.
    rewrite Forall_forall in R1, R2.
    apply in_app_or in Hin as [Hin|Hin].
    + left.
      now apply (in_map (fun e => HighlyRatedFilm.mk (Name e) (Rating_num e) (Year e)))
        in Hin.
    + right. split.
      * unfold chosen. rewrite length_map, length_firstn.
        destruct (Nat.le_gt_cases 6 (length sorted)) as [Hl|Hl]; [lia|].
        rewrite skipn_all2 in Hin by lia. destruct Hin.
      * rewrite Forall_forall. intros f Hf.
        apply in_map_iff in Hf as (x & <- & Hx). cbn [HighlyRatedFilm.rating].
        apply ge_rating_rank; [now apply R1|now apply R2|now apply S2].
Qed.

(** ** The most watched day *)

Lemma set_set {K V : Type} (eqb : K -> K -> bool)
    (eqb_spec : forall a b, reflect (a = b) (eqb a b))
    (o : object K V) k v w :
  set eqb (set eqb o k v) k w = set eqb o k w.
Proof.
  induction o as [|[a u] o IH]; cbn.
  - destruct (eqb_spec k k); [reflexivity|congruence].
  - destruct (eqb_spec a k) as [->|Hak]; cbn.
    + destruct (eqb_spec k k); [reflexivity|congruence].
    + destruct (eqb_spec a k); [congruence|]. now rewrite IH.
Qed.

Lemma Object_entries_string_perm {V : Type} (o : object string V) :
  Permutation (Object_entries_string o) o.
Proof.
  unfold Object_entries_string. rewrite Array_sort_perm.
  set (f := fun p : string * V =>
              match array_index (fst p) with Some _ => true | None => false end).
  rewrite (filter_ext (fun p : string * V =>
                         match array_index (fst p) with
                         | Some _ => false
                         | None => true
                         end)
             (fun p => negb (f p)))
    by (intros p; unfold f; now destruct (array_index (fst p))).
  apply filter_split_perm.
Qed.

Lemma dayMap_step_inherited dayMap entry :
  (forall k, inherited k = true -> get String.eqb dayMap k = None) ->
  inherited (day_key entry) = true ->
  dayMap_step dayMap entry = TypeError.
Proof.
  intros Hown Hk. unfold dayMap_step, dayMap_get.
  cbv zeta. rewrite (Hown _ Hk), Hk. cbv iota. now rewrite (Hown _ Hk).
Qed.

Lemma dayMap_step_returns dayMap entry :
  inherited (day_key entry) = false ->
  dayMap_step dayMap entry
  = Returns (set String.eqb dayMap (day_key entry)
               (films_at dayMap (day_key entry) ++ [Name entry])).
Proof.
  intros Hk. unfold dayMap_step, dayMap_get, films_at.
  destruct (get String.eqb dayMap (day_key entry)) as [films|] eqn:E.
  - cbv zeta. now rewrite E.
  - rewrite Hk. cbv zeta.
    rewrite (get_set String.eqb String.eqb_spec), String.eqb_refl.
    now rewrite (set_set String.eqb String.eqb_spec).
Qed.

Lemma set_own_keys dayMap k (v : list string) :
  inherited k = false ->
  (forall k', inherited k' = true -> get String.eqb dayMap k' = None) ->
  forall k', inherited k' = true -> get String.eqb (set String.eqb dayMap k v) k' = None.
Proof.
  intros Hk Hown k' Hk'. rewrite (get_set String.eqb String.eqb_spec).
  destruct (String.eqb_spec k k') as [->|_]; [congruence|now apply Hown].
Qed.

(** The loop throws exactly when the day of some entry is an inherited
    property name. *)
Lemma dayMap_of_throws entries : forall dayMap,
  (forall k, inherited k = true -> get String.eqb dayMap k = None) ->
  Exists (fun e => inherited (day_key e) = true) entries ->
  dayMap_of entries dayMap = TypeError.
Proof.
  induction entries as [|e entries IH]; intros dayMap Hown Hex;
    [inversion Hex|].
  cbn [dayMap_of].
  destruct (inherited (day_key e)) eqn:Hk.
  - now rewrite dayMap_step_inherited.
  - rewrite dayMap_step_returns by exact Hk.
    apply IH; [now apply set_own_keys|].
    inversion Hex as [? ? H|]; subst; [congruence|assumption].
Qed.

Lemma dayMap_of_returns entries : forall dayMap,
  Forall (fun e => inherited (day_key e) = false) entries ->
  exists dayMap',
    dayMap_of entries dayMap = Returns dayMap'
    /\ (NoDup (map fst dayMap) -> NoDup (map fst dayMap'))
    /\ forall date,
         get String.eqb dayMap' date
         = match get String.eqb dayMap date, films_on entries date with
           | None, [] => None
           | _, films => Some (films_at dayMap date ++ films)
           end.
Proof.
  induction entries as [|e entries IH]; intros dayMap Hall.
  - exists dayMap. split; [reflexivity|]. split; [tauto|].
    intros date. unfold films_at. cbn.
    destruct (get String.eqb dayMap date); [now rewrite app_nil_r|reflexivity].
  - inversion Hall as [|? ? Hk Hall']; subst.
    cbn [dayMap_of]. rewrite dayMap_step_returns by exact Hk.
    set (o1 := set String.eqb dayMap (day_key e)
                 (films_at dayMap (day_key e) ++ [Name e])).
    destruct (IH o1 Hall') as (o' & E & Hnd & Hget).
    exists o'. split; [exact E|]. split.
    + intros H. apply Hnd. unfold o1.
      destruct (get String.eqb dayMap (day_key e)) as [c|] eqn:Eg.
      * now rewrite (set_keys_present String.eqb String.eqb_spec _ _ _ _ Eg).
      * rewrite (set_keys_fresh String.eqb String.eqb_spec _ _ _ Eg).
        apply NoDup_app; [exact H|repeat constructor; intros []|].
        intros k Hk' [<-|[]].
        now apply (get_None_keys String.eqb String.eqb_spec) in Eg.
    + intros date. rewrite Hget.
      assert (G : get String.eqb o1 date
                  = if String.eqb (day_key e) date
                    then Some (films_at dayMap date ++ [Name e])
                    else get String.eqb dayMap date).
      { unfold o1. rewrite (get_set String.eqb String.eqb_spec).
        now destruct (String.eqb_spec (day_key e) date) as [->|_]. }
      assert (O : films_on (e :: entries) date
                  = if String.eqb (day_key e) date
                    then Name e :: films_on entries date
                    else films_on entries date).
      { unfold films_on. cbn [filter].
        now destruct (String.eqb (day_key e) date). }
      unfold films_at at 1 2. rewrite G, O.
      destruct (String.eqb (day_key e) date).
      * unfold films_at.
        destruct (get String.eqb dayMap date) as [f|];
          destruct (films_on entries date);
          cbn [app]; rewrite <- ?app_assoc; reflexivity.
      * reflexivity.
Qed.

Lemma by_length_desc_key (x y : string * list string) :
  by_length_desc x y <= 0
  <-> Z.of_nat (length (snd y)) <= Z.of_nat (length (snd x)).
Proof. unfold by_length_desc. lia. Qed.

Lemma no_inherited_key entries :
  ~ Exists (fun e => inherited (day_key e) = true) entries ->
  Forall (fun e => inherited (day_key e) = false) entries.
Proof.
  intros H. apply Forall_Exists_neg in H.
  rewrite Forall_forall in H |- *. intros e He.
  specialize (H e He). now destruct (inherited (day_key e)).
Qed.

(** X3. [findMostWatchedDay] throws a [TypeError] exactly when the day of some
    entry, the text of its date before the first [T], is a property name
    that objects inherit, such as [constructor]: for such a day no list is
    created, and the inherited value has no [push]. *)
Theorem findMostWatchedDay_throws (entries : list DiaryEntry) :
  findMostWatchedDay entries = TypeError
  <-> Exists (fun e => inherited (day_key e) = true) entries.
Proof.
  unfold findMostWatchedDay. split.
  - intros H.
    destruct (Exists_dec (fun e => inherited (day_key e) = true) entries
                (fun e => bool_dec _ true)) as [Hex|Hno]; [exact Hex|].
    apply no_inherited_key in Hno.
    destruct (dayMap_of_returns entries [] Hno) as (o & E & _).
    rewrite E in H. destruct (Array_sort _ _); discriminate H.
  - intros Hex. now rewrite dayMap_of_throws.
Qed.

(** X4. When [findMostWatchedDay] returns, [count] is the number of [films];
    on an empty diary the date is [null] and there are no films; otherwise
    the films are the names of the entries of the returned day, in diary
    order, there is at least one, and no day has more entries. *)
Theorem findMostWatchedDay_most_entries (entries : list DiaryEntry)
    (r : MostWatchedPeriod.t) :
  findMostWatchedDay entries = Returns r ->
  MostWatchedPeriod.count r = length (MostWatchedPeriod.films r)
  /\ match MostWatchedPeriod.date r with
     | None => entries = [] /\ MostWatchedPeriod.films r = []
     | Some date =>
         MostWatchedPeriod.films r = films_on entries date
         /\ MostWatchedPeriod.films r <> []
         /\ forall date',
              (length (films_on entries date') <= MostWatchedPeriod.count r)%nat
     end.
Proof.
  intros H.
  destruct (Exists_dec (fun e => inherited (day_key e) = true) entries
              (fun e => bool_dec _ true)) as [Hex|Hno].
  { unfold findMostWatchedDay in H. rewrite dayMap_of_throws in H; [discriminate H|reflexivity|exact Hex]. }
  apply no_inherited_key in Hno.
  unfold findMostWatchedDay in H.
  destruct (dayMap_of_returns entries [] Hno) as (o & E & Hnd & Hget).
  specialize (Hnd (NoDup_nil _)).
  rewrite E in H.
  assert (Hg : forall date,
            get String.eqb o date
            = match films_on entries date with
              | [] => None
              | films => Some films
              end).
  { intros date. rewrite Hget. cbn. now destruct (films_on entries date). }
  set (sorted := Array_sort by_length_desc (Object_entries_string o)) in *.
  assert (Hperm : Permutation sorted o).
  { unfold sorted. rewrite Array_sort_perm. apply Object_entries_string_perm. }
  assert (Hs : StronglySorted
                 (fun a b : string * list string =>
                    Z.of_nat (length (snd b)) <= Z.of_nat (length (snd a)))
                 sorted).
  { apply (Array_sort_sorted by_length_desc
             (fun p => Z.of_nat (length (snd p))) (fun _ => True)).
    - intros x y _ _. apply by_length_desc_key.
    - rewrite Forall_forall. trivial. }
  destruct sorted as [|[d films] rest] eqn:Es.
  - injection H as <-. cbn. split; [reflexivity|]. split; [|reflexivity].
    apply Permutation_nil in Hperm.
    destruct entries as [|e entries]; [reflexivity|exfalso].
    specialize (Hg (day_key e)). rewrite Hperm in Hg. cbn in Hg.
    unfold films_on in Hg. cbn [filter] in Hg.
    rewrite String.eqb_refl in Hg. discriminate Hg.
  - injection H as <-. cbn. split; [reflexivity|].
    assert (Hin : In (d, films) o) by (apply (Permutation_in _ Hperm); now left).
    apply (In_get String.eqb String.eqb_spec _ _ _ Hnd) in Hin.
    rewrite Hg in Hin.
    destruct (films_on entries d) as [|f fs] eqn:Ef; [discriminate|].
    injection Hin as <-. split; [reflexivity|]. split; [discriminate|].
    intros d'.
    destruct (films_on entries d') as [|f' fs'] eqn:Ef'; [cbn; lia|].
    assert (Hin' : In (d', f' :: fs') ((d, f :: fs) :: rest)).
    { apply (Permutation_in _ (Permutation_sym Hperm)).
      apply (get_In String.eqb String.eqb_spec). now rewrite Hg, Ef'. }
    destruct Hin' as [[= _ <- <-]|Hin']; [cbn; lia|].
    inversion Hs as [|? ? _ Hd]; subst.
    rewrite Forall_forall in Hd. specialize (Hd _ Hin'). cbn [snd] in Hd. lia.
Qed.

(** ** The request for film metadata *)

(** X6. The request [fetchTMDBData] builds never exceeds the 20 movies the
    batch endpoint keeps, so the endpoint drops none of them.  It starts
    with the films of [highlyRated], at most four, and goes on with at most
    16 diary entries whose name is not the name of a highly rated film. *)
Theorem moviesToFetch_within_limit (entries : list DiaryEntry)
    (films : list HighlyRatedFilm.t) :
  let movies := moviesToFetch entries films in
  (length movies <= 20)%nat
  /\ limitedMovies movies = movies
  /\ exists others,
       movies
       = map (fun m => (HighlyRatedFilm.name m, HighlyRatedFilm.year m))
           (firstn 4 films) ++ others
       /\ (length others <= 16)%nat
       /\ Forall
            (fun m =>
               (exists e, In e entries /\ m = (Name e, Year e))
               /\ Forall (fun h => HighlyRatedFilm.name h <> fst m) films)
            others.
Proof.
  cbv zeta. unfold moviesToFetch.
  set (top := map _ (firstn 4 films)).
  set (others := map _ (firstn 16 _)).
  assert (Ht : (length top <= 4)%nat)
    by (unfold top; rewrite length_map, length_firstn; lia).
  assert (Ho : (length others <= 16)%nat)
    by (unfold others; rewrite length_map, length_firstn; lia).
  assert (Hl : (length (top ++ others) <= 20)%nat)
    by (rewrite length_app; lia).
  split; [exact Hl|]. split; [now apply firstn_all2|].
  exists others. split; [reflexivity|]. split; [exact Ho|].
  unfold others. rewrite Forall_forall. intros m Hm.
  apply in_map_iff in Hm as (e & <- & He).
  apply firstn_In_sub, filter_In in He as [He Hn].
  split; [now exists e|].
  apply negb_true_iff in Hn.
  rewrite Forall_forall. intros h Hh Heq. cbn [fst] in Heq.
  assert (existsb (fun h => String.eqb (HighlyRatedFilm.name h) (Name e)) films
          = true) as Hex.
  { apply existsb_exists. exists h. split; [exact Hh|]. now apply String.eqb_eq. }
  congruence.
Qed.

(** ** The favourite-day slide *)

Lemma get_not_key {K V : Type} (eqb : K -> K -> bool)
    (eqb_spec : forall a b, reflect (a = b) (eqb a b)) (o : object K V) k :
  ~ In k (map fst o) -> get eqb o k = None.
Proof.
  induction o as [|[a v] o IH]; cbn; [reflexivity|].
  intros H. destruct (eqb_spec a k) as [->|_]; [tauto|]. apply IH. tauto.
Qed.

Section FavouriteDay.
Variable env : DateEnv.

(** X5. [calculateDistribution] keys [weekly] by the full day names, and
    [buildSlides] reads it under three-letter names.  So, whatever the
    diary, every count of the favourite-day slide is 0, the maximum the
    bars are scaled by is 0, and the day the slide names is the first of
    the list: Sundays. *)
Theorem buildSlides_favourite_day (entries : list DiaryEntry) :
  let distribution := calculateDistribution env entries in
  map fst (weekly distribution) = dayNames
  /\ weeklyData distribution
     = map (fun day => (day, 0%nat)) buildSlides_dayNames
  /\ maxCount distribution = 0%nat
  /\ maxDay distribution = ("Sun"%string, 0%nat)
  /\ favoriteDay distribution = Some "Sundays"%string.
Proof.
  cbv zeta.
  assert (K : map fst (weekly (calculateDistribution env entries)) = dayNames).
  { unfold calculateDistribution.
    pose proof (count_entries_keys env entries) as [_ Kw].
    destruct (count_entries env entries) as [m w]. exact Kw. }
  assert (W : weeklyData (calculateDistribution env entries)
              = map (fun day => (day, 0%nat)) buildSlides_dayNames).
  { unfold weeklyData. apply map_ext_in. intros day Hday.
    rewrite (get_not_key String.eqb String.eqb_spec); [reflexivity|].
    rewrite K. unfold dayNames. cbn [In]. unfold buildSlides_dayNames in Hday.
    cbn [In] in Hday.
    intros H; repeat (destruct Hday as [<-|Hday];
      [repeat (destruct H as [H|H]; [discriminate H|]); exact H|]);
      exact Hday. }
  split; [exact K|]. split; [exact W|].
  unfold maxCount, favoriteDay, maxDay. rewrite W.
  repeat split.
Qed.

End FavouriteDay.

Lemma findMostWatchedDay_most_entries_witness :
  MostWatchedPeriod.count
    {| MostWatchedPeriod.date := Some "2024-03-09"%string;
       MostWatchedPeriod.count := 2;
       MostWatchedPeriod.films := ["Heat"; "Ronin"]%string |}
  = 2%nat
  /\ forall date', (length (films_on double_bill date') <= 2)%nat.
Proof.
  pose proof (findMostWatchedDay_most_entries double_bill
                {| MostWatchedPeriod.date := Some "2024-03-09"%string;
                   MostWatchedPeriod.count := 2;
                   MostWatchedPeriod.films := ["Heat"; "Ronin"]%string |}
                eq_refl) as [H1 (_ & _ & H2)].
  split; [exact H1|exact H2].
Defined.

(** ** Rounding below a bound *)

Lemma scaled_pos m e : 0 < m -> -3000 <= e -> 0 < scaled m e.
Proof.
  intros Hm He. unfold scaled.
  apply Z.mul_pos_pos; [exact Hm|apply Z.pow_pos_nonneg; lia].
Qed.

Lemma scaled_shift m e n :
  0 <= n -> -3000 <= e -> scaled (m * 2 ^ n) e = scaled m (e + n).
Proof.
  intros Hn He. unfold scaled.
  replace (e + n + 3000) with (n + (e + 3000)) by lia.
  rewrite (Z.pow_add_r 2 n (e + 3000)) by lia. ring.
Qed.

Lemma fexp_mono a b :
  a <= b -> SpecFloat.fexp prec emax a <= SpecFloat.fexp prec emax b.
Proof. unfold SpecFloat.fexp. lia. Qed.

Lemma Zdigits2_bounds m :
  0 < m -> 2 ^ (Zdigits2 m - 1) <= m < 2 ^ Zdigits2 m.
Proof. destruct m as [|p|p]; try lia. intros _. apply digits_bounds. Qed.

(** A smaller value has no more digits before the binary point. *)
Lemma scaled_le_digits m e mb eb :
  0 < m -> -3000 <= e -> -3000 <= eb -> 0 < mb ->
  scaled m e <= scaled mb eb ->
  Zdigits2 m + e <= Zdigits2 mb + eb.
Proof.
  intros Hm He Heb Hmb H. unfold scaled in H.
  pose proof (Zdigits2_bounds m Hm) as [L _].
  pose proof (Zdigits2_bounds mb Hmb) as [_ U].
  assert (Hd : 0 < Zdigits2 m) by (destruct m; cbn; lia).
  assert (Hdb : 0 < Zdigits2 mb) by (destruct mb; cbn; lia).
  assert (P : 2 ^ (Zdigits2 m - 1 + (e + 3000)) < 2 ^ (Zdigits2 mb + (eb + 3000))).
  { rewrite (Z.pow_add_r 2 (Zdigits2 m - 1) (e + 3000)) by lia.
    rewrite (Z.pow_add_r 2 (Zdigits2 mb) (eb + 3000)) by lia.
    assert (0 < 2 ^ (e + 3000)) by (apply Z.pow_pos_nonneg; lia).
    assert (0 < 2 ^ (eb + 3000)) by (apply Z.pow_pos_nonneg; lia).
    nia. }
  apply Z.pow_lt_mono_r_iff in P; lia.
Qed.

Lemma shr_iter_exact n : forall r,
  0 <= shr_m r -> shr_r r = false -> shr_s r = false ->
  shr_m r mod 2 ^ Z.of_nat n = 0 ->
  loc_of_shr_record (Nat.iter n shr_1 r) = loc_Exact.
Proof.
  induction n as [|n IH]; intros [m r s] Hm Hr Hs Hd; cbn [shr_m shr_r shr_s] in *.
  - subst. reflexivity.
  - rewrite Nat.iter_succ_r. subst r s.
    rewrite Nat2Z.inj_succ, Z.pow_succ_r in Hd by lia.
    assert (Hp : 0 < 2 ^ Z.of_nat n) by (apply Z.pow_pos_nonneg; lia).
    assert (Hm2 : m = 2 * (m / 2) /\ (m / 2) mod 2 ^ Z.of_nat n = 0).
    { apply Z.mod_divide in Hd as [c Hc]; [|lia].
      assert (Hh : m / 2 = c * 2 ^ Z.of_nat n).
      { rewrite Hc. replace (c * (2 * 2 ^ Z.of_nat n)) with (c * 2 ^ Z.of_nat n * 2) by ring.
        apply Z.div_mul. lia. }
      rewrite Hh. split; [lia|]. apply Z.mod_mul. lia. }
    destruct Hm2 as [E2 Hd2].
    apply IH.
    + apply shr_1_nonneg. exact Hm.
    + cbn [shr_1]. destruct m as [|[p|p|]|p]; cbn [shr_r]; try reflexivity; lia.
    + cbn [shr_1]. destruct m as [|[p|p|]|p]; try reflexivity; lia.
    + rewrite shr_1_div2 by exact Hm. exact Hd2.
Qed.

Lemma loc_of_record_of_loc m l : loc_of_shr_record (shr_record_of_loc m l) = l.
Proof. destruct l as [|[ | | ]]; reflexivity. Qed.

Lemma shr_m_record_of_loc m l : shr_m (shr_record_of_loc m l) = m.
Proof. destruct l as [|[ | | ]]; reflexivity. Qed.

(** Shifting a mantissa to its place does not raise the value, does not
    take the exponent above that of a bound of the value, and keeps an
    exact location exact when the value is unchanged. *)
Lemma shr_fexp_le m e l mb eb :
  0 <= m -> -3000 <= e <= eb ->
  valid_binary (S754_finite false mb eb) = true ->
  scaled m e <= scaled (Zpos mb) eb ->
  let r1 := fst (shr_fexp prec emax m e l) in
  let e1 := snd (shr_fexp prec emax m e l) in
  0 <= shr_m r1 /\ e <= e1 <= eb
  /\ scaled (shr_m r1) e1 <= scaled m e
  /\ (scaled (shr_m r1) e1 = scaled m e -> l = loc_Exact ->
      loc_of_shr_record r1 = loc_Exact).
Proof.
  intros Hm He Vb Hle. cbv zeta.
  pose proof (valid_finite _ _ _ Vb) as (Heb & Hdb & _).
  unfold shr_fexp.
  set (n := SpecFloat.fexp prec emax (Zdigits2 m + e) - e).
  assert (Hn : e + n <= eb).
  { unfold n.
    replace (e + (SpecFloat.fexp prec emax (Zdigits2 m + e) - e))
      with (SpecFloat.fexp prec emax (Zdigits2 m + e)) by lia.
    assert (Fb : SpecFloat.fexp prec emax (Zpos (digits2_pos mb) + eb) = eb).
    { cbn [SpecFloat.valid_binary] in Vb. unfold bounded, canonical_mantissa in Vb.
      apply andb_prop in Vb as [Vb _]. now apply Z.eqb_eq in Vb. }
    apply Z.le_trans with (SpecFloat.fexp prec emax (Zpos (digits2_pos mb) + eb));
      [|lia].
    apply fexp_mono.
    destruct (Z.eq_dec m 0) as [->|Hm0]; [cbn [Zdigits2]; lia|].
    apply (scaled_le_digits m e (Zpos mb) eb); lia. }
  unfold shr. destruct n as [|p|p] eqn:En; cbn [fst snd].
  - rewrite shr_m_record_of_loc, loc_of_record_of_loc.
    repeat split; try lia. intros _ Hl; exact Hl.
  - rewrite iter_pos_nat, shr_iter_div by (rewrite shr_m_record_of_loc; lia).
    rewrite shr_m_record_of_loc, positive_nat_Z.
    assert (Hp : 0 < 2 ^ Zpos p) by (apply Z.pow_pos_nonneg; lia).
    assert (Hs : scaled (m / 2 ^ Zpos p) (e + Zpos p)
                 = (m / 2 ^ Zpos p * 2 ^ Zpos p) * 2 ^ (e + 3000)).
    { rewrite <- scaled_shift by lia. reflexivity. }
    pose proof (Z.div_mod m (2 ^ Zpos p) ltac:(lia)) as D.
    pose proof (Z.mod_pos_bound m (2 ^ Zpos p) Hp) as B.
    assert (He3 : 0 < 2 ^ (e + 3000)) by (apply Z.pow_pos_nonneg; lia).
    split; [apply Z.div_pos; lia|]. split; [lia|]. split.
    + rewrite Hs. unfold scaled. nia.
    + intros Heq Hl. subst l.
      apply shr_iter_exact; try reflexivity; cbn [shr_m shr_record_of_loc].
      * exact Hm.
      * rewrite positive_nat_Z. rewrite Hs in Heq. unfold scaled in Heq. nia.
  - rewrite shr_m_record_of_loc, loc_of_record_of_loc.
    repeat split; try lia. intros _ Hl; exact Hl.
Qed.

Lemma round_nearest_even_le m l :
  m <= round_nearest_even m l <= m + 1
  /\ (l = loc_Exact -> round_nearest_even m l = m).
Proof.
  unfold round_nearest_even. destruct l as [|[ | | ]]; try (split; [lia|]; try reflexivity; discriminate).
  destruct (Z.even m); split; try lia; discriminate.
Qed.

(** A multiple of [2^e] below a multiple of [2^e] is a whole step below. *)
Lemma scaled_succ_le m e mb eb :
  -3000 <= e <= eb ->
  scaled m e < scaled mb eb -> scaled (m + 1) e <= scaled mb eb.
Proof.
  intros He H. unfold scaled in *.
  replace (eb + 3000) with ((eb - e) + (e + 3000)) in * by lia.
  rewrite (Z.pow_add_r 2 (eb - e) (e + 3000)) in * by lia.
  assert (HA : 0 < 2 ^ (e + 3000)) by (apply Z.pow_pos_nonneg; lia).
  revert H HA. generalize (2 ^ (e + 3000)) (2 ^ (eb - e)). intros A B H HA.
  assert (m < mb * B) by nia. nia.
Qed.

(** Rounding a value that is not above a double gives a double that is
    not above it. *)
Lemma binary_round_aux_le s m e l mb eb :
  0 <= m -> -3000 <= e <= eb ->
  valid_binary (S754_finite false mb eb) = true ->
  scaled m e < scaled (Zpos mb) eb
  \/ (scaled m e = scaled (Zpos mb) eb /\ l = loc_Exact) ->
  binary_round_aux prec emax s m e l = S754_zero s
  \/ exists m' e',
       binary_round_aux prec emax s m e l = S754_finite s m' e'
       /\ scaled (Zpos m') e' <= scaled (Zpos mb) eb /\ e' <= eb.
Proof.
  intros Hm He Vb C.
  assert (Hle : scaled m e <= scaled (Zpos mb) eb) by (destruct C; lia).
  pose proof (valid_finite _ _ _ Vb) as (Heb & _ & _).
  unfold binary_round_aux.
  pose proof (shr_fexp_le m e l mb eb Hm He Vb Hle) as S1. cbv zeta in S1.
  destruct (shr_fexp prec emax m e l) as [r1 e1]. cbn [fst snd] in S1.
  destruct S1 as (Hm1 & He1 & Hv1 & Hx1).
  pose proof (round_nearest_even_le (shr_m r1) (loc_of_shr_record r1)) as [Hr Hrx].
  set (m2 := round_nearest_even (shr_m r1) (loc_of_shr_record r1)) in *.
  assert (Hv2 : scaled m2 e1 <= scaled (Zpos mb) eb).
  { destruct (Z.eq_dec (scaled (shr_m r1) e1) (scaled (Zpos mb) eb)) as [Eq|Ne].
    - assert (loc_of_shr_record r1 = loc_Exact) as Hl.
      { destruct C as [C|[C1 C2]]; [lia|]. apply Hx1; [lia|exact C2]. }
      rewrite (Hrx Hl). lia.
    - assert (scaled (shr_m r1 + 1) e1 <= scaled (Zpos mb) eb)
        by (apply scaled_succ_le; lia).
      assert (0 < 2 ^ (e1 + 3000)) by (apply Z.pow_pos_nonneg; lia).
      unfold scaled in *. nia. }
  pose proof (shr_fexp_le m2 e1 loc_Exact mb eb ltac:(lia) ltac:(lia) Vb Hv2) as S2.
  cbv zeta in S2.
  destruct (shr_fexp prec emax m2 e1 loc_Exact) as [r2 e2]. cbn [fst snd] in S2.
  destruct S2 as (Hm3 & He2 & Hv3 & _).
  destruct (shr_m r2) as [|p|p] eqn:Em; [now left| |lia].
  right. exists p, e2.
  destruct (Z.leb_spec e2 (emax - prec)) as [_|Hgt];
    [|unfold emax, prec in Hgt; lia].
  split; [reflexivity|]. split; lia.
Qed.

Lemma scaled_mul m1 e1 m2 e2 :
  -3000 <= e1 -> -3000 <= e2 ->
  scaled m1 e1 * scaled m2 e2 = (m1 * m2) * 2 ^ (e1 + e2 + 6000).
Proof.
  intros H1 H2. unfold scaled.
  replace (e1 + e2 + 6000) with ((e1 + 3000) + (e2 + 3000)) by lia.
  rewrite (Z.pow_add_r 2 (e1 + 3000) (e2 + 3000)) by lia. ring.
Qed.

(** A quotient whose exact value is not above a double is not above it
    once it is rounded. *)
Lemma SFdiv_le sx mx ex sy my ey mb eb :
  valid_binary (S754_finite sx mx ex) = true ->
  valid_binary (S754_finite sy my ey) = true ->
  valid_binary (S754_finite false mb eb) = true ->
  scaled (Zpos mx) ex * 2 ^ 3000 <= scaled (Zpos mb) eb * scaled (Zpos my) ey ->
  SF64div (S754_finite sx mx ex) (S754_finite sy my ey) = S754_zero (xorb sx sy)
  \/ exists m' e',
       SF64div (S754_finite sx mx ex) (S754_finite sy my ey)
       = S754_finite (xorb sx sy) m' e'
       /\ scaled (Zpos m') e' <= scaled (Zpos mb) eb /\ e' <= eb.
Proof.
  intros Vx Vy Vb H.
  pose proof (valid_finite _ _ _ Vx) as (Hex & Hdx & _).
  pose proof (valid_finite _ _ _ Vy) as (Hey & Hdy & _).
  pose proof (valid_finite _ _ _ Vb) as (Heb & Hdb & _).
  unfold SF64div, SFdiv, SFdiv_core_binary. cbn [Zdigits2].
  set (dx := Zpos (digits2_pos mx)) in *.
  set (dy := Zpos (digits2_pos my)) in *.
  set (e' := Z.min (SpecFloat.fexp prec emax (dx + ex - (dy + ey))) (ex - ey)).
  set (s := ex - ey - e').
  assert (Hs : 0 <= s) by (unfold s, e'; lia).
  assert (He'l : -3000 <= e')
    by (unfold e', SpecFloat.fexp, SpecFloat.emin, prec, emax; lia).
  assert (He'y : -3000 <= e' + ey)
    by (unfold e', SpecFloat.fexp, SpecFloat.emin, prec, emax; lia).
  set (m' := match s with 0 => Zpos mx | Zpos _ => Z.shiftl (Zpos mx) s | Zneg _ => 0 end).
  assert (Hm' : m' = Zpos mx * 2 ^ s).
  { unfold m'. destruct s as [|p|p] eqn:Es; [lia| |lia].
    now rewrite Z.shiftl_mul_pow2 by lia. }
  pose proof (Z_div_mod m' (Zpos my) ltac:(lia)) as D.
  destruct (Z.div_eucl m' (Zpos my)) as [q r]. destruct D as [D R].
  assert (Hq : 0 <= q) by nia.
  (* the exact quotient, scaled *)
  assert (Hx : scaled m' e' * scaled 1 ey = scaled (Zpos mx) ex * 2 ^ 3000).
  { rewrite Hm', scaled_mul by lia. unfold scaled.
    replace (ex + 3000) with (s + (e' + ey + 3000)) by (unfold s; lia).
    rewrite (Z.pow_add_r 2 s) by lia.
    replace (e' + ey + 6000) with ((e' + ey + 3000) + 3000) by lia.
    rewrite (Z.pow_add_r 2 (e' + ey + 3000) 3000) by lia. ring. }
  assert (Py : 0 < scaled 1 ey) by (apply scaled_pos; lia).
  assert (Hyy : scaled (Zpos my) ey = Zpos my * scaled 1 ey)
    by (unfold scaled; ring).
  assert (Hqs : scaled m' e' = scaled q e' * Zpos my + scaled r e')
    by (unfold scaled; rewrite D; ring).
  assert (Hr : 0 <= scaled r e')
    by (unfold scaled; apply Z.mul_nonneg_nonneg; [lia|apply Z.pow_nonneg; lia]).
  assert (Hle : scaled q e' <= scaled (Zpos mb) eb).
  { rewrite Hyy in H. rewrite <- Hx, Hqs in H.
    assert (Pm : 0 < Zpos my) by lia.
    revert H Py Hr Pm. generalize (scaled q e') (scaled r e') (scaled (Zpos mb) eb)
      (scaled 1 ey) (Zpos my). intros Q Rr B Y M H Py Hr Pm.
    assert (H1 : (Q * M + Rr) * Y <= (B * M) * Y) by lia.
    apply Z.mul_le_mono_pos_r in H1; [|exact Py].
    assert (H2 : Q * M <= B * M) by lia.
    apply Z.mul_le_mono_pos_r in H2; [exact H2|exact Pm]. }
  assert (He'b : e' <= eb).
  { apply Z.le_trans with (SpecFloat.fexp prec emax (dx + ex - (dy + ey)));
      [unfold e'; lia|].
    assert (Fb : SpecFloat.fexp prec emax (Zpos (digits2_pos mb) + eb) = eb).
    { cbn [SpecFloat.valid_binary] in Vb. unfold bounded, canonical_mantissa in Vb.
      apply andb_prop in Vb as [Vb' _]. now apply Z.eqb_eq in Vb'. }
    apply Z.le_trans with (SpecFloat.fexp prec emax (Zpos (digits2_pos mb) + eb));
      [|lia].
    apply fexp_mono.
    (* [mx * 2^ex <= B * my * 2^ey < B * 2^(dy + ey)] *)
    pose proof (digits_bounds my) as [_ Uy]. fold dy in Uy.
    pose proof (digits_bounds mx) as [Lx _]. fold dx in Lx.
    pose proof (digits_bounds mb) as [_ Ub].
    set (db := Zpos (digits2_pos mb)) in *.
    assert (0 < dx) by (unfold dx; lia). assert (0 < dy) by (unfold dy; lia).
    assert (0 < db) by (unfold db; lia).
    assert (P : 2 ^ (dx - 1 + (ex + 3000) + 3000)
                < 2 ^ (db + (eb + 3000) + (dy + (ey + 3000)))).
    { rewrite (Z.pow_add_r 2 (db + (eb + 3000))) by lia.
      rewrite (Z.pow_add_r 2 (dx - 1 + (ex + 3000))) by lia.
      rewrite (Z.pow_add_r 2 (dx - 1)), (Z.pow_add_r 2 db), (Z.pow_add_r 2 dy)
        by lia.
      unfold scaled in H.
      assert (0 < 2 ^ (ex + 3000)) by (apply Z.pow_pos_nonneg; lia).
      assert (0 < 2 ^ (ey + 3000)) by (apply Z.pow_pos_nonneg; lia).
      assert (0 < 2 ^ (eb + 3000)) by (apply Z.pow_pos_nonneg; lia).
      assert (0 < 2 ^ 3000) by (apply Z.pow_pos_nonneg; lia).
      assert (0 < 2 ^ (dx - 1)) by (apply Z.pow_pos_nonneg; lia).
      assert (PX : 0 < Zpos mx) by lia. assert (PY : 0 < Zpos my) by lia.
      assert (PB : 0 < Zpos mb) by lia.
      revert H Lx Uy Ub H3 H4 H5 H6 H7 PX PY PB.
      generalize (2 ^ (ex + 3000)) (2 ^ (ey + 3000)) (2 ^ (eb + 3000)) (2 ^ 3000)
        (2 ^ (dx - 1)) (2 ^ dy) (2 ^ db) (Zpos mx) (Zpos my) (Zpos mb).
      intros Ex Ey Eb T Dx Dy Db X Y B H Lx Uy Ub PEx PEy PEb PT PDx PX PY PB.
      assert (H8 : Dx * Ex * T <= X * Ex * T).
      { apply Z.mul_le_mono_nonneg_r; [lia|].
        apply Z.mul_le_mono_nonneg_r; lia. }
      assert (H9 : B * Eb * (Y * Ey) < Db * Eb * (Dy * Ey)).
      { apply Z.mul_lt_mono_nonneg.
        - apply Z.mul_nonneg_nonneg; lia.
        - apply Z.mul_lt_mono_pos_r; lia.
        - apply Z.mul_nonneg_nonneg; lia.
        - apply Z.mul_lt_mono_pos_r; lia. }
      lia. }
    apply Z.pow_lt_mono_r_iff in P; lia. }
  apply binary_round_aux_le; [exact Hq|lia|exact Vb|].
  destruct (Z.eq_dec (scaled q e') (scaled (Zpos mb) eb)) as [Eq|Ne]; [|left; lia].
  right. split; [exact Eq|].
  assert (r = 0).
  { rewrite Hyy in H. rewrite <- Hx, Hqs, Eq in H.
    assert (scaled r e' * scaled 1 ey <= 0) by nia.
    assert (scaled r e' <= 0) by nia.
    unfold scaled in *.
    assert (0 < 2 ^ (e' + 3000)) by (apply Z.pow_pos_nonneg; lia). nia. }
  subst r. unfold new_location, new_location_even, new_location_odd.
  destruct (Z.even (Zpos my)); reflexivity.
Qed.

(** A product whose exact value is not above a double is not above it
    once it is rounded. *)
Lemma SFmul_le sx mx ex sy my ey mb eb :
  valid_binary (S754_finite sx mx ex) = true ->
  valid_binary (S754_finite sy my ey) = true ->
  valid_binary (S754_finite false mb eb) = true ->
  ex + ey <= eb ->
  scaled (Zpos mx) ex * scaled (Zpos my) ey <= scaled (Zpos mb) eb * 2 ^ 3000 ->
  SF64mul (S754_finite sx mx ex) (S754_finite sy my ey) = S754_zero (xorb sx sy)
  \/ exists m' e',
       SF64mul (S754_finite sx mx ex) (S754_finite sy my ey)
       = S754_finite (xorb sx sy) m' e'
       /\ scaled (Zpos m') e' <= scaled (Zpos mb) eb /\ e' <= eb.
Proof.
  intros Vx Vy Vb He H.
  pose proof (valid_finite _ _ _ Vx) as (Hex & _ & _).
  pose proof (valid_finite _ _ _ Vy) as (Hey & _ & _).
  unfold SF64mul, SFmul.
  apply binary_round_aux_le; [lia|lia|exact Vb|].
  assert (E : scaled (Zpos (mx * my)) (ex + ey) * 2 ^ 3000
              = scaled (Zpos mx) ex * scaled (Zpos my) ey).
  { rewrite scaled_mul by lia. unfold scaled.
    replace (ex + ey + 6000) with ((ex + ey + 3000) + 3000) by lia.
    rewrite (Z.pow_add_r 2 (ex + ey + 3000) 3000) by lia.
    rewrite Pos2Z.inj_mul. ring. }
  assert (0 < 2 ^ 3000) by (apply Z.pow_pos_nonneg; lia).
  destruct (Z.eq_dec (scaled (Zpos (mx * my)) (ex + ey)) (scaled (Zpos mb) eb))
    as [Eq|Ne]; [right; now split|left]. nia.
Qed.

Lemma pow2_value q n : Zpos (pow2 q n) = Zpos q * 2 ^ Z.of_nat n.
Proof.
  induction n as [|n IH]; [cbn; lia|].
  cbn [pow2]. rewrite Pos2Z.inj_xO, IH, Nat2Z.inj_succ, Z.pow_succ_r by lia. ring.
Qed.

(** The double of a positive integer below 2^53, and its value. *)
Lemma Prim2SF_of_Z_finite p :
  Zpos p < 2 ^ 53 ->
  let d := Zpos (digits2_pos p) in
  Prim2SF (of_Z (Zpos p)) = S754_finite false (pow2 p (Z.to_nat (53 - d))) (d - 53)
  /\ scaled (Zpos (pow2 p (Z.to_nat (53 - d)))) (d - 53) = Zpos p * 2 ^ 3000.
Proof.
  intros Hp d. pose proof (digits_le_53 p Hp) as Hd. fold d in Hd.
  assert (0 < d) by (unfold d; lia).
  split.
  - unfold of_Z. cbn [binary_normalize].
    rewrite binary_round_short by (fold d; lia). fold d.
    replace (0 - (53 - d)) with (d - 53) by lia.
    apply Prim2SF_SF2Prim.
    cbn [SpecFloat.valid_binary]. unfold bounded, canonical_mantissa.
    rewrite digits_pow2. fold d.
    unfold SpecFloat.fexp, SpecFloat.emin, prec, emax.
    apply andb_true_intro. split; [apply Z.eqb_eq|apply Z.leb_le]; lia.
  - rewrite pow2_value. unfold scaled. rewrite Z2Nat.id by lia.
    rewrite <- Z.mul_assoc, <- Z.pow_add_r by lia. do 2 f_equal. lia.
Qed.

(** The doubles 1, 5, 100 and 500, scaled. *)
Lemma scaled_1 : scaled (Zpos 4503599627370496) (-52) = 1 * 2 ^ 3000.
Proof. vm_compute. reflexivity. Qed.

Lemma scaled_5 : scaled (Zpos 5629499534213120) (-50) = 5 * 2 ^ 3000.
Proof. vm_compute. reflexivity. Qed.

Lemma scaled_100 : scaled (Zpos percent_bound) (-46) = 100 * 2 ^ 3000.
Proof. vm_compute. reflexivity. Qed.

Lemma scaled_500 : scaled (Zpos 8796093022208000) (-44) = 500 * 2 ^ 3000.
Proof. vm_compute. reflexivity. Qed.

Lemma pow_3000_pos : 0 < 2 ^ 3000.
Proof. apply Z.pow_pos_nonneg; lia. Qed.

(** [Math.round] of a double between 0 and a whole number is a whole
    number between them. *)
Lemma Math_round_le x m e k :
  Prim2SF x = S754_finite false m e -> e < 0 -> 0 <= k ->
  scaled (Zpos m) e <= k * 2 ^ 3000 ->
  exists r, 0 <= r <= k /\ Math_round x = of_Z r.
Proof.
  intros E He Hk H. unfold Math_round. rewrite E.
  destruct (Z.leb_spec 0 e) as [|_]; [lia|]. cbv zeta. cbn [cond_Zopp].
  pose proof (round_half_up_nearest (Zpos m) e He) as [L U].
  set (r := round_half_up (Zpos m) e) in *.
  assert (Hv : -3000 <= e).
  { pose proof (Prim2SF_valid x) as V. rewrite E in V.
    apply valid_finite in V. lia. }
  assert (Hr : 0 <= r <= k).
  { unfold scaled in H.
    replace (2 ^ 3000) with (2 ^ (- e) * 2 ^ (e + 3000)) in H
      by (rewrite <- Z.pow_add_r by lia; f_equal; lia).
    assert (P1 : 0 < 2 ^ (- e)) by (apply Z.pow_pos_nonneg; lia).
    assert (P2 : 0 < 2 ^ (e + 3000)) by (apply Z.pow_pos_nonneg; lia).
    assert (Hm : Zpos m <= k * 2 ^ (- e)).
    { rewrite Z.mul_assoc in H. apply Z.mul_le_mono_pos_r in H; assumption. }
    assert (PM : 0 < Zpos m) by lia.
    revert L U Hm P1 PM. generalize (2 ^ (- e)) (Zpos m). intros A M L U Hm P1 PM.
    split; nia. }
  exists r. split; [exact Hr|].
  destruct (Z.eqb_spec r 0) as [->|_]; reflexivity.
Qed.

(** The percentage of a part in a whole is a whole number from 0 to 100. *)
Lemma percent_range (r t : Z) :
  0 <= r <= t -> 0 < t < 2 ^ 53 ->
  exists k, 0 <= k <= 100 /\ Math_round (of_Z r / of_Z t * 100)%float = of_Z k.
Proof.
  intros Hr Ht.
  destruct t as [|pt|pt]; try lia.
  destruct (Prim2SF_of_Z_finite pt ltac:(lia)) as [Et Vt]. cbv zeta in Et, Vt.
  set (mt := pow2 pt _) in *. set (et := Zpos (digits2_pos pt) - 53) in *.
  pose proof (Prim2SF_valid (of_Z (Zpos pt))) as Valt. rewrite Et in Valt.
  pose proof pow_3000_pos as P3.
  assert (Q : Prim2SF (of_Z r / of_Z (Zpos pt)) = S754_zero false
              \/ exists m e, Prim2SF (of_Z r / of_Z (Zpos pt)) = S754_finite false m e
                   /\ scaled (Zpos m) e <= 1 * 2 ^ 3000 /\ e <= -52).
  { rewrite div_spec, Et.
    destruct r as [|pr|pr]; try lia; [left; reflexivity|].
    destruct (Prim2SF_of_Z_finite pr ltac:(lia)) as [Er Vr]. cbv zeta in Er, Vr.
    set (mr := pow2 pr _) in *. set (er := Zpos (digits2_pos pr) - 53) in *.
    pose proof (Prim2SF_valid (of_Z (Zpos pr))) as Valr. rewrite Er in Valr.
    rewrite Er. rewrite <- scaled_1.
    apply (SFdiv_le false mr er false mt et 4503599627370496 (-52) Valr Valt
             eq_refl).
    rewrite Vr, Vt, scaled_1.
    revert P3. generalize (2 ^ 3000). intros T P3. nia. }
  assert (P : Prim2SF (of_Z r / of_Z (Zpos pt) * 100) = S754_zero false
              \/ exists m e,
                   Prim2SF (of_Z r / of_Z (Zpos pt) * 100) = S754_finite false m e
                   /\ scaled (Zpos m) e <= 100 * 2 ^ 3000 /\ e <= -46).
  { rewrite mul_spec.
    change (Prim2SF 100) with (S754_finite false percent_bound (-46)).
    destruct Q as [->|(m & e & E & Hs & He)]; [left; reflexivity|].
    pose proof (Prim2SF_valid (of_Z r / of_Z (Zpos pt))) as Vq. rewrite E in Vq.
    rewrite E. rewrite <- scaled_100.
    apply (SFmul_le false m e false percent_bound (-46) percent_bound (-46)
             Vq eq_refl eq_refl ltac:(lia)).
    rewrite scaled_100.
    revert Hs P3. generalize (2 ^ 3000) (scaled (Zpos m) e). intros T Sm Hs P3.
    nia. }
  destruct P as [P|(m & e & P & Hs & He)].
  - exists 0. split; [lia|]. unfold Math_round. rewrite P.
    apply Prim2SF_inj. rewrite P. reflexivity.
  - apply (Math_round_le _ m e 100 P); lia.
Qed.

(** ** The ranges of the statistics *)

Lemma scaled_rank m e :
  -1074 <= e ->
  scaled (Zpos m) e = rank (S754_finite false m e) * 2 ^ 1926.
Proof.
  intros He. cbn [rank cond_Zopp]. unfold scaled.
  replace (e + 3000) with ((e + 1074) + 1926) by lia.
  rewrite (Z.pow_add_r 2 (e + 1074) 1926) by lia. ring.
Qed.

Lemma rank_of_Z z :
  0 <= z < 2 ^ 53 ->
  is_nan (of_Z z) = false /\ rank (Prim2SF (of_Z z)) = z * 2 ^ 1074.
Proof.
  intros Hz. destruct z as [|p|p]; try lia.
  - split; reflexivity.
  - destruct (Prim2SF_of_Z_finite p ltac:(lia)) as [E V]. cbv zeta in E, V.
    split; [apply is_nan_Prim2SF; rewrite E; discriminate|].
    rewrite E.
    pose proof (Prim2SF_valid (of_Z (Zpos p))) as Val. rewrite E in Val.
    apply valid_finite in Val as (He & _).
    rewrite scaled_rank in V by lia.
    assert (P : 0 < 2 ^ 1926) by (apply Z.pow_pos_nonneg; lia).
    replace (2 ^ 3000) with (2 ^ 1074 * 2 ^ 1926) in V
      by (rewrite <- Z.pow_add_r by lia; reflexivity).
    rewrite Z.mul_assoc in V. apply Z.mul_cancel_r in V; [exact V|lia].
Qed.

Lemma between_0_and_leb k x (b : number) :
  between_0_and k x ->
  0 <= k -> rank (Prim2SF b) = k * 2 ^ 1074 -> is_nan b = false ->
  (0 <=? x)%float = true /\ (x <=? b)%float = true.
Proof.
  intros H Hk Hb Nb.
  assert (Nx : is_nan x = false)
    by (apply is_nan_Prim2SF; destruct H as [->|(m & e & -> & _)]; discriminate).
  rewrite !leb_rank by (try assumption; reflexivity).
  change (rank (Prim2SF 0)) with 0. rewrite Hb.
  assert (P : 0 < 2 ^ 1074) by (apply Z.pow_pos_nonneg; lia).
  destruct H as [->|(m & e & E & Hs)]; cbn [rank].
  - split; apply Z.leb_le; nia.
  - pose proof (Prim2SF_valid x) as V. rewrite E in V.
    pose proof (rank_finite_pos m e V) as [Pr _].
    apply valid_finite in V as (He & _).
    rewrite E. cbn [rank cond_Zopp].
    rewrite scaled_rank in Hs by lia. cbn [rank cond_Zopp] in Hs.
    replace (2 ^ 3000) with (2 ^ 1074 * 2 ^ 1926) in Hs
      by (rewrite <- Z.pow_add_r by lia; reflexivity).
    rewrite Z.mul_assoc in Hs.
    apply Z.mul_le_mono_pos_r in Hs; [|apply Z.pow_pos_nonneg; lia].
    split; apply Z.leb_le; lia.
Qed.

(** X7. On a diary shorter than 2^32, [rewatchPct] is a whole number from
    0 to 100, and it is 0 on the empty diary. *)
Theorem rewatchPct_whole_percent (entries : list DiaryEntry) :
  Z.of_nat (length entries) < 2 ^ 32 ->
  (exists k,
     0 <= k <= 100
     /\ rewatchPct (calculateStats entries) = of_Z k
     /\ ge (rewatchPct (calculateStats entries)) 0%float = true
     /\ ge 100%float (rewatchPct (calculateStats entries)) = true)
  /\ (entries = [] -> rewatchPct (calculateStats entries) = 0%float).
Proof.
  intros Hlen. split; [|intros ->; reflexivity].
  assert (R : exists k, 0 <= k <= 100
                /\ rewatchPct (calculateStats entries) = of_Z k).
  { destruct entries as [|e entries]; [exists 0; split; [lia|reflexivity]|].
    pose proof (filter_length_le is_rewatch (e :: entries)) as Hle.
    unfold calculateStats, of_nat; cbn [rewatchPct].
    change (0 <? length (e :: entries))%nat with true. cbv iota.
    assert (2 ^ 32 < 2 ^ 53) by reflexivity.
    apply percent_range; cbn [length] in *; lia. }
  destruct R as (k & Hk & E). exists k. split; [exact Hk|]. split; [exact E|].
  rewrite E. unfold ge.
  assert (2 ^ 7 < 2 ^ 53) by reflexivity. change (2 ^ 7) with 128 in *.
  destruct (rank_of_Z k ltac:(lia)) as [Nk Rk].
  rewrite !leb_rank by (try assumption; reflexivity). rewrite Rk.
  change (rank (Prim2SF 0)) with 0.
  change (rank (Prim2SF 100)) with (100 * 2 ^ 1074).
  assert (P : 0 < 2 ^ 1074) by (apply Z.pow_pos_nonneg; lia).
  split; apply Z.leb_le; nia.
Qed.

Lemma rewatchPct_whole_percent_witness :
  exists k, 0 <= k <= 100 /\ rewatchPct (calculateStats twenty_nine_of_200) = of_Z k.
Proof.
  destruct (rewatchPct_whole_percent twenty_nine_of_200 eq_refl)
    as [(k & Hk & E & _) _].
  exists k. split; [exact Hk|exact E].
Defined.

Lemma scaled_half_units k :
  Zpos k < 2 ^ 53 ->
  match half_units k with
  | S754_finite _ m e => scaled (Zpos m) e = Zpos k * 2 ^ 2999
  | _ => False
  end.
Proof.
  intros Hk. pose proof (digits_le_53 k Hk) as Hd. unfold half_units.
  set (d := Zpos (digits2_pos k)) in *.
  assert (0 < d) by (unfold d; lia).
  rewrite pow2_value. unfold scaled. rewrite Z2Nat.id by lia.
  rewrite <- Z.mul_assoc, <- Z.pow_add_r by lia. do 2 f_equal. lia.
Qed.

(** The mean of ratings on the scale, rounded to two decimals, is between
    0 and 5. *)
Lemma round_2dp_mean_range ks :
  ks <> [] -> Forall (fun k => 1 <= k <= 10) ks ->
  Z.of_nat (length ks) < 2 ^ 32 ->
  between_0_and 5 (round_2dp (mean (map half ks))).
Proof.
  intros Hne Hks Hlen.
  assert (HK : Z.of_nat (length ks) <= fold_right Z.add 0 ks
               <= 10 * Z.of_nat (length ks)).
  { clear Hne Hlen.
    induction Hks as [|k ks Hk _ IH]; cbn [fold_right length]; lia. }
  set (K := fold_right Z.add 0 ks) in *.
  set (n := Z.of_nat (length ks)) in *.
  assert (Hn : 0 < n) by (unfold n; destruct ks; [congruence|cbn; lia]).
  assert (2 ^ 32 * 10 < 2 ^ 53) by reflexivity.
  assert (S : sum (map half ks) = half K).
  { unfold sum. change 0%float with (half 0).
    rewrite sum_halves; try lia; [reflexivity|exact Hks]. }
  unfold round_2dp, mean. rewrite S, length_map. unfold of_nat. fold n.
  (* the quotient *)
  destruct K as [|pK|pK] eqn:EK; try lia.
  destruct n as [|pn|pn] eqn:En; try lia.
  destruct (Prim2SF_of_Z_finite pn ltac:(lia)) as [Et Vt]. cbv zeta in Et, Vt.
  set (mt := pow2 pn _) in *. set (et := Zpos (digits2_pos pn) - 53) in *.
  pose proof (Prim2SF_valid (of_Z (Zpos pn))) as Valt. rewrite Et in Valt.
  pose proof (Prim2SF_valid (half (Zpos pK))) as ValK.
  rewrite Prim2SF_half in ValK by lia.
  pose proof (scaled_half_units pK ltac:(lia)) as VK.
  pose proof pow_3000_pos as P3.
  assert (P29 : 2 ^ 3000 = 2 * 2 ^ 2999)
    by (rewrite <- Z.pow_succ_r by lia; reflexivity).
  assert (Q : Prim2SF (half (Zpos pK) / of_Z (Zpos pn)) = S754_zero false
              \/ exists m e,
                   Prim2SF (half (Zpos pK) / of_Z (Zpos pn)) = S754_finite false m e
                   /\ scaled (Zpos m) e <= 5 * 2 ^ 3000 /\ e <= -50).
  { rewrite div_spec, Et, Prim2SF_half by lia.
    unfold half_units in *.
    set (mK := pow2 pK _) in *. set (eK := Zpos (digits2_pos pK) - 54) in *.
    rewrite <- scaled_5.
    apply (SFdiv_le false mK eK false mt et 5629499534213120 (-50) ValK Valt
             eq_refl).
    rewrite VK, Vt, scaled_5.
    revert P3 P29. generalize (2 ^ 3000) (2 ^ 2999). intros T T' P3 P29. nia. }
  set (q := (half (Zpos pK) / of_Z (Zpos pn))%float) in *.
  assert (P : Prim2SF (q * 100) = S754_zero false
              \/ exists m e,
                   Prim2SF (q * 100) = S754_finite false m e
                   /\ scaled (Zpos m) e <= 500 * 2 ^ 3000 /\ e <= -44).
  { rewrite mul_spec.
    change (Prim2SF 100) with (S754_finite false percent_bound (-46)).
    destruct Q as [->|(m & e & E & Hs & He)]; [left; reflexivity|].
    pose proof (Prim2SF_valid q) as Vq. rewrite E in Vq. rewrite E.
    rewrite <- scaled_500.
    apply (SFmul_le false m e false percent_bound (-46) 8796093022208000 (-44)
             Vq eq_refl eq_refl ltac:(lia)).
    rewrite scaled_100, scaled_500.
    revert Hs P3. generalize (2 ^ 3000) (scaled (Zpos m) e). intros T Sm Hs P3.
    nia. }
  assert (R : exists r, 0 <= r <= 500 /\ Math_round (q * 100)%float = of_Z r).
  { destruct P as [P|(m & e & P & Hs & He)].
    - exists 0. split; [lia|]. unfold Math_round. rewrite P.
      apply Prim2SF_inj. rewrite P. reflexivity.
    - apply (Math_round_le _ m e 500 P); lia. }
  destruct R as (r & Hr & ER). rewrite ER.
  unfold between_0_and. rewrite div_spec.
  change (Prim2SF 100) with (S754_finite false percent_bound (-46)).
  destruct r as [|pr|pr]; try lia; [left; reflexivity|].
  assert (2 ^ 9 < 2 ^ 53) by reflexivity. change (2 ^ 9) with 512 in *.
  destruct (Prim2SF_of_Z_finite pr ltac:(lia)) as [Er Vr]. cbv zeta in Er, Vr.
  set (mr := pow2 pr _) in *. set (er := Zpos (digits2_pos pr) - 53) in *.
  pose proof (Prim2SF_valid (of_Z (Zpos pr))) as Valr. rewrite Er in Valr.
  rewrite Er.
  destruct (SFdiv_le false mr er false percent_bound (-46) 5629499534213120 (-50)
              Valr eq_refl eq_refl) as [Z|(m & e & Z & Hs & He)].
  - rewrite Vr, scaled_100, scaled_5.
    revert P3. generalize (2 ^ 3000). intros T P3. nia.
  - left. exact Z.
  - right. exists m, e. split; [exact Z|]. rewrite <- scaled_5. exact Hs.
Qed.

(** X8. On a diary shorter than 2^32 whose ratings are on the half-step
    scale from 0.5 to 5.0 (or null), [avgRating] is a number from 0 to 5. *)
Theorem avgRating_between_0_and_5 (entries : list DiaryEntry) :
  Forall on_scale entries ->
  Z.of_nat (length entries) < 2 ^ 32 ->
  ge (avgRating (calculateStats entries)) 0%float = true
  /\ ge 5%float (avgRating (calculateStats entries)) = true.
Proof.
  intros Hscale Hlen. rewrite avgRating_of_ratings.
  pose proof (rated_ratings_length entries) as Hle.
  destruct (halves_of_scale _ (rated_ratings_on_scale _ Hscale))
    as (ks & Eks & Hks).
  rewrite Eks in Hle |- *. rewrite length_map in Hle.
  destruct ks as [|k ks]; [split; reflexivity|].
  cbn [map]. change (half k :: map half ks) with (map half (k :: ks)).
  unfold ge.
  apply (between_0_and_leb 5); try reflexivity; [|lia].
  apply round_2dp_mean_range; [discriminate|exact Hks|lia].
Qed.

Lemma avgRating_between_0_and_5_witness :
  ge (avgRating (calculateStats fours_and_a_halves)) 0%float = true
  /\ ge 5%float (avgRating (calculateStats fours_and_a_halves)) = true.
Proof.
  apply avgRating_between_0_and_5.
  - repeat (apply Forall_cons;
            [cbn; repeat first [exact I | left; reflexivity | right]|]).
    apply Forall_nil.
  - reflexivity.
Defined.

(** ** The statistics and the archetype *)

(** X11. On the statistics [calculateStats] computes from a diary shorter
    than 2^32, the archetype is the marathoner exactly when the diary has
    100 entries or more. *)
Theorem classifyArchetype_marathoner_iff (entries : list DiaryEntry) :
  Z.of_nat (length entries) < 2 ^ 32 ->
  id (classifyArchetype entries (calculateStats entries)) = "marathoner"%string
  <-> (100 <= length entries)%nat.
Proof.
  intros Hlen. unfold classifyArchetype. cbv zeta.
  assert (2 ^ 32 < 2 ^ 53) by reflexivity.
  assert (G : ge (totalFilms (calculateStats entries)) 100%float
              = (100 <=? Z.of_nat (length entries))).
  { cbn [calculateStats totalFilms]. unfold ge, of_nat.
    destruct (rank_of_Z (Z.of_nat (length entries)) ltac:(lia)) as [N R].
    rewrite leb_rank by (try assumption; reflexivity). rewrite R.
    change (rank (Prim2SF 100)) with (100 * 2 ^ 1074).
    assert (P : 0 < 2 ^ 1074) by (apply Z.pow_pos_nonneg; lia).
    destruct (Z.leb_spec 100 (Z.of_nat (length entries)));
      [apply Z.leb_le|apply Z.leb_gt]; nia. }
  rewrite G.
  destruct (Z.leb_spec 100 (Z.of_nat (length entries))) as [Hge|Hlt].
  - split; [lia|reflexivity].
  - split; [|lia]. intros Hid. exfalso.
    assert (I : forall i,
              id (archetype_at entries (calculateStats entries) i)
              = nth i archetype_ids EmptyString).
    { intros i. unfold archetype_at.
      now rewrite <- (archetypes_ids entries (calculateStats entries)),
        <- (map_nth id). }
    repeat match type of Hid with
           | context [if ?b then _ else _] => destruct b
           end; rewrite I in Hid; discriminate Hid.
Qed.

Lemma classifyArchetype_marathoner_iff_witness :
  id (classifyArchetype twenty_nine_of_200 (calculateStats twenty_nine_of_200))
  = "marathoner"%string.
Proof.
  apply (classifyArchetype_marathoner_iff twenty_nine_of_200); [reflexivity|].
  apply Nat.leb_le. reflexivity.
Defined.

Section PipelineRatio.
Variable env : DateEnv.
Variable Papa_parse : string -> list RawRecord.

(** X12. The division [classifyArchetype] does without a guard never has a
    zero divisor when the page calls it: the handler has thrown unless five
    entries or more are left, so the ratio is not NaN, and the rate the
    evidence line shows is [rewatchPct]. *)
Theorem handleFileSelect_ratio_defined (diaryContent : string)
    (data : WrappedData) :
  handleFileSelect env Papa_parse diaryContent = Computed data ->
  Z.of_nat (length (Page.entries data)) < 2 ^ 32 ->
  (5 <= length (Page.entries data))%nat
  /\ stats data = calculateStats (Page.entries data)
  /\ archetype data = classifyArchetype (Page.entries data) (stats data)
  /\ isNaN (rewatchRatio (stats data)) = false
  /\ Math_round (rewatchRatio (stats data) * 100)%float = rewatchPct (stats data).
Proof.
  unfold handleFileSelect, analyse. intros H Hlen.
  destruct (length (parseCSV Papa_parse diaryContent) =? 0)%nat; [discriminate H|].
  set (year := detectTargetYear env _) in *.
  set (filtered := filterByYear env _ year) in *.
  destruct (Nat.ltb_spec (length filtered) 5) as [|Hge]; [discriminate H|].
  injection H as <-. cbn [Page.entries stats archetype] in *.
  split; [exact Hge|]. split; [reflexivity|]. split; [reflexivity|].
  assert (2 ^ 32 < 2 ^ 53) by reflexivity.
  pose proof (filter_length_le is_rewatch filtered) as Hr.
  split.
  - unfold rewatchRatio, isNaN, calculateStats, of_nat.
    cbn [rewatches totalFilms].
    apply is_nan_Prim2SF. rewrite div_spec.
    destruct (Prim2SF_of_Z_pos (Z.of_nat (length filtered)) ltac:(lia))
      as (s & m & e & ->).
    apply SFdiv_not_nan.
    destruct (Prim2SF_of_Z (Z.of_nat (length (filter is_rewatch filtered))))
      as [Z|(s' & m' & e' & Z)]; [lia| |]; rewrite Z; discriminate.
  - unfold rewatchRatio, calculateStats.
    cbn [rewatches totalFilms rewatchPct].
    destruct filtered as [|e l]; [cbn in Hge; lia|reflexivity].
Qed.

End PipelineRatio.

Lemma handleFileSelect_ratio_defined_witness :
  exists data,
    handleFileSelect utc (fun _ => five_rows) "Date,Name,Year,Rating"
    = Computed data
    /\ isNaN (rewatchRatio (stats data)) = false.
Proof.
  eexists. split; [vm_compute; reflexivity|].
  eapply (handleFileSelect_ratio_defined utc (fun _ => five_rows)
            "Date,Name,Year,Rating"); [vm_compute; reflexivity|reflexivity].
Defined.

(** ** Whole numbers *)

Lemma binary_round_aux_round s m e :
  e <= SpecFloat.fexp prec emax (Zpos (digits2_pos m) + e) ->
  binary_round_aux prec emax s (Zpos m) e loc_Exact = binary_round prec emax s m e.
Proof.
  intros H. unfold binary_round, shl_align.
  destruct (SpecFloat.fexp prec emax (Zpos (digits2_pos m) + e) - e) eqn:E;
    try reflexivity; lia.
Qed.

Lemma pow2_mul a n m : (pow2 a n * pow2 1 m)%positive = pow2 a (n + m).
Proof.
  induction m as [|m IH].
  - cbn [pow2]. now rewrite Pos.mul_1_r, Nat.add_0_r.
  - cbn [pow2]. rewrite Pos.mul_xO_r, IH, Nat.add_succ_r. reflexivity.
Qed.

Lemma pow2_xO p n : pow2 (xO p) n = pow2 p (S n).
Proof. induction n as [|n IH]; [reflexivity|]. cbn [pow2] in *. now rewrite IH. Qed.

(** Doubling a whole number below 2^52 is exact. *)
Lemma mul_2_exact z :
  0 <= z < 2 ^ 52 -> (of_Z z * 2)%float = of_Z (2 * z).
Proof.
  intros Hz. destruct z as [|p|p]; try lia; [reflexivity|].
  apply Prim2SF_inj. rewrite mul_spec.
  assert (2 ^ 52 < 2 ^ 53) by reflexivity.
  destruct (Prim2SF_of_Z_finite p ltac:(lia)) as [E _]. cbv zeta in E.
  change (2 * Zpos p) with (Zpos p~0).
  assert (Hp2 : Zpos p~0 < 2 ^ 53)
    by (rewrite Pos2Z.inj_xO; change (2 ^ 53) with (2 * 2 ^ 52); lia).
  destruct (Prim2SF_of_Z_finite (p~0) Hp2) as [E2 _]. cbv zeta in E2.
  rewrite E, E2.
  change (Prim2SF 2) with (S754_finite false (pow2 1 52) (-51)).
  unfold SF64mul, SFmul. cbn [xorb].
  pose proof (digits_le_53 p ltac:(lia)) as Hd.
  set (d := Zpos (digits2_pos p)) in *.
  assert (0 < d) by (unfold d; lia).
  assert (Hd2 : Zpos (digits2_pos p~0) = d + 1)
    by (cbn [digits2_pos]; rewrite Pos2Z.inj_succ; unfold d; lia).
  rewrite Hd2.
  assert (Hd52 : d <= 52).
  { pose proof (digits_le_53 (p~0) Hp2). lia. }
  rewrite pow2_mul.
  rewrite binary_round_aux_round.
  2:{ rewrite digits_pow2. fold d.
      unfold SpecFloat.fexp, SpecFloat.emin, prec, emax. lia. }
  rewrite binary_round_exact; fold d; try lia.
  rewrite pow2_xO. f_equal.
  - f_equal. lia.
  - lia.
Qed.

(** [Math.round] leaves a whole number below 2^53 as it is. *)
Lemma Math_round_of_Z z :
  0 <= z < 2 ^ 53 -> Math_round (of_Z z) = of_Z z.
Proof.
  intros Hz. destruct z as [|p|p]; try lia; [reflexivity|].
  destruct (Prim2SF_of_Z_finite p ltac:(lia)) as [E _]. cbv zeta in E.
  unfold Math_round. rewrite E.
  pose proof (digits_le_53 p ltac:(lia)) as Hd.
  set (d := Zpos (digits2_pos p)) in *.
  assert (0 < d) by (unfold d; lia).
  destruct (Z.leb_spec 0 (d - 53)) as [|Hlt]; [reflexivity|].
  cbv zeta. cbn [cond_Zopp].
  assert (R : round_half_up (Zpos (pow2 p (Z.to_nat (53 - d)))) (d - 53) = Zpos p).
  { unfold round_half_up. rewrite pow2_value, Z2Nat.id by lia.
    replace (- (d - 53)) with (53 - d) by lia.
    replace (1 - (d - 53)) with (Z.succ (53 - d)) by lia.
    rewrite Z.pow_succ_r by lia.
    assert (P : 0 < 2 ^ (53 - d)) by (apply Z.pow_pos_nonneg; lia).
    replace (2 * (Zpos p * 2 ^ (53 - d)) + 2 ^ (53 - d))
      with ((2 * Zpos p + 1) * 2 ^ (53 - d)) by ring.
    rewrite Z.div_mul_cancel_r by lia.
    symmetry. apply (Z.div_unique _ _ _ 1); lia. }
  rewrite R. reflexivity.
Qed.

(** X9. The counts of [calculateStats] on a diary shorter than 2^32:
    [totalHours] is exactly twice [totalFilms]; [uniqueFilms] is the number
    of distinct names, that is the length of every list that holds each
    name of the diary once and nothing else; it is at most [totalFilms], at
    least 1 on a diary that is not empty, and equal to [totalFilms] exactly
    when no name occurs twice; [rewatches] is at most [totalFilms]. *)
Theorem calculateStats_counts (entries : list DiaryEntry) :
  Z.of_nat (length entries) < 2 ^ 32 ->
  let s := calculateStats entries in
  let n := length entries in
  totalFilms s = of_nat n
  /\ totalHours s = of_nat (2 * n)
  /\ (exists names,
        NoDup names
        /\ (forall name, In name names <-> exists e, In e entries /\ Name e = name)
        /\ uniqueFilms s = of_nat (length names)
        /\ (length names <= n)%nat
        /\ (entries <> [] -> (1 <= length names)%nat)
        /\ (length names = n <-> NoDup (map Name entries)))
  /\ (forall names,
        NoDup names ->
        (forall name, In name names <-> exists e, In e entries /\ Name e = name) ->
        uniqueFilms s = of_nat (length names))
  /\ exists r, rewatches s = of_nat r /\ (r <= n)%nat.
Proof.
  intros Hlen. cbv zeta.
  pose proof (NoDup_nodup string_dec (map Name entries)) as Hnd.
  assert (Hin : forall name,
            In name (nodup string_dec (map Name entries))
            <-> exists e, In e entries /\ Name e = name).
  { intros name. rewrite nodup_In, in_map_iff. split.
    - intros (e & E & He). now exists e.
    - intros (e & He & E). now exists e. }
  split; [reflexivity|]. split; [|split; [|split]].
  - cbn [calculateStats totalHours]. unfold of_nat.
    assert (2 ^ 32 < 2 ^ 52) by reflexivity.
    assert (2 ^ 52 < 2 ^ 53) by reflexivity.
    rewrite mul_2_exact by lia. rewrite Math_round_of_Z by lia.
    f_equal. lia.
  - exists (nodup string_dec (map Name entries)).
    split; [exact Hnd|]. split; [exact Hin|]. split; [reflexivity|].
    assert (Hincl : incl (nodup string_dec (map Name entries)) (map Name entries))
      by (intros x; apply nodup_In).
    pose proof (NoDup_incl_length Hnd Hincl) as Hle.
    rewrite length_map in Hle.
    split; [exact Hle|]. split.
    + intros Hne. destruct entries as [|e entries]; [congruence|].
      assert (Hi : In (Name e) (nodup string_dec (map Name (e :: entries))))
        by (apply nodup_In; now left).
      destruct (nodup string_dec (map Name (e :: entries))); [destruct Hi|cbn; lia].
    + split.
      * intros Heq.
        apply (NoDup_incl_NoDup (l := nodup string_dec (map Name entries)));
          [exact Hnd|rewrite length_map; lia|].
        intros x. apply nodup_In.
      * intros H. rewrite nodup_fixed_point by exact H. apply length_map.
  - intros names Hn Hnames. cbn [calculateStats uniqueFilms]. f_equal.
    apply Permutation_length, NoDup_Permutation; [exact Hnd|exact Hn|].
    intros name. now rewrite Hin, Hnames.
  - exists (length (filter is_rewatch entries)).
    split; [reflexivity|apply filter_length_le].
Qed.

Lemma calculateStats_counts_witness :
  totalHours (calculateStats twenty_nine_of_200) = of_nat 400.
Proof.
  apply (calculateStats_counts twenty_nine_of_200). reflexivity.
Defined.

(** ** Arithmetic on whole numbers *)









(** ** The shares of the genres *)












Lemma map_combine_seq {A B : Type} (f : nat -> A -> B) (g : B -> nat) (l : list A) :
  (forall i x, g (f i x) = i) ->
  forall start,
    map g (map (fun p => f (fst p) (snd p)) (combine (seq start (length l)) l))
    = seq start (length l).
Proof.
  intros H. induction l as [|x l IH]; intros start; [reflexivity|].
  cbn [length seq combine map fst snd]. now rewrite H, IH.
Qed.





(** Three genres with one film each: the shares round to 33, 33 and 33, and
    the first of them takes the missing point. *)
Example thirds_sum_to_100 :
  map percentage
    (assignGenreColors (map (fun g => (fst g, of_nat (snd g))) three_genres) 0%float)
  = [34; 33; 33]%float.
Proof. vm_compute. reflexivity. Qed.

(** Counts that are all 0 leave every percentage NaN: the total is 0, and
    no element of the array equals the maximum. *)
Example no_films_no_shares :
  map (fun g => isNaN (percentage g))
    (assignGenreColors [("Drama", 0); ("Horror", 0)]%string%float 0%float)
  = [true; true].
Proof. vm_compute. reflexivity. Qed.

(** ** Sorting by an order *)

Section SortedByOrder.
Context {A : Type} (cmp : A -> A -> Z) (before : A -> A -> Prop) (P : A -> Prop).
Hypothesis cmp_le : forall x y, P x -> P y -> cmp x y <= 0 -> before x y.
Hypothesis cmp_gt : forall x y, P x -> P y -> 0 < cmp x y -> before y x.
Hypothesis before_trans :
  forall x y z, P x -> P y -> P z -> before x y -> before y z -> before x z.

Lemma sort_insert_ordered x l :
  P x -> Forall P l ->
  StronglySorted before l -> StronglySorted before (sort_insert cmp x l).
Proof.
  intros Px Pl Sl. induction Sl as [|y l Sl IH Hy]; cbn [sort_insert].
  - repeat constructor.
  - inversion Pl as [|? ? Py Pl']; subst.
    destruct (Z.leb_spec (cmp x y) 0) as [Hc|Hc].
    + apply cmp_le in Hc; [|exact Px|exact Py].
      constructor; [now constructor|].
      constructor; [exact Hc|].
      rewrite Forall_forall in Hy, Pl' |- *. intros z Hz.
      apply (before_trans x y z); auto.
    + constructor; [now apply IH|].
      apply cmp_gt in Hc; [|exact Px|exact Py].
      rewrite Forall_forall in Hy |- *. intros z Hz.
      apply (Permutation_in _ (sort_insert_perm cmp x l)) in Hz.
      destruct Hz as [<-|Hz]; [exact Hc|now apply Hy].
Qed.

Lemma Array_sort_ordered l :
  Forall P l -> StronglySorted before (Array_sort cmp l).
Proof.
  induction l as [|x l IH]; intros Pl; [constructor|].
  inversion Pl as [|? ? Px Pl']; subst.
  cbn [Array_sort fold_right]. fold (Array_sort cmp l).
  apply sort_insert_ordered; [exact Px| |now apply IH].
  rewrite Forall_forall in Pl' |- *. intros z Hz. apply Pl'.
  now apply (Permutation_in _ (Array_sort_perm cmp l)).
Qed.

End SortedByOrder.

(** ** The other files of the export *)

Lemma eqb_rank x y :
  is_nan x = false -> is_nan y = false ->
  (x =? y)%float = (rank (Prim2SF x) =? rank (Prim2SF y)).
Proof.
  intros Nx Ny. rewrite FloatAxioms.eqb_spec. unfold SFeqb.
  rewrite SFcompare_rank
    by (try apply Prim2SF_valid; now apply Prim2SF_is_nan).
  rewrite Z.eqb_compare. now destruct (_ ?= _).
Qed.

Lemma or_0_not_nan o : is_nan (or_0 o) = false.
Proof.
  destruct o as [x|]; cbn [or_0]; [|reflexivity].
  destruct (is_nan x) eqn:N; cbn [orb]; [reflexivity|].
  now destruct (x =? 0)%float.
Qed.

Section ParserFacts.
Variable trim : string -> string.
Variable toLowerCase : string -> string.

Lemma rating_at_not_nan index values :
  is_nan (rating_at index values) = false.
Proof.
  destruct index as [i|]; cbn [rating_at]; [apply or_0_not_nan|reflexivity].
Qed.

Lemma remove_quotes_no_quote s : contains quote (remove_quotes s) = false.
Proof.
  induction s as [|c s IH]; [reflexivity|]. cbn [remove_quotes].
  destruct (Ascii.eqb c quote) eqn:E; [exact IH|].
  cbn [contains]. now rewrite E, IH.
Qed.

Lemma parseReviewsCSV_line_rating d n y r v line :
  Forall (fun x => is_nan (ReviewData.rating x) = false
                   /\ contains quote (ReviewData.review x) = false
                   /\ trim line <> EmptyString
                   /\ exists field, In field (parseCSVLine line)
                        /\ trim field <> EmptyString
                        /\ ReviewData.review x = remove_quotes (trim field))
    (parseReviewsCSV_line trim d n y r v line).
Proof.
  unfold parseReviewsCSV_line.
  destruct (truthy (Some (trim line))) eqn:T; [|constructor]. cbn [negb].
  destruct v as [i|]; [|constructor].
  destruct (nth_error (parseCSVLine line) i) as [field|] eqn:E; [|constructor].
  cbn [option_map].
  destruct (truthy (Some (trim field))) eqn:T'; [|constructor]. cbn [negb].
  constructor; [|constructor]. cbn [ReviewData.rating ReviewData.review].
  split; [apply rating_at_not_nan|].
  split; [apply remove_quotes_no_quote|].
  cbn [truthy] in T, T'. apply negb_true_iff in T, T'.
  split; [intros E'; rewrite E' in T; discriminate|].
  exists field. split; [now apply nth_error_In in E|].
  split; [intros E'; rewrite E' in T'; discriminate|reflexivity].
Qed.

Lemma by_rating_then_length_le x y :
  is_nan (ReviewData.rating x) = false -> is_nan (ReviewData.rating y) = false ->
  by_rating_then_length x y <= 0 -> review_before x y.
Proof.
  intros Nx Ny. unfold by_rating_then_length, review_before, ge.
  rewrite leb_rank, !eqb_rank, sort_order_sub by assumption.
  rewrite (Z.eqb_sym (rank (Prim2SF (ReviewData.rating x)))).
  destruct (Z.eqb_spec (rank (Prim2SF (ReviewData.rating y)))
              (rank (Prim2SF (ReviewData.rating x)))) as [E|E]; cbn [negb].
  - intros H. split; [apply Z.leb_le; lia|]. intros _. lia.
  - destruct (Z.compare_spec (rank (Prim2SF (ReviewData.rating y)))
                (rank (Prim2SF (ReviewData.rating x)))); cbn [sign_of]; intros Hc;
      try lia; (split; [apply Z.leb_le; lia|discriminate]).
Qed.

Lemma by_rating_then_length_gt x y :
  is_nan (ReviewData.rating x) = false -> is_nan (ReviewData.rating y) = false ->
  0 < by_rating_then_length x y -> review_before y x.
Proof.
  intros Nx Ny. unfold by_rating_then_length, review_before, ge.
  rewrite leb_rank, !eqb_rank, sort_order_sub by assumption.
  destruct (Z.eqb_spec (rank (Prim2SF (ReviewData.rating y)))
              (rank (Prim2SF (ReviewData.rating x)))) as [E|E]; cbn [negb].
  - intros H. split; [apply Z.leb_le; lia|]. intros _. lia.
  - destruct (Z.compare_spec (rank (Prim2SF (ReviewData.rating y)))
                (rank (Prim2SF (ReviewData.rating x)))); cbn [sign_of]; intros Hc;
      try lia; (split; [apply Z.leb_le; lia|discriminate]).
Qed.

Lemma review_before_trans x y z :
  is_nan (ReviewData.rating x) = false -> is_nan (ReviewData.rating y) = false ->
  is_nan (ReviewData.rating z) = false ->
  review_before x y -> review_before y z -> review_before x z.
Proof.
  intros Nx Ny Nz. unfold review_before, ge.
  rewrite !leb_rank, !eqb_rank by assumption.
  rewrite !Z.leb_le, !Z.eqb_eq. intros [H1 H2] [H3 H4]. split; [lia|].
  intros E. assert (E1 : rank (Prim2SF (ReviewData.rating x))
                         = rank (Prim2SF (ReviewData.rating y))) by lia.
  assert (E2 : rank (Prim2SF (ReviewData.rating y))
               = rank (Prim2SF (ReviewData.rating z))) by lia.
  specialize (H2 E1). specialize (H4 E2). lia.
Qed.

(** X13. [parseReviewsCSV] returns as [top3] the first three of [all].
    Every review of [all] is longer than 10 code units, holds no double
    quote, has a rating that is not NaN, and is the trimmed text, its
    quotes removed, of a field of some line after the header that is not
    blank.  [all] is sorted: the ratings descend, and among equal ratings
    the lengths of the reviews descend. *)
Theorem parseReviewsCSV_sorted (content : string) :
  let '(top3, all) := parseReviewsCSV trim toLowerCase content in
  top3 = firstn 3 all
  /\ Forall
       (fun r =>
          (10 < String_length (ReviewData.review r))%nat
          /\ contains quote (ReviewData.review r) = false
          /\ isNaN (ReviewData.rating r) = false
          /\ exists line field,
               In line (tl (split newline content))
               /\ trim line <> EmptyString
               /\ In field (parseCSVLine line)
               /\ trim field <> EmptyString
               /\ ReviewData.review r = remove_quotes (trim field))
       all
  /\ StronglySorted review_before all.
Proof.
  unfold parseReviewsCSV.
  destruct (length (split newline content) <? 2)%nat.
  { split; [reflexivity|]. split; constructor. }
  cbv zeta.
  set (rows := flat_map _ _).
  assert (R : Forall (fun x => is_nan (ReviewData.rating x) = false
                   /\ contains quote (ReviewData.review x) = false
                   /\ exists line field,
                        In line (tl (split newline content))
                        /\ trim line <> EmptyString
                        /\ In field (parseCSVLine line)
                        /\ trim field <> EmptyString
                        /\ ReviewData.review x = remove_quotes (trim field))
                rows).
  { unfold rows. rewrite Forall_forall. intros r Hr.
    apply in_flat_map in Hr as (line & Hl & Hr).
    destruct (proj1 (Forall_forall _ _)
                (parseReviewsCSV_line_rating _ _ _ _ _ _) r Hr)
      as (N & Q & T & field & Hf & Tf & E).
    split; [exact N|]. split; [exact Q|]. now exists line, field. }
  set (kept := filter _ rows).
  split; [reflexivity|]. split.
  - rewrite Forall_forall in R |- *. intros r Hr.
    apply (Permutation_in _ (Array_sort_perm _ _)) in Hr.
    apply filter_In in Hr as [Hr L]. apply Nat.ltb_lt in L.
    destruct (R r Hr) as (N & Q & W). now repeat split.
  - apply (Array_sort_ordered by_rating_then_length review_before
             (fun r => is_nan (ReviewData.rating r) = false)).
    + apply by_rating_then_length_le.
    + apply by_rating_then_length_gt.
    + apply review_before_trans.
    + rewrite Forall_forall in R |- *. intros r Hr.
      apply filter_In in Hr as [Hr _]. now apply R.
Qed.

(** X14. When no header of the first line reads [review], [parseReviewsCSV]
    returns no reviews at all, whatever the other lines hold. *)
Theorem parseReviewsCSV_no_review_column (content : string) :
  column (headers_of trim toLowerCase (nth 0 (split newline content) EmptyString))
    "review" = None ->
  parseReviewsCSV trim toLowerCase content = ([], []).
Proof.
  intros H. unfold parseReviewsCSV.
  destruct (length (split newline content) <? 2)%nat; [reflexivity|].
  cbv zeta. rewrite H.
  assert (E : forall d n y r lines,
             flat_map (parseReviewsCSV_line trim d n y r None) lines = []).
  { intros d n y r lines. induction lines as [|line lines IH]; [reflexivity|].
    cbn [flat_map]. rewrite IH. unfold parseReviewsCSV_line.
    now destruct (negb (truthy (Some (trim line)))). }
  rewrite E. reflexivity.
Qed.

(** *** Rewatched films *)

Lemma parseRewatchedCSV_line_rating n y r i line :
  Forall (fun x => is_nan (RewatchData.rating x) = false)
    (parseRewatchedCSV_line trim toLowerCase n y r i line).
Proof.
  unfold parseRewatchedCSV_line.
  destruct (negb (truthy (Some (trim line)))); [constructor|].
  destruct (negb _); [constructor|].
  constructor; [|constructor]. apply rating_at_not_nan.
Qed.

Lemma by_rewatch_rating_rank x y :
  is_nan (RewatchData.rating x) = false ->
  is_nan (RewatchData.rating y) = false ->
  (by_rewatch_rating x y <= 0 <-> rewatch_rank y <= rewatch_rank x).
Proof.
  intros Nx Ny. unfold by_rewatch_rating, rewatch_rank.
  rewrite sort_order_sub by assumption.
  destruct (Z.compare_spec (rank (Prim2SF (RewatchData.rating y)))
              (rank (Prim2SF (RewatchData.rating x)))); cbn [sign_of]; lia.
Qed.

Lemma split_loop_not_nil sep s : forall current, split_loop sep s current <> [].
Proof.
  induction s as [|c s IH]; intros current; cbn [split_loop]; [discriminate|].
  destruct (Ascii.eqb c sep); [discriminate|apply IH].
Qed.

Lemma fewer_than_two_lines content :
  (length (split newline content) <? 2)%nat = true ->
  tl (split newline content) = [].
Proof.
  unfold split. pose proof (split_loop_not_nil newline content EmptyString) as H.
  destruct (split_loop newline content EmptyString) as [|l [|l' ls]];
    [contradiction|reflexivity|discriminate].
Qed.

(** X15. Without a [rewatch] header [parseRewatchedCSV] returns the empty
    list.  With one, it returns two of the rows marked as rewatches, or all
    of them when they are fewer: no rating is NaN, the result is in
    descending order of rating, and no row left out is rated higher than a
    row returned. *)
Theorem parseRewatchedCSV_best_two (content : string) :
  let lines := split newline content in
  let headers := headers_of trim toLowerCase (nth 0 lines EmptyString) in
  let result := parseRewatchedCSV trim toLowerCase content in
  match column headers "rewatch" with
  | None => result = []
  | Some rewatchIndex =>
      let rows :=
        flat_map
          (parseRewatchedCSV_line trim toLowerCase (column headers "name")
             (column headers "year") (column headers "rating") rewatchIndex)
          (tl lines) in
      length result = Nat.min 2 (length rows)
      /\ Forall (fun r => isNaN (RewatchData.rating r) = false) rows
      /\ StronglySorted
           (fun a b => ge (RewatchData.rating a) (RewatchData.rating b) = true)
           result
      /\ exists rest,
           Permutation rows (result ++ rest)
           /\ forall r r', In r result -> In r' rest ->
                ge (RewatchData.rating r) (RewatchData.rating r') = true
  end.
Proof.
  cbv zeta. unfold parseRewatchedCSV.
  destruct (length (split newline content) <? 2)%nat eqn:L.
  { apply fewer_than_two_lines in L. rewrite L. cbn [flat_map].
    destruct (column _ "rewatch"); [|reflexivity].
    split; [reflexivity|]. split; [constructor|]. split; [constructor|].
    exists []. split; [reflexivity|]. intros r r' []. }
  destruct (column _ "rewatch") as [i|]; [|reflexivity].
  set (rows := flat_map _ _).
  assert (R : Forall (fun x => is_nan (RewatchData.rating x) = false) rows).
  { unfold rows. rewrite Forall_forall. intros r Hr.
    apply in_flat_map in Hr as (line & _ & Hr).
    exact (proj1 (Forall_forall _ _)
             (parseRewatchedCSV_line_rating _ _ _ _ _) r Hr). }
  assert (R' : Forall (fun x => is_nan (RewatchData.rating x) = false)
                 (Array_sort by_rewatch_rating rows)).
  { rewrite Forall_forall in R |- *. intros r Hr. apply R.
    now apply (Permutation_in _ (Array_sort_perm _ _)) in Hr. }
  pose proof (Array_sort_sorted by_rewatch_rating rewatch_rank
                (fun r => is_nan (RewatchData.rating r) = false)
                by_rewatch_rating_rank rows R) as S.
  assert (G : forall a b, is_nan (RewatchData.rating a) = false ->
                is_nan (RewatchData.rating b) = false ->
                rewatch_rank b <= rewatch_rank a ->
                ge (RewatchData.rating a) (RewatchData.rating b) = true).
  { intros a b Na Nb H. unfold ge. rewrite leb_rank by assumption.
    now apply Z.leb_le. }
  split; [now rewrite length_firstn, Array_sort_length|].
  split; [exact R|].
  rewrite <- (firstn_skipn 2 (Array_sort by_rewatch_rating rows)) in S, R'.
  apply Forall_app in R' as [R1 R2].
  apply StronglySorted_app in S as [S1 S2].
  rewrite Forall_forall in R1, R2.
  split.
  - clear S2. induction S1 as [|x l S1 IH Hx]; constructor.
    + apply IH. intros z Hz. apply R1. now right.
    + rewrite Forall_forall in Hx |- *. intros z Hz.
      apply G; [apply R1; now left|apply R1; now right|now apply Hx].
  - exists (skipn 2 (Array_sort by_rewatch_rating rows)). split.
    + rewrite firstn_skipn. symmetry. apply Array_sort_perm.
    + intros r r' Hr Hr'. apply G; auto.
Qed.

(** *** Lines without quotes *)

Lemma parseCSVLine_loop_split line : forall result current,
  contains quote line = false ->
  parseCSVLine_loop line result current false
  = result ++ split_loop comma line current.
Proof.
  induction line as [|c line IH]; intros result current H;
    cbn [parseCSVLine_loop split_loop]; [reflexivity|].
  cbn [contains] in H. apply orb_false_iff in H as [Hc H].
  rewrite Hc. cbn [negb andb]. rewrite andb_true_r.
  destruct (Ascii.eqb c comma).
  - rewrite IH by exact H. now rewrite <- app_assoc.
  - now apply IH.
Qed.

(** X16. On a line without a double quote [parseCSVLine] gives what
    [line.split(',')] gives, the way the parsers read the header line. *)
Theorem parseCSVLine_without_quotes (line : string) :
  contains quote line = false ->
  parseCSVLine line = split comma line.
Proof.
  intros H. unfold parseCSVLine, split.
  now rewrite parseCSVLine_loop_split.
Qed.

(** *** The profile *)

(** X17. A name [parseProfileCSV] returns is never the empty string and
    holds no double quote; the file has two lines at least, and the name is
    the trimmed text, its quotes removed, of a piece of the second line
    between two commas. *)
Theorem parseProfileCSV_name (content : string) :
  let lines := split newline content in
  match parseProfileCSV trim toLowerCase content with
  | Some name =>
      (2 <= length lines)%nat
      /\ name <> EmptyString
      /\ contains quote name = false
      /\ exists field,
           In field (split comma (nth 1 lines EmptyString))
           /\ name = remove_quotes (trim field)
  | None => True
  end.
Proof.
  cbv zeta. unfold parseProfileCSV.
  destruct (Nat.ltb_spec (length (split newline content)) 2) as [L|L];
    [exact I|].
  cbv zeta.
  set (values := map _ (split comma _)).
  assert (V : forall i name, nth_error values i = Some name ->
                truthy (nth_error values i) = true ->
                (2 <= length (split newline content))%nat
                /\ name <> EmptyString
                /\ contains quote name = false
                /\ exists field,
                     In field (split comma (nth 1 (split newline content) EmptyString))
                     /\ name = remove_quotes (trim field)).
  { intros i name E T. rewrite E in T. cbn [truthy] in T.
    apply negb_true_iff in T.
    split; [exact L|]. split; [intros ->; discriminate|].
    apply nth_error_In in E. unfold values in E.
    apply in_map_iff in E as (field & <- & Hf).
    split; [apply remove_quotes_no_quote|]. now exists field. }
  destruct (column _ "given name") as [g|].
  - destruct (truthy (nth_error values g)) eqn:Tg.
    + destruct (nth_error values g) as [name|] eqn:Eg; [|exact I].
      apply (V g name Eg). now rewrite Eg.
    + destruct (column _ "username") as [u|]; [|exact I].
      destruct (truthy (nth_error values u)) eqn:Tu; [|exact I].
      destruct (nth_error values u) as [name|] eqn:Eu; [|exact I].
      apply (V u name Eu). now rewrite Eu.
  - destruct (column _ "username") as [u|]; [|exact I].
    destruct (truthy (nth_error values u)) eqn:Tu; [|exact I].
    destruct (nth_error values u) as [name|] eqn:Eu; [|exact I].
    apply (V u name Eu). now rewrite Eu.
Qed.

End ParserFacts.

Lemma parseReviewsCSV_no_review_column_witness :
  parseReviewsCSV ascii_trim toLowerCase reviews_without_column = ([], []).
Proof. apply parseReviewsCSV_no_review_column. reflexivity. Defined.

Lemma parseCSVLine_without_quotes_witness :
  parseCSVLine "Heat,1995,4.5" = split comma "Heat,1995,4.5".
Proof. apply parseCSVLine_without_quotes. reflexivity. Defined.

(** ** The taste profile: where NaN comes from *)

Lemma binary_round_aux_same_sign s m e l :
  0 <= m ->
  match binary_round_aux prec emax s m e l with
  | S754_zero s' | S754_infinity s' | S754_finite s' _ _ => s' = s
  | S754_nan => False
  end.
Proof.
  intros H. unfold binary_round_aux, shr_fexp.
  set (n1 := SpecFloat.fexp prec emax (Zdigits2 m + e) - e).
  pose proof (shr_nonneg (shr_record_of_loc m l) e n1) as H1.
  destruct (shr (shr_record_of_loc m l) e n1) as [r1 e1].
  cbn [fst] in H1.
  assert (H2 : 0 <= round_nearest_even (shr_m r1) (loc_of_shr_record r1)).
  { assert (0 <= shr_m r1) by (apply H1; destruct l as [|[ | | ]]; exact H).
    unfold round_nearest_even.
    destruct (loc_of_shr_record r1) as [|[ | | ]]; try lia.
    destruct (Z.even (shr_m r1)); lia. }
  set (m2 := round_nearest_even (shr_m r1) (loc_of_shr_record r1)) in *.
  set (n2 := SpecFloat.fexp prec emax (Zdigits2 m2 + e1) - e1).
  pose proof (shr_nonneg (shr_record_of_loc m2 loc_Exact) e1 n2 H2) as H3.
  destruct (shr (shr_record_of_loc m2 loc_Exact) e1 n2) as [r2 e2].
  cbn [fst] in H3.
  destruct (shr_m r2) as [|p|p]; [reflexivity| |lia].
  destruct (e2 <=? emax - prec); reflexivity.
Qed.

Lemma binary_normalize_not_nan m e : binary_normalize prec emax m e false <> S754_nan.
Proof.
  destruct m as [|p|p]; cbn [binary_normalize]; [discriminate| |];
    unfold binary_round; destruct (shl_align _ _ _) as [mz ez];
    apply binary_round_aux_not_nan; lia.
Qed.

(** Adding a finite double to a double that is no NaN gives no NaN. *)
Lemma SFadd_not_nan x y :
  x <> S754_nan ->
  match y with S754_zero _ | S754_finite _ _ _ => True | _ => False end ->
  SF64add x y <> S754_nan.
Proof.
  intros Nx Fy. unfold SF64add, SFadd.
  destruct x as [sx|sx| |sx mx ex]; [| |contradiction|];
    destruct y as [sy|sy| |sy my ey]; try contradiction; try discriminate.
  - destruct sx, sy; discriminate.
  - apply binary_normalize_not_nan.
Qed.

(** Subtracting a double that is no NaN from a finite double gives no
    NaN. *)
Lemma SFsub_not_nan x y :
  match x with S754_zero _ | S754_finite _ _ _ => True | _ => False end ->
  y <> S754_nan ->
  SF64sub x y <> S754_nan.
Proof.
  intros Fx Ny. unfold SF64sub, SFsub.
  destruct x as [sx|sx| |sx mx ex]; try contradiction;
    destruct y as [sy|sy| |sy my ey]; try contradiction; try discriminate.
  - destruct sx, sy; discriminate.
  - apply binary_normalize_not_nan.
Qed.

(** The square of a double that is no NaN is not below zero. *)
Lemma SFmul_square x : x <> S754_nan -> not_below_zero (SF64mul x x).
Proof.
  intros Nx. unfold SF64mul, SFmul.
  destruct x as [s|s| |s m e]; [exact I|now destruct s|contradiction|].
  pose proof (binary_round_aux_same_sign (xorb s s) (Zpos (m * m)) (e + e)
                loc_Exact ltac:(lia)) as H.
  rewrite xorb_nilpotent in *.
  destruct (binary_round_aux prec emax false _ _ _); cbn; try exact I; exact H.
Qed.

Lemma SFadd_not_below_zero x y :
  not_below_zero x -> not_below_zero y -> not_below_zero (SF64add x y).
Proof.
  unfold SF64add, SFadd.
  destruct x as [sx|sx| |sx mx ex]; cbn [not_below_zero]; try contradiction;
    destruct y as [sy|sy| |sy my ey]; cbn [not_below_zero]; try contradiction;
    intros Hx Hy; subst; cbn [not_below_zero]; try reflexivity; try exact I.
  - destruct sx, sy; exact I.
  - cbv zeta. cbn [cond_Zopp].
    set (ez := Z.min ex ey).
    destruct (Z.pos (fst (shl_align mx ex ez)) + Z.pos (fst (shl_align my ey ez)))
      as [|p|p] eqn:E; try lia.
    cbn [binary_normalize]. unfold binary_round.
    destruct (shl_align p ez _) as [mz ez'].
    pose proof (binary_round_aux_same_sign false (Zpos mz) ez' loc_Exact
                  ltac:(lia)) as H.
    destruct (binary_round_aux prec emax false _ _ _); cbn; try exact I; exact H.
Qed.

(** Dividing by a positive finite double keeps a double at or above
    zero. *)
Lemma SFdiv_not_below_zero x my ey :
  not_below_zero x -> not_below_zero (SF64div x (S754_finite false my ey)).
Proof.
  unfold SF64div, SFdiv.
  destruct x as [sx|sx| |sx mx ex]; cbn [not_below_zero]; try contradiction;
    intros Hx; subst; cbn [not_below_zero xorb]; try reflexivity; try exact I.
  unfold SFdiv_core_binary.
  set (m' := match _ - _ - _ with Z0 => _ | Zpos _ => _ | Zneg _ => _ end).
  assert (Hm : 0 <= m').
  { unfold m'. destruct (_ - _ - _) as [|p|p]; try lia.
    apply Z.shiftl_nonneg. lia. }
  pose proof (Z.div_pos m' (Zpos my) Hm ltac:(lia)) as Hq.
  unfold Z.div in Hq. destruct (Z.div_eucl m' (Zpos my)) as [q r].
  pose proof (binary_round_aux_same_sign false q
                (Z.min (SpecFloat.fexp prec emax
                          (Zdigits2 (Zpos mx) + ex - (Zdigits2 (Zpos my) + ey)))
                   (ex - ey))
                (new_location (Zpos my) r) Hq) as H.
  destruct (binary_round_aux prec emax false _ _ _); cbn; try exact I; exact H.
Qed.

(** A square root is NaN, or not below zero. *)
Lemma SFsqrt_cases x : SF64sqrt x = S754_nan \/ not_below_zero (SF64sqrt x).
Proof.
  unfold SF64sqrt, SFsqrt.
  destruct x as [s|[|]| |[|] m e]; try (now left); try (right; exact I);
    try (right; reflexivity).
  right. unfold SFsqrt_core_binary.
  set (m' := match _ - _ with Z0 => _ | Zpos _ => _ | Zneg _ => _ end).
  assert (Hm : 0 <= m').
  { unfold m'. destruct (_ - _) as [|p|p]; try lia.
    apply Z.shiftl_nonneg. lia. }
  pose proof (Z.sqrtrem_spec m' Hm) as S.
  destruct (Z.sqrtrem m') as [q r].
  assert (Hq : 0 <= q) by lia.
  set (l := if r =? 0 then _ else _).
  pose proof (binary_round_aux_same_sign false q
                (Z.min (SpecFloat.fexp prec emax (Z.div2 (Zdigits2 (Zpos m) + e + 1)))
                   (Z.div2 e)) l Hq) as H.
  destruct (binary_round_aux prec emax false _ _ _); cbn; try exact I; exact H.
Qed.

Lemma SFsqrt_not_below_zero x : not_below_zero x -> not_below_zero (SF64sqrt x).
Proof.
  intros H. destruct (SFsqrt_cases x) as [E|E]; [|exact E].
  unfold SF64sqrt, SFsqrt in E.
  destruct x as [s|[|]| |[|] m e]; cbn [not_below_zero] in H;
    try discriminate; try contradiction.
  exfalso. revert E. unfold SFsqrt_core_binary.
  set (m' := match _ - _ with Z0 => _ | Zpos _ => _ | Zneg _ => _ end).
  assert (Hm : 0 <= m').
  { unfold m'. destruct (_ - _) as [|p|p]; try lia.
    apply Z.shiftl_nonneg. lia. }
  pose proof (Z.sqrtrem_spec m' Hm) as S.
  destruct (Z.sqrtrem m') as [q r].
  apply binary_round_aux_not_nan. lia.
Qed.

Lemma is_nan_true x : is_nan x = true <-> Prim2SF x = S754_nan.
Proof.
  split.
  - intros H. unfold Prim2SF. now rewrite H.
  - intros H. destruct (is_nan x) eqn:N; [reflexivity|].
    now apply Prim2SF_is_nan in N.
Qed.

Lemma finite_cases r :
  finite r = true ->
  match Prim2SF r with S754_zero _ | S754_finite _ _ _ => True | _ => False end.
Proof. unfold finite. now destruct (Prim2SF r). Qed.

Lemma sum_not_nan ratings :
  Forall (fun r => finite r = true) ratings ->
  forall acc, Prim2SF acc <> S754_nan ->
  Prim2SF (fold_left (fun a b => a + b)%float ratings acc) <> S754_nan.
Proof.
  induction 1 as [|r ratings Hr _ IH]; intros acc Ha; cbn [fold_left];
    [exact Ha|].
  apply IH. rewrite add_spec. apply SFadd_not_nan; [exact Ha|].
  now apply finite_cases.
Qed.

Lemma of_nat_positive n :
  (0 < n)%nat -> Z.of_nat n < 2 ^ 53 ->
  exists m e, Prim2SF (of_nat n) = S754_finite false m e.
Proof.
  intros Hn Hb. unfold of_nat.
  destruct (Z.of_nat n) as [|p|p] eqn:E; try lia.
  destruct (Prim2SF_of_Z_finite p Hb) as [Ep _]. cbv zeta in Ep.
  eauto.
Qed.

Lemma mean_not_nan ratings :
  ratings <> [] -> Z.of_nat (length ratings) < 2 ^ 53 ->
  Forall (fun r => finite r = true) ratings ->
  Prim2SF (mean ratings) <> S754_nan.
Proof.
  intros Hne Hb F. unfold mean, sum.
  destruct (of_nat_positive (length ratings)) as (m & e & E);
    [destruct ratings; [congruence|cbn; lia]|exact Hb|].
  rewrite div_spec, E. apply SFdiv_not_nan.
  apply sum_not_nan; [exact F|discriminate].
Qed.

Lemma squares_not_below_zero (mu : number) ratings :
  Prim2SF mu <> S754_nan ->
  Forall (fun r => finite r = true) ratings ->
  forall acc, not_below_zero (Prim2SF acc) ->
  not_below_zero
    (Prim2SF (fold_left (fun acc r => acc + (r - mu) * (r - mu))%float ratings acc)).
Proof.
  intros Hmu. induction 1 as [|r ratings Hr _ IH]; intros acc Ha;
    cbn [fold_left]; [exact Ha|].
  apply IH. rewrite add_spec. apply SFadd_not_below_zero; [exact Ha|].
  rewrite mul_spec. apply SFmul_square.
  rewrite sub_spec. apply SFsub_not_nan; [now apply finite_cases|exact Hmu].
Qed.

(** The standard deviation of finite ratings is no NaN. *)
Lemma std_dev_finite_ratings ratings :
  ratings <> [] -> Z.of_nat (length ratings) < 2 ^ 53 ->
  Forall (fun r => finite r = true) ratings ->
  not_below_zero (Prim2SF (population_std_dev ratings)).
Proof.
  intros Hne Hb F. unfold population_std_dev, Math_sqrt.
  rewrite sqrt_spec. apply SFsqrt_not_below_zero.
  destruct (of_nat_positive (length ratings)) as (m & e & E);
    [destruct ratings; [congruence|cbn; lia]|exact Hb|].
  rewrite div_spec, E. apply SFdiv_not_below_zero.
  apply squares_not_below_zero; [now apply mean_not_nan|exact F|exact I].
Qed.

Lemma std_dev_cases ratings :
  Prim2SF (population_std_dev ratings) = S754_nan
  \/ not_below_zero (Prim2SF (population_std_dev ratings)).
Proof.
  unfold population_std_dev, Math_sqrt. rewrite sqrt_spec. apply SFsqrt_cases.
Qed.

(** A NaN among the ratings makes the standard deviation NaN. *)
Lemma sum_nan_acc (f : number -> number) ratings : forall acc,
  Prim2SF acc = S754_nan ->
  Prim2SF (fold_left (fun a r => a + f r)%float ratings acc) = S754_nan.
Proof.
  induction ratings as [|r ratings IH]; intros acc Ha; cbn [fold_left];
    [exact Ha|].
  apply IH. rewrite add_spec, Ha. reflexivity.
Qed.

Lemma SFadd_nan_r x : SF64add x S754_nan = S754_nan.
Proof. now destruct x. Qed.

Lemma sum_nan_term (f : number -> number) ratings : forall acc,
  Exists (fun r => Prim2SF (f r) = S754_nan) ratings ->
  Prim2SF (fold_left (fun a r => a + f r)%float ratings acc) = S754_nan.
Proof.
  induction ratings as [|r ratings IH]; intros acc H; cbn [fold_left];
    [inversion H|].
  inversion H as [? ? Hr|? ? Hr]; subst.
  - apply sum_nan_acc. rewrite add_spec, Hr. apply SFadd_nan_r.
  - now apply IH.
Qed.

Lemma mean_nan ratings :
  Exists (fun r => is_nan r = true) ratings ->
  Prim2SF (mean ratings) = S754_nan.
Proof.
  intros H. unfold mean, sum. rewrite div_spec.
  assert (S : Prim2SF (fold_left (fun a b => a + b)%float ratings 0%float)
              = S754_nan).
  { apply (sum_nan_term (fun r => r) ratings 0%float).
    apply Exists_exists in H as (r & Hr & N). apply Exists_exists.
    exists r. split; [exact Hr|]. now apply is_nan_true. }
  rewrite S. reflexivity.
Qed.

Lemma SFsub_nan_r x : SF64sub x S754_nan = S754_nan.
Proof. now destruct x. Qed.

Lemma std_dev_nan ratings :
  Exists (fun r => is_nan r = true) ratings ->
  Prim2SF (population_std_dev ratings) = S754_nan.
Proof.
  intros H. pose proof (mean_nan ratings H) as M.
  unfold population_std_dev, Math_sqrt. rewrite sqrt_spec, div_spec.
  assert (S : Prim2SF
                (fold_left
                   (fun acc r => acc + (r - mean ratings) * (r - mean ratings))%float
                   ratings 0%float) = S754_nan).
  { apply (sum_nan_term
             (fun r => (r - mean ratings) * (r - mean ratings))%float ratings
             0%float).
    apply Exists_exists in H as (r & Hr & N). apply Exists_exists.
    exists r. split; [exact Hr|].
    now rewrite mul_spec, sub_spec, M, SFsub_nan_r. }
  rewrite S. reflexivity.
Qed.

(** ** The taste profile: the ranges *)

Lemma Prim2SF_1 : Prim2SF 1%float = S754_finite false 4503599627370496 (-52).
Proof. reflexivity. Qed.

Lemma Prim2SF_2_5 : Prim2SF 2.5%float = S754_finite false 5629499534213120 (-51).
Proof. reflexivity. Qed.

Lemma rank_1 : rank (Prim2SF 1%float) = 2 ^ 1074.
Proof. reflexivity. Qed.

Lemma not_below_zero_unit x :
  not_below_zero (Prim2SF x) -> rank (Prim2SF x) <= 2 ^ 1074 -> unit_range x.
Proof.
  intros H R. unfold unit_range, between_0_and.
  pose proof (Prim2SF_valid x) as V.
  destruct (Prim2SF x) as [[|]|s| |s m e]; cbn [not_below_zero] in H;
    try contradiction; subst.
  - now left.
  - right. now left.
  - exfalso. cbn [rank cond_Zopp] in R.
    assert (2 ^ 1074 < 2 ^ 2100) by (apply Z.pow_lt_mono_r; lia). lia.
  - right. right. exists m, e. split; [reflexivity|].
    apply valid_finite in V as (He & _).
    rewrite scaled_rank by lia.
    replace (1 * 2 ^ 3000) with (2 ^ 1074 * 2 ^ 1926)
      by (rewrite <- Z.pow_add_r by lia; reflexivity).
    apply Z.mul_le_mono_nonneg_r; [apply Z.pow_nonneg; lia|exact R].
Qed.

(** The volatility, [Math.min(stdDev / 2.5, 1)], of a deviation that is
    no NaN. *)
Lemma volatility_range stdDev :
  not_below_zero (Prim2SF stdDev) -> unit_range (Math_min (stdDev / 2.5)%float 1%float).
Proof.
  intros H.
  assert (Q : not_below_zero (Prim2SF (stdDev / 2.5)%float))
    by (rewrite div_spec, Prim2SF_2_5; now apply SFdiv_not_below_zero).
  set (q := (stdDev / 2.5)%float) in *.
  assert (Nq : is_nan q = false)
    by (apply is_nan_Prim2SF; intros E; rewrite E in Q; exact Q).
  unfold Math_min. rewrite Nq. cbn [orb is_nan].
  change (is_nan 1%float) with false. cbv iota.
  rewrite !ltb_rank by (try exact Nq; reflexivity). rewrite rank_1.
  destruct (Z.ltb_spec (rank (Prim2SF q)) (2 ^ 1074)) as [L|L].
  - apply not_below_zero_unit; [exact Q|lia].
  - assert (U1 : unit_range 1%float).
    { right. right. exists 4503599627370496%positive, (-52).
      split; [reflexivity|]. rewrite scaled_1. lia. }
    destruct (Z.ltb_spec (2 ^ 1074) (rank (Prim2SF q))) as [G|G]; [exact U1|].
    destruct (get_sign q); [|exact U1].
    apply not_below_zero_unit; [exact Q|lia].
Qed.

Lemma volatility_nan stdDev :
  Prim2SF stdDev = S754_nan -> is_nan (Math_min (stdDev / 2.5)%float 1%float) = true.
Proof.
  intros H. unfold Math_min.
  assert (N : is_nan (stdDev / 2.5)%float = true)
    by (apply is_nan_true; rewrite div_spec, H; reflexivity).
  now rewrite N.
Qed.

(** What the profile shows of a volatility that is NaN. *)
Lemma profile_of_nan (mu stdDev : number) :
  Prim2SF stdDev = S754_nan ->
  isNaN (ratingVolatility (profile_of mu stdDev)) = true
  /\ isNaN (stabilityScore (profile_of mu stdDev)) = true
  /\ gt (Math_min (stdDev / 2.5)%float 1%float) 0.6%float = false
  /\ gt (ratingVolatility (profile_of mu stdDev)) 0.5%float = false.
Proof.
  intros H. apply volatility_nan, is_nan_true in H.
  unfold profile_of. cbv zeta. cbn [ratingVolatility stabilityScore].
  set (v := Math_min (stdDev / 2.5)%float 1%float) in *.
  assert (R1 : Prim2SF (Math_round (v * 100) / 100)%float = S754_nan).
  { rewrite div_spec. unfold Math_round. rewrite mul_spec, H. cbn.
    rewrite mul_spec, H. reflexivity. }
  assert (R2 : Prim2SF (Math_round ((1 - v) * 100)%float) = S754_nan).
  { unfold Math_round. rewrite mul_spec, sub_spec, H. cbn.
    rewrite mul_spec, sub_spec, H. reflexivity. }
  unfold isNaN, gt. rewrite !ltb_spec, R1, H.
  split; [now apply is_nan_true|]. split; [now apply is_nan_true|].
  split; reflexivity.
Qed.

(** The volatility the profile shows: rounded to two decimals. *)
Lemma round_2dp_unit v :
  unit_range v ->
  ge (round_2dp v) 0%float = true /\ ge 1%float (round_2dp v) = true.
Proof.
  intros [Z|[Z|(m & e & E & Hs)]]; unfold round_2dp, ge.
  - assert (E : Prim2SF (Math_round (v * 100) / 100)%float = S754_zero true).
    { rewrite div_spec. unfold Math_round. rewrite mul_spec, Z. cbn.
      rewrite mul_spec, Z. reflexivity. }
    rewrite !leb_spec, E. split; reflexivity.
  - assert (E : Prim2SF (Math_round (v * 100) / 100)%float = S754_zero false).
    { rewrite div_spec. unfold Math_round. rewrite mul_spec, Z. cbn.
      rewrite mul_spec, Z. reflexivity. }
    rewrite !leb_spec, E. split; reflexivity.
  - pose proof pow_3000_pos as P3.
    pose proof (Prim2SF_valid v) as Vv. rewrite E in Vv.
    assert (P : Prim2SF (v * 100)%float = S754_zero false
                \/ exists m' e',
                     Prim2SF (v * 100)%float = S754_finite false m' e'
                     /\ scaled (Zpos m') e' <= 100 * 2 ^ 3000 /\ e' <= -46).
    { rewrite mul_spec, E.
      change (Prim2SF 100) with (S754_finite false percent_bound (-46)).
      rewrite <- scaled_100.
      assert (He : e <= 0).
      { destruct (Z.le_gt_cases e 0) as [L|G]; [exact L|exfalso].
        unfold scaled in Hs.
        assert (2 ^ 3000 < 2 ^ (e + 3000)) by (apply Z.pow_lt_mono_r; lia).
        assert (0 < Zpos m) by lia.
        revert Hs H H0 P3. generalize (2 ^ 3000) (2 ^ (e + 3000)) (Zpos m).
        intros. nia. }
      apply (SFmul_le false m e false percent_bound (-46) percent_bound (-46)
               Vv eq_refl eq_refl ltac:(lia)).
      rewrite scaled_100.
      revert Hs P3. generalize (2 ^ 3000) (scaled (Zpos m) e). intros T Sm Hs P3.
      nia. }
    assert (R : exists r, 0 <= r <= 100 /\ Math_round (v * 100)%float = of_Z r).
    { destruct P as [P|(m' & e' & P & Hs' & He')].
      - exists 0. split; [lia|]. unfold Math_round. rewrite P.
        apply Prim2SF_inj. rewrite P. reflexivity.
      - apply (Math_round_le _ m' e' 100 P); lia. }
    destruct R as (r & Hr & ER). rewrite ER.
    apply (between_0_and_leb 1); try reflexivity; [|lia].
    unfold between_0_and. rewrite div_spec.
    change (Prim2SF 100) with (S754_finite false percent_bound (-46)).
    destruct r as [|pr|pr]; try lia; [left; reflexivity|].
    assert (2 ^ 7 < 2 ^ 53) by reflexivity. change (2 ^ 7) with 128 in *.
    destruct (Prim2SF_of_Z_finite pr ltac:(lia)) as [Er Vr]. cbv zeta in Er, Vr.
    set (mr := pow2 pr _) in *. set (er := Zpos (digits2_pos pr) - 53) in *.
    pose proof (Prim2SF_valid (of_Z (Zpos pr))) as Valr. rewrite Er in Valr.
    rewrite Er.
    destruct (SFdiv_le false mr er false percent_bound (-46) 4503599627370496 (-52)
                Valr eq_refl eq_refl) as [Z|(m' & e' & Z & Hs' & He')].
    + rewrite Vr, scaled_100, scaled_1.
      revert P3. generalize (2 ^ 3000). intros T P3. nia.
    + left. exact Z.
    + right. exists m', e'. split; [exact Z|]. rewrite <- scaled_1. exact Hs'.
Qed.

Lemma shl_align_scaled p e e' :
  -3000 <= e -> -3000 <= e' ->
  scaled (Zpos (fst (shl_align p e e'))) (snd (shl_align p e e')) = scaled (Zpos p) e
  /\ -3000 <= snd (shl_align p e e') <= e.
Proof.
  intros He He'. unfold shl_align.
  destruct (e' - e) as [|k|k] eqn:E; cbn [fst snd]; try (split; [reflexivity|lia]).
  split; [|lia].
  rewrite Pos_iter_xO, pow2_value. unfold scaled.
  rewrite <- Z.mul_assoc, <- Z.pow_add_r by lia. do 2 f_equal. lia.
Qed.

(** What is left of 1 after a double from 0 to 1 is taken from it. *)
Lemma one_minus_le m e :
  valid_binary (S754_finite false m e) = true ->
  scaled (Zpos m) e <= 1 * 2 ^ 3000 ->
  SF64sub (Prim2SF 1%float) (S754_finite false m e) = S754_zero false
  \/ exists m' e',
       SF64sub (Prim2SF 1%float) (S754_finite false m e) = S754_finite false m' e'
       /\ scaled (Zpos m') e' <= 1 * 2 ^ 3000 /\ e' <= -52.
Proof.
  intros V H. rewrite Prim2SF_1. unfold SF64sub, SFsub. cbv zeta.
  pose proof (proj1 (valid_finite _ _ _ V)) as He.
  set (ez := Z.min (-52) e).
  rewrite !shl_align_value by (unfold ez; lia). cbn [cond_Zopp].
  set (M := Zpos 4503599627370496 * 2 ^ (-52 - ez) - Zpos m * 2 ^ (e - ez)).
  assert (HM : M * 2 ^ (ez + 3000) = 1 * 2 ^ 3000 - scaled (Zpos m) e).
  { unfold M. rewrite <- scaled_1. unfold scaled.
    rewrite Z.mul_sub_distr_r, <- !Z.mul_assoc.
    rewrite <- !Z.pow_add_r by (unfold ez; lia).
    do 2 f_equal; f_equal; lia. }
  assert (P : 0 < 2 ^ (ez + 3000)) by (apply Z.pow_pos_nonneg; unfold ez; lia).
  assert (Pm : 0 < scaled (Zpos m) e) by (apply scaled_pos; lia).
  destruct M as [|p|p] eqn:EM; cbn [binary_normalize].
  - now left.
  - unfold binary_round.
    pose proof (shl_align_scaled p ez
                  (SpecFloat.fexp prec emax (Zpos (digits2_pos p) + ez))
                  ltac:(unfold ez; lia)
                  ltac:(unfold SpecFloat.fexp, SpecFloat.emin, prec, emax; lia))
      as [Sv Se].
    destruct (shl_align p ez _) as [mz ez']. cbn [fst snd] in Sv, Se.
    rewrite <- scaled_1.
    apply binary_round_aux_le; [lia|unfold ez in Se; lia|reflexivity|].
    rewrite Sv, scaled_1. unfold scaled at 1. rewrite HM.
    left. lia.
  - exfalso. revert HM P Pm H. generalize (2 ^ (ez + 3000)) (scaled (Zpos m) e)
      (2 ^ 3000). intros. nia.
Qed.

(** The stability score of a volatility from 0 to 1 is a whole number
    from 0 to 100. *)
Lemma stability_whole v :
  unit_range v ->
  exists k, 0 <= k <= 100 /\ Math_round ((1 - v) * 100)%float = of_Z k.
Proof.
  intros U.
  assert (W : (1 - v)%float = 1%float
              \/ Prim2SF (1 - v)%float = S754_zero false
              \/ exists m e, Prim2SF (1 - v)%float = S754_finite false m e
                   /\ scaled (Zpos m) e <= 1 * 2 ^ 3000 /\ e <= -52).
  { destruct U as [Z|[Z|(m & e & E & Hs)]].
    - left. apply Prim2SF_inj. rewrite sub_spec, Z. reflexivity.
    - left. apply Prim2SF_inj. rewrite sub_spec, Z. reflexivity.
    - right. rewrite sub_spec, E.
      pose proof (Prim2SF_valid v) as Vv. rewrite E in Vv.
      exact (one_minus_le m e Vv Hs). }
  destruct W as [->|[Z|(m & e & E & Hs & He)]].
  - exists 100. split; [lia|reflexivity].
  - exists 0. split; [lia|].
    assert (P : Prim2SF ((1 - v) * 100)%float = S754_zero false)
      by (rewrite mul_spec, Z; reflexivity).
    unfold Math_round. rewrite P. apply Prim2SF_inj. rewrite P. reflexivity.
  - pose proof pow_3000_pos as P3.
    pose proof (Prim2SF_valid (1 - v)%float) as Vw. rewrite E in Vw.
    assert (P : Prim2SF ((1 - v) * 100)%float = S754_zero false
                \/ exists m' e',
                     Prim2SF ((1 - v) * 100)%float = S754_finite false m' e'
                     /\ scaled (Zpos m') e' <= 100 * 2 ^ 3000 /\ e' <= -46).
    { rewrite mul_spec, E.
      change (Prim2SF 100) with (S754_finite false percent_bound (-46)).
      rewrite <- scaled_100.
      apply (SFmul_le false m e false percent_bound (-46) percent_bound (-46)
               Vw eq_refl eq_refl ltac:(lia)).
      rewrite scaled_100.
      revert Hs P3. generalize (2 ^ 3000) (scaled (Zpos m) e). intros T Sm Hs P3.
      nia. }
    destruct P as [P|(m' & e' & P & Hs' & He')].
    + exists 0. split; [lia|]. unfold Math_round. rewrite P.
      apply Prim2SF_inj. rewrite P. reflexivity.
    + apply (Math_round_le _ m' e' 100 P); lia.
Qed.

Lemma taste_profile_of entries :
  (5 <= length (non_null_ratings entries))%nat ->
  calculateTasteProfile entries
  = profile_of (mean (non_null_ratings entries))
      (population_std_dev (non_null_ratings entries)).
Proof.
  intros H. unfold calculateTasteProfile.
  rewrite ratings_of_rated_films, count_of_rated_films.
  apply Nat.ltb_ge in H. now rewrite H.
Qed.

Lemma profile_of_range (mu stdDev : number) :
  not_below_zero (Prim2SF stdDev) ->
  ge (ratingVolatility (profile_of mu stdDev)) 0%float = true
  /\ ge 1%float (ratingVolatility (profile_of mu stdDev)) = true
  /\ exists k, 0 <= k <= 100 /\ stabilityScore (profile_of mu stdDev) = of_Z k.
Proof.
  intros H. apply volatility_range in H.
  unfold profile_of. cbv zeta. cbn [ratingVolatility stabilityScore].
  destruct (round_2dp_unit _ H) as [G0 G1].
  split; [exact G0|]. split; [exact G1|]. now apply stability_whole.
Qed.

(** X18. Whatever the diary, the taste profile shows either NaN for both the
    volatility and the stability score, or a volatility from 0 to 1 and a
    stability score that is a whole number from 0 to 100. *)
Theorem calculateTasteProfile_ranges (entries : list DiaryEntry) :
  let profile := calculateTasteProfile entries in
  (isNaN (ratingVolatility profile) = true
   /\ isNaN (stabilityScore profile) = true)
  \/ (ge (ratingVolatility profile) 0%float = true
      /\ ge 1%float (ratingVolatility profile) = true
      /\ exists k, 0 <= k <= 100 /\ stabilityScore profile = of_Z k).
Proof.
  cbv zeta.
  destruct (Nat.lt_ge_cases (length (non_null_ratings entries)) 5) as [L|G].
  - right. unfold calculateTasteProfile.
    rewrite count_of_rated_films. apply Nat.ltb_lt in L. rewrite L.
    split; [reflexivity|]. split; [reflexivity|].
    exists 50. split; [lia|reflexivity].
  - rewrite (taste_profile_of entries G).
    destruct (std_dev_cases (non_null_ratings entries)) as [N|B].
    + left. destruct (profile_of_nan (mean (non_null_ratings entries)) _ N)
        as (N1 & N2 & _). now split.
    + right. now apply profile_of_range.
Qed.

(** X19. On a diary shorter than 2^32 whose ratings are all finite numbers
    (or null), nothing in the taste profile is NaN: the volatility is a
    number from 0 to 1 and the stability score a whole number from 0 to
    100. *)
Theorem calculateTasteProfile_finite_ratings (entries : list DiaryEntry) :
  Forall (fun r => finite r = true) (non_null_ratings entries) ->
  Z.of_nat (length entries) < 2 ^ 32 ->
  let profile := calculateTasteProfile entries in
  ge (ratingVolatility profile) 0%float = true
  /\ ge 1%float (ratingVolatility profile) = true
  /\ (exists k, 0 <= k <= 100 /\ stabilityScore profile = of_Z k)
  /\ isNaN (contrarianScore profile) = false.
Proof.
  intros F Hlen. cbv zeta.
  assert (Hn : (length (non_null_ratings entries) <= length entries)%nat).
  { clear. induction entries as [|e entries IH]; [reflexivity|].
    cbn [non_null_ratings flat_map length] in *. rewrite length_app.
    destruct (Rating e); cbn [length]; unfold non_null_ratings in IH; lia. }
  destruct (Nat.lt_ge_cases (length (non_null_ratings entries)) 5) as [L|G].
  - unfold calculateTasteProfile.
    rewrite count_of_rated_films. apply Nat.ltb_lt in L. rewrite L.
    split; [reflexivity|]. split; [reflexivity|].
    split; [|reflexivity]. exists 50. split; [lia|reflexivity].
  - rewrite (taste_profile_of entries G).
    assert (Hne : non_null_ratings entries <> [])
      by (destruct (non_null_ratings entries); [cbn in G; lia|discriminate]).
    assert (Hb : Z.of_nat (length (non_null_ratings entries)) < 2 ^ 53).
    { assert (2 ^ 32 < 2 ^ 53) by reflexivity. lia. }
    pose proof (std_dev_finite_ratings _ Hne Hb F) as B.
    destruct (profile_of_range (mean (non_null_ratings entries)) _ B)
      as (G0 & G1 & K).
    split; [exact G0|]. split; [exact G1|]. split; [exact K|].
    pose proof (mean_not_nan _ Hne Hb F) as M.
    unfold profile_of. cbv zeta. cbn [contrarianScore]. unfold isNaN.
    apply Math_round_not_nan, is_nan_Prim2SF.
    rewrite mul_spec.
    change (Prim2SF 100) with (S754_finite false percent_bound (-46)).
    apply SFmul_not_nan. rewrite sub_spec.
    apply SFsub_not_nan; [exact I|].
    rewrite div_spec.
    change (Prim2SF 5) with (S754_finite false 5629499534213120 (-50)).
    now apply SFdiv_not_nan.
Qed.

(** X20. With five non-null ratings or more of which one is NaN, the
    volatility, the stability score and the contrarian score are NaN, the
    profile is not contrarian, and no statistics make the archetype the
    chaos curator. *)
Theorem calculateTasteProfile_nan_rating (entries : list DiaryEntry) :
  (5 <= length (non_null_ratings entries))%nat ->
  Exists (fun r => isNaN r = true) (non_null_ratings entries) ->
  let profile := calculateTasteProfile entries in
  isNaN (ratingVolatility profile) = true
  /\ isNaN (stabilityScore profile) = true
  /\ isNaN (contrarianScore profile) = true
  /\ isContrarian profile = false
  /\ forall stats,
       id (classifyArchetype entries stats) <> "chaos-curator"%string.
Proof.
  intros G H. cbv zeta.
  pose proof (taste_profile_of entries G) as E.
  pose proof (std_dev_nan _ H) as N. pose proof (mean_nan _ H) as M.
  destruct (profile_of_nan (mean (non_null_ratings entries)) _ N)
    as (N1 & N2 & N3 & N4).
  split; [now rewrite E|]. split; [now rewrite E|].
  split; [|split].
  - rewrite E. unfold profile_of. cbv zeta. cbn [contrarianScore].
    unfold isNaN. apply is_nan_true. unfold Math_round.
    assert (P : Prim2SF ((1 - mean (non_null_ratings entries) / 5) * 100)%float
                = S754_nan).
    { rewrite mul_spec, sub_spec, div_spec, M. reflexivity. }
    rewrite P. exact P.
  - rewrite E. unfold profile_of. cbv zeta. cbn [isContrarian].
    rewrite N3. unfold lt. rewrite ltb_spec, M. reflexivity.
  - intros stats. unfold classifyArchetype. cbv zeta. rewrite E, N4.
    assert (Ids : forall i,
              id (archetype_at entries stats i) = nth i archetype_ids EmptyString).
    { intros i. unfold archetype_at.
      now rewrite <- (archetypes_ids entries stats), <- (map_nth id). }
    repeat match goal with
           | |- context [if ?b then _ else _] => destruct b
           end; rewrite Ids; discriminate.
Qed.

Lemma calculateTasteProfile_finite_ratings_witness :
  ge (ratingVolatility (calculateTasteProfile far_apart)) 0%float = true
  /\ ge 1%float (ratingVolatility (calculateTasteProfile far_apart)) = true
  /\ (exists k, 0 <= k <= 100
               /\ stabilityScore (calculateTasteProfile far_apart) = of_Z k)
  /\ isNaN (contrarianScore (calculateTasteProfile far_apart)) = false.
Proof.
  apply (calculateTasteProfile_finite_ratings far_apart); [|reflexivity].
  apply Forall_forall. intros r Hr. cbn in Hr.
  repeat destruct Hr as [<-|Hr]; try reflexivity. contradiction.
Defined.

Lemma calculateTasteProfile_nan_rating_witness :
  isNaN (ratingVolatility (calculateTasteProfile one_unparsable)) = true
  /\ isNaN (stabilityScore (calculateTasteProfile one_unparsable)) = true
  /\ isNaN (contrarianScore (calculateTasteProfile one_unparsable)) = true
  /\ isContrarian (calculateTasteProfile one_unparsable) = false
  /\ forall stats,
       id (classifyArchetype one_unparsable stats) <> "chaos-curator"%string.
Proof.
  apply (calculateTasteProfile_nan_rating one_unparsable).
  - apply Nat.leb_le. reflexivity.
  - apply Exists_exists. exists nan. split; [|reflexivity].
    cbn. right. left. reflexivity.
Defined.
